(** * SceneJS core: event bus, morph-geometry module and camera node

    A shallow embedding of
      - src/scenejs/events/eventsModule.js          (Module [Events])
      - src/scenejs/morphGeometry/morphGeometry.js  (Module [Morph])
      - src/scenejs/transformation/camera/camera.js (Module [Camera])
    together with the properties stated about them.

    JavaScript numbers are modelled as exact rationals ([Q]); the values that a
    division can produce besides a rational (NaN and the two infinities) are
    constructors of [jsnum].  Objects that the source shares and mutates live
    in explicit stores and are named by their index. *)

From Stdlib Require Import ZArith QArith Lqa Lia List Sorted Bool.
From stdpp Require Import base option list gmap strings.

Local Open Scope Z_scope.

(** ** The event module *)

Module Events.

(** A handler as built in [addListener]: [{ command, priority }].  A command
    is a function value; it is named here by a number, and what the function
    does when called is looked up in [body] (below). *)
Record handler := Handler { command : nat; priority : Z }.

(** [var events = new Array(37)]: one priority queue per event type.  A JS
    array grows on assignment, so any index may be used as a key. *)
Abbreviation events := (gmap nat (list handler)).

(** The scan of [addListener]:
      for (i = 0; i < list.length; i++)
        if (list[i].priority > handler.priority) { list.splice(i, 0, handler); return; }
      list.push(handler); *)
Fixpoint splice_in (h : handler) (l : list handler) : list handler :=
  match l with
  | [] => [h]
  | x :: rest =>
      if priority x >? priority h then h :: x :: rest
      else x :: splice_in h rest
  end.

(** [priority : (priority == undefined) ? list.length : priority] *)
Definition mk_handler (l : list handler) (c : nat) (p : option Z) : handler :=
  Handler c (match p with None => Z.of_nat (length l) | Some p => p end).

(** [events[type]], with the empty list standing for a slot not yet created
    ([addListener] creates it on first use). *)
Definition queue (type : nat) (ev : events) : list handler :=
  default [] (ev !! type).

Definition addListener (type : nat) (c : nat) (p : option Z) (ev : events) : events :=
  let l := queue type ev in
  <[type := splice_in (mk_handler l c p) l]> ev.

(** One call [addListener(type, command, priority)] made by a callback. *)
Record registration := Reg { reg_type : nat; reg_command : nat; reg_priority : option Z }.

Definition register (ev : events) (r : registration) : events :=
  addListener (reg_type r) (reg_command r) (reg_priority r) ev.

Section Dispatch.

(** What each command does to the event module when it is called: the
    [addListener] calls it makes, in order.  ([events] is private to the
    module, so registering is the only way a callback can change it.) *)
Variable body : nat -> list registration.

(** The state of a dispatch: the event store and the commands called so
    far, oldest first. *)
Definition run_command (c : nat) (st : events * list nat) : events * list nat :=
  (fold_left register (body c) (fst st), snd st ++ [c]).

(** The loop of [fireEvent]:
      for (var i = 0; i < list.length; i++) list[i].command(params);
    [list] is the array object held in [events[type]]; the slot is never
    reassigned once created, so every iteration reads the same, live array
    and its current length.  A callback can extend the array for ever, hence
    the fuel: [None] means that the fuel ran out. *)
Fixpoint dispatch (fuel : nat) (type : nat) (i : nat) (st : events * list nat)
  : option (events * list nat) :=
  match fuel with
  | O => None
  | S fuel' =>
      match queue type (fst st) !! i with
      | None => Some st
      | Some h => dispatch fuel' type (S i) (run_command (command h) st)
      end
  end.

(** [fireEvent(type, params)]: nothing happens when [events[type]] was never
    created. *)
Definition fireEvent (fuel : nat) (type : nat) (st : events * list nat)
  : option (events * list nat) :=
  match fst st !! type with
  | None => Some st
  | Some _ => dispatch fuel type 0 st
  end.

End Dispatch.



(** A command that registers no listener for [type]. *)
Definition inert (body : nat -> list registration) (type c : nat) : Prop :=
  Forall (fun r => reg_type r ≠ type) (body c).


End Events.

(** ** JavaScript values used by the morph module and the camera *)

Module JS.

(** The result of a JS division of two numbers that are rationals or
    [undefined].  Zero is taken as +0. *)
Inductive jsnum := Num (q : Q) | NaN | PosInf | NegInf.

(** Operands are "a number or [undefined]" ([option Q]): reading past the end
    of an array gives [undefined], which behaves as NaN in a comparison or in
    arithmetic. *)
Definition js_le (a b : option Q) : bool :=
  match a, b with
  | Some x, Some y => Qle_bool x y
  | _, _ => false
  end.

Definition js_lt (a b : option Q) : bool :=
  match a, b with
  | Some x, Some y => negb (Qle_bool y x)
  | _, _ => false
  end.

Definition js_ge (a b : option Q) : bool := js_le b a.
Definition js_gt (a b : option Q) : bool := js_lt b a.

Definition js_sub (a b : option Q) : option Q :=
  match a, b with
  | Some x, Some y => Some (x - y)%Q
  | _, _ => None
  end.

Definition js_div (a b : option Q) : jsnum :=
  match a, b with
  | Some x, Some y =>
      if Qeq_bool y 0%Q then
        if Qeq_bool x 0%Q then NaN
        else if Qle_bool 0%Q x then PosInf else NegInf
      else Num (x / y)%Q
  | _, _ => NaN
  end.

(** [a[i]] for an array and an index that may be negative. *)
Definition at_index {A} (l : list A) (i : Z) : option A :=
  if i <? 0 then None else l !! Z.to_nat i.

(** An object used as a map from strings: its own properties in insertion
    order, which is the order [for ... in] visits them (keys that are array
    indices aside; none of the properties below depends on the order). *)
Abbreviation obj V := (list (string * V)).

Fixpoint obj_get {V} (k : string) (o : obj V) : option V :=
  match o with
  | [] => None
  | (k', v) :: rest => if String.eqb k k' then Some v else obj_get k rest
  end.

(** [o[k] = v]: an existing property keeps its place, a new one goes last. *)
Fixpoint obj_set {V} (k : string) (v : V) (o : obj V) : obj V :=
  match o with
  | [] => [(k, v)]
  | (k', v') :: rest =>
      if String.eqb k k' then (k, v) :: rest else (k', v') :: obj_set k v rest
  end.

Definition obj_keys {V} (o : obj V) : list string := map fst o.

(** A string used as a condition: the empty string is falsy. *)
Definition truthy (x : option string) : option string :=
  match x with
  | Some EmptyString => None
  | other => other
  end.

(** Exceptions.  [Fatal] is what [SceneJS_errorModule.fatalError] builds,
    with the error code when one is given. *)
Inductive errcode := ILLEGAL_NODE_CONFIG.

Inductive exn :=
| TypeError                                   (* property access on null/undefined *)
| Fatal (code : option errcode) (msg : string)
| BufferError.                                (* thrown by the buffer constructor *)

Inductive result (A : Type) :=
| Ok (a : A)
| Throw (e : exn).
Arguments Ok {A} a.
Arguments Throw {A} e.

(** Code that changes a state [S] and may throw: the state reached is kept
    in both cases, since what was done before a [throw] stays done. *)
Definition M (S A : Type) : Type := S -> result A * S.

Definition ret {S A} (a : A) : M S A := fun s => (Ok a, s).
Definition throw {S A} (e : exn) : M S A := fun s => (Throw e, s).
Definition bind {S A B} (m : M S A) (k : A -> M S B) : M S B :=
  fun s => match m s with
           | (Ok a, s') => k a s'
           | (Throw e, s') => (Throw e, s')
           end.
Definition get {S} : M S S := fun s => (Ok s, s).
Definition modify {S} (f : S -> S) : M S unit := fun s => (Ok tt, f s).
Definition lift {S A} (r : result A) : M S A := fun s => (r, s).

Declare Scope js_scope.
Delimit Scope js_scope with js.
Notation "x <- m ;; k" := (bind m (fun x => k))
  (at level 100, m at next level, right associativity) : js_scope.
Notation "m ;;; k" := (bind m (fun _ => k))
  (at level 100, right associativity) : js_scope.

(** [for (x of xs) f(x)], stopping at the first exception. *)
Fixpoint for_each {S A} (xs : list A) (f : A -> M S unit) : M S unit :=
  match xs with
  | [] => ret tt
  | x :: rest => bind (f x) (fun _ => for_each rest f)
  end.

End JS.

(** ** Binding listeners by name *)

Module Bind.
Import Events JS.

(** The event types that [SceneJS.bind] uses, as numbered in the event
    module. *)
Definition ERROR : nat := 0.
Definition RESET : nat := 2.
Definition SCENE_CREATED : nat := 4.
Definition SCENE_COMPILING : nat := 5.
Definition SCENE_COMPILED : nat := 6.
Definition SCENE_DESTROYED : nat := 7.
Definition SCENE_RENDERING : nat := 29.
Definition NODE_CREATED : nat := 39.
Definition NODE_UPDATED : nat := 40.
Definition NODE_DESTROYED : nat := 41.

(** The [switch (name)] of [SceneJS.bind]: the event type each name stands
    for; [None] is the [default] branch. *)
Definition event_of_name (name : string) : option nat :=
  if String.eqb name "error" then Some ERROR
  else if String.eqb name "reset" then Some RESET
  else if String.eqb name "scene-created" then Some SCENE_CREATED
  else if String.eqb name "node-created" then Some NODE_CREATED
  else if String.eqb name "node-updated" then Some NODE_UPDATED
  else if String.eqb name "node-destroyed" then Some NODE_DESTROYED
  else if String.eqb name "scene-rendering" then Some SCENE_COMPILING
  else if String.eqb name "scene-rendered" then Some SCENE_COMPILED
  else if String.eqb name "scene-destroyed" then Some SCENE_DESTROYED
  else None.

(** [SceneJS.bind(name, func)] (also [SceneJS.addListener] and
    [SceneJS.onEvent]).  The listener registered is a function that calls
    [func] with some of the parameters; [func] stands for it here.  No
    priority is given. *)
Definition SceneJS_bind (name : string) (func : nat) (ev : events) : result events :=
  match event_of_name name with
  | Some type => Ok (addListener type func None ev)
  | None =>
      Throw (Fatal None ("SceneJS.bind - this event type not supported: '" ++ name ++ "'"))
  end.

(** A sequence of [SceneJS.bind(name, func)] calls; the first that throws
    ends it. *)
Fixpoint bind_all (calls : list (string * nat)) (ev : events) : result events :=
  match calls with
  | [] => Ok ev
  | (name, func) :: rest =>
      match SceneJS_bind name func ev with
      | Ok ev' => bind_all rest ev'
      | Throw e => Throw e
      end
  end.

(** The functions bound, in a sequence of calls, to the names that stand for
    the event type [type]. *)
Definition bound_to (type : nat) (calls : list (string * nat)) : list nat :=
  map snd (filter (fun call => event_of_name (fst call) = Some type) calls).

(** Every listener queued has a priority below the length of its queue, as
    when all of them were registered without a priority. *)
Definition default_priorities (ev : events) : Prop :=
  forall type, Forall (fun x => priority x < Z.of_nat (length (queue type ev))) (queue type ev).

End Bind.

(** ** The morph-geometry module *)

Module Morph.
Import JS.

(** [params.canvas]: the canvas element's id and its WebGL context. *)
Record Canvas := { canvasId : string; context : nat }.

(** A buffer object made by [new SceneJS_webgl_ArrayBuffer(context, type,
    data, length, itemSize, usage)]; [destroy()] clears [buf_alive]. *)
Record Buffer := { buf_context : nat; buf_data : list Q; buf_itemSize : Z; buf_alive : bool }.

(** One element of [morph.targets]: the references of the buffers made so far
    ([None] while a field is not assigned). *)
Record Target := {
  vertexBuf : option nat;
  normalBuf : option nat;
  uvBuf : option nat;
  uvBuf2 : option nat
}.

(** The morph object of [_createMorph]; [factor] is assigned by
    [pushMorphGeometry]. *)
Record MorphObj := {
  m_canvas : Canvas;
  m_resource : string;
  m_keys : list Q;
  m_targets : list Target;
  m_factor : option Q
}.

(** One target of the source data: [{positions?, normals?, uv?, uv2?}]. *)
Record TargetData := {
  positions : option (list Q);
  normals : option (list Q);
  uv : option (list Q);
  uv2 : option (list Q)
}.

(** [{keys, targets}] as [createMorphGeometry] receives it. *)
Record MorphData := { d_keys : list Q; d_targets : list TargetData }.

(** [{ canvasId, resource }] *)
Record Handle := { h_canvasId : string; h_resource : string }.

(** A call of [SceneJS_renderModule.setMorph]: with the node id and the blend
    state, or without arguments. *)
Inductive setMorph_call :=
| SetMorph (id : option string) (factor : jsnum) (target1 target2 : option Target)
| SetNullMorph.

(** The module's variables, the objects they share, and the part of the
    environment the module talks to.

    [maps] holds the per-canvas morph maps and [morphs] the morph objects;
    both are referred to by index, so that [currentMorphs] and
    [canvasMorphs[id]] can name the same map, and a map entry and a
    [morphStack] slot the same morph.  An entry of a morph map is a morph
    reference or [null] ([None]).  [idStack] and [morphStack] are arrays
    written at index [stackLen], which the code can drive below zero. *)
Record State := {
  canvas : option Canvas;
  canvasMorphs : obj nat;
  currentMorphs : option nat;
  idStack : gmap Z string;
  morphStack : gmap Z nat;
  stackLen : Z;
  dirty : bool;
  maps : list (obj (option nat));
  morphs : list MorphObj;
  buffers : list Buffer;
  document : list string;
  rendered : list setMorph_call
}.

(** The state when the module has just been loaded. *)
Definition initial (doc : list string) : State :=
  {| canvas := None; canvasMorphs := []; currentMorphs := None;
     idStack := ∅; morphStack := ∅; stackLen := 0; dirty := false;
     maps := []; morphs := []; buffers := []; document := doc; rendered := [] |}.

Definition set_canvas (v : option Canvas) (s : State) : State :=
  {| canvas := v; canvasMorphs := canvasMorphs s; currentMorphs := currentMorphs s;
     idStack := idStack s; morphStack := morphStack s; stackLen := stackLen s;
     dirty := dirty s; maps := maps s; morphs := morphs s; buffers := buffers s;
     document := document s; rendered := rendered s |}.

Definition set_canvasMorphs (v : obj nat) (s : State) : State :=
  {| canvas := canvas s; canvasMorphs := v; currentMorphs := currentMorphs s;
     idStack := idStack s; morphStack := morphStack s; stackLen := stackLen s;
     dirty := dirty s; maps := maps s; morphs := morphs s; buffers := buffers s;
     document := document s; rendered := rendered s |}.

Definition set_currentMorphs (v : option nat) (s : State) : State :=
  {| canvas := canvas s; canvasMorphs := canvasMorphs s; currentMorphs := v;
     idStack := idStack s; morphStack := morphStack s; stackLen := stackLen s;
     dirty := dirty s; maps := maps s; morphs := morphs s; buffers := buffers s;
     document := document s; rendered := rendered s |}.

Definition set_idStack (v : gmap Z string) (s : State) : State :=
  {| canvas := canvas s; canvasMorphs := canvasMorphs s; currentMorphs := currentMorphs s;
     idStack := v; morphStack := morphStack s; stackLen := stackLen s;
     dirty := dirty s; maps := maps s; morphs := morphs s; buffers := buffers s;
     document := document s; rendered := rendered s |}.

Definition set_morphStack (v : gmap Z nat) (s : State) : State :=
  {| canvas := canvas s; canvasMorphs := canvasMorphs s; currentMorphs := currentMorphs s;
     idStack := idStack s; morphStack := v; stackLen := stackLen s;
     dirty := dirty s; maps := maps s; morphs := morphs s; buffers := buffers s;
     document := document s; rendered := rendered s |}.

Definition set_stackLen (v : Z) (s : State) : State :=
  {| canvas := canvas s; canvasMorphs := canvasMorphs s; currentMorphs := currentMorphs s;
     idStack := idStack s; morphStack := morphStack s; stackLen := v;
     dirty := dirty s; maps := maps s; morphs := morphs s; buffers := buffers s;
     document := document s; rendered := rendered s |}.

Definition set_dirty (v : bool) (s : State) : State :=
  {| canvas := canvas s; canvasMorphs := canvasMorphs s; currentMorphs := currentMorphs s;
     idStack := idStack s; morphStack := morphStack s; stackLen := stackLen s;
     dirty := v; maps := maps s; morphs := morphs s; buffers := buffers s;
     document := document s; rendered := rendered s |}.

Definition set_maps (v : list (obj (option nat))) (s : State) : State :=
  {| canvas := canvas s; canvasMorphs := canvasMorphs s; currentMorphs := currentMorphs s;
     idStack := idStack s; morphStack := morphStack s; stackLen := stackLen s;
     dirty := dirty s; maps := v; morphs := morphs s; buffers := buffers s;
     document := document s; rendered := rendered s |}.

Definition set_morphs (v : list MorphObj) (s : State) : State :=
  {| canvas := canvas s; canvasMorphs := canvasMorphs s; currentMorphs := currentMorphs s;
     idStack := idStack s; morphStack := morphStack s; stackLen := stackLen s;
     dirty := dirty s; maps := maps s; morphs := v; buffers := buffers s;
     document := document s; rendered := rendered s |}.

Definition set_buffers (v : list Buffer) (s : State) : State :=
  {| canvas := canvas s; canvasMorphs := canvasMorphs s; currentMorphs := currentMorphs s;
     idStack := idStack s; morphStack := morphStack s; stackLen := stackLen s;
     dirty := dirty s; maps := maps s; morphs := morphs s; buffers := v;
     document := document s; rendered := rendered s |}.

Definition set_rendered (v : list setMorph_call) (s : State) : State :=
  {| canvas := canvas s; canvasMorphs := canvasMorphs s; currentMorphs := currentMorphs s;
     idStack := idStack s; morphStack := morphStack s; stackLen := stackLen s;
     dirty := dirty s; maps := maps s; morphs := morphs s; buffers := buffers s;
     document := document s; rendered := v |}.

Abbreviation M := (JS.M State).
Local Open Scope js_scope.


(** [document.getElementById(id)] finds an element. *)
Definition getElementById (id : string) (doc : list string) : bool :=
  existsb (String.eqb id) doc.

(** *** Frame selection of the SCENE_RENDERING listener *)

(** [for (var i = n - 1; i >= 0; i--) if (factor > keys[i]) { key1 = i; break; }] *)
Fixpoint scan_down (keys : list Q) (factor : option Q) (n : nat) : option Z :=
  match n with
  | O => None
  | S i => if js_gt factor (keys !! i) then Some (Z.of_nat i)
           else scan_down keys factor i
  end.

(** The three-way choice of the listener; it yields the factor as it stands
    after clamping, [key1] and [key2] ([None] when the scan assigns nothing and
    they stay [undefined]). *)
Definition find_frame (keys : list Q) (ntargets : nat) (factor : option Q)
  : option Q * option Z * option Z :=
  let len := Z.of_nat (length keys) in
  if js_le factor (at_index keys 0) then
    (at_index keys 0, Some 0, Some 1)
  else if js_ge factor (at_index keys (len - 1)) then
    (at_index keys (len - 1), Some (len - 2), Some (len - 1))
  else
    match scan_down keys factor ntargets with
    | Some i => (factor, Some i, Some (i + 1))
    | None => (factor, None, None)
    end.

(** [a[k]] where [k] may be [undefined]. *)
Definition at_key {A} (l : list A) (k : option Z) : option A :=
  match k with
  | Some i => at_index l i
  | None => None
  end.

(** [(factor - keys[key1]) / (keys[key2] - keys[key1])] *)
Definition normalize (keys : list Q) (frame : option Q * option Z * option Z) : jsnum :=
  let '(factor, key1, key2) := frame in
  js_div (js_sub factor (at_key keys key1))
         (js_sub (at_key keys key2) (at_key keys key1)).

(** What the listener hands to [setMorph] for the morph on top of the stack. *)
Definition blend (id : option string) (morph : MorphObj) : setMorph_call :=
  let frame := find_frame (m_keys morph) (length (m_targets morph)) (m_factor morph) in
  SetMorph id (normalize (m_keys morph) frame)
           (at_key (m_targets morph) (snd (fst frame)))
           (at_key (m_targets morph) (snd frame)).

Definition setMorph (c : setMorph_call) : M unit :=
  modify (fun s => set_rendered (rendered s ++ [c]) s).

(** *** Buffers *)

Definition kill (b : Buffer) : Buffer :=
  {| buf_context := buf_context b; buf_data := buf_data b;
     buf_itemSize := buf_itemSize b; buf_alive := false |}.

(** Modelled from the spec: [buf.destroy()] of the buffer class, which is not
    in these sources ("[bufferHandle.destroy()]" of the buffer primitive
    interface): the buffer is no longer alive. *)
Definition destroy_buffer (b : nat) : M unit :=
  modify (fun s => set_buffers (alter kill b (buffers s)) s).

(** [if (target.f) target.f.destroy()] *)
Definition destroy_if (b : option nat) : M unit :=
  match b with
  | Some b => destroy_buffer b
  | None => ret tt
  end.

(** The body of the two loops that release a morph's targets. *)
Definition destroy_target (t : Target) : M unit :=
  destroy_if (vertexBuf t) ;;;
  destroy_if (normalBuf t) ;;;
  destroy_if (uvBuf t) ;;;
  destroy_if (uvBuf2 t).

(** The references of the buffers still alive. *)
Definition live (bs : list Buffer) : list nat :=
  filter (fun i => bool_decide (buf_alive <$> bs !! i = Some true)) (seq 0 (length bs)).

(** *** The listeners *)

(** SCENE_COMPILING: [params.canvas] becomes the active canvas, its morph map
    is created on first use, and the stack is emptied. *)
Definition SCENE_COMPILING (params_canvas : Canvas) : M unit :=
  modify (set_canvas (Some params_canvas)) ;;;
  s <- get ;;
  match obj_get (canvasId params_canvas) (canvasMorphs s) with
  | Some _ => ret tt
  | None =>
      modify (fun s =>
        set_canvasMorphs (obj_set (canvasId params_canvas) (length (maps s)) (canvasMorphs s))
          (set_maps (maps s ++ [[]]) s))
  end ;;;
  modify (fun s => set_currentMorphs (obj_get (canvasId params_canvas) (canvasMorphs s)) s) ;;;
  modify (set_stackLen 0).

(** SCENE_RENDERING *)
Definition SCENE_RENDERING : M unit :=
  s <- get ;;
  if dirty s then
    (if 0 <? stackLen s then
       match morphStack s !! (stackLen s - 1) ≫= (fun r => morphs s !! r) with
       | None => throw TypeError                       (* [morph.factor] of undefined *)
       | Some morph => setMorph (blend (idStack s !! (stackLen s - 1)) morph)
       end
     else setMorph SetNullMorph) ;;;
    modify (set_dirty false)
  else ret tt.

(** [destroyMorph(morph)]; the argument is a morph reference or [null] /
    [undefined] ([None]), whose [morph.canvas] cannot be read. *)
Definition destroyMorph (morph : option nat) : M unit :=
  s <- get ;;
  match morph ≫= (fun r => morphs s !! r) with
  | None => throw TypeError
  | Some m =>
      (if getElementById (canvasId (m_canvas m)) (document s)
       then for_each (m_targets m) destroy_target
       else ret tt) ;;;
      s <- get ;;
      match obj_get (canvasId (m_canvas m)) (canvasMorphs s) with
      | Some mapref =>
          modify (fun s => set_maps (alter (obj_set (m_resource m) None) mapref (maps s)) s)
      | None => ret tt
      end
  end.

(** [morphs[resource]] read from the map object [mapref] as it is now. *)
Definition entry (mapref : nat) (resource : string) (s : State) : option nat :=
  mjoin (obj_get resource (default [] (maps s !! mapref))).

(** RESET: the two [for ... in] loops visit the keys the objects have when
    the loop starts (no key is added or removed meanwhile) and read each
    value when its turn comes. *)
Definition RESET : M unit :=
  s <- get ;;
  for_each (canvasMorphs s) (fun '(_, mapref) =>
    s <- get ;;
    for_each (obj_keys (default [] (maps s !! mapref))) (fun resource =>
      s <- get ;;
      destroyMorph (entry mapref resource s))) ;;;
  modify (set_canvas None) ;;;
  modify (set_canvasMorphs []) ;;;
  modify (set_currentMorphs None) ;;;
  modify (set_stackLen 0).

(** *** Creating and destroying morphs *)

(** [new Float32Array(a)] keeps the elements (their rounding to single
    precision is not modelled). *)
Definition createTypedArrays (data : TargetData) : TargetData :=
  {| positions := positions data; normals := normals data;
     uv := uv data; uv2 := uv2 data |}.

Definition createTypedMorph (data : MorphData) : MorphData :=
  {| d_keys := d_keys data; d_targets := map createTypedArrays (d_targets data) |}.

Definition set_vertexBuf (b : nat) (t : Target) : Target :=
  {| vertexBuf := Some b; normalBuf := normalBuf t; uvBuf := uvBuf t; uvBuf2 := uvBuf2 t |}.
Definition set_normalBuf (b : nat) (t : Target) : Target :=
  {| vertexBuf := vertexBuf t; normalBuf := Some b; uvBuf := uvBuf t; uvBuf2 := uvBuf2 t |}.
Definition set_uvBuf (b : nat) (t : Target) : Target :=
  {| vertexBuf := vertexBuf t; normalBuf := normalBuf t; uvBuf := Some b; uvBuf2 := uvBuf2 t |}.
Definition set_uvBuf2 (b : nat) (t : Target) : Target :=
  {| vertexBuf := vertexBuf t; normalBuf := normalBuf t; uvBuf := uvBuf t; uvBuf2 := Some b |}.

Definition set_factor (f : Q) (m : MorphObj) : MorphObj :=
  {| m_canvas := m_canvas m; m_resource := m_resource m; m_keys := m_keys m;
     m_targets := m_targets m; m_factor := Some f |}.

(** The source of a morph: a stream id or the targets themselves. *)
Inductive Source := Stream (id : string) | Inline (data : MorphData).

Section Create.

(** Modelled from the spec: the constructor [SceneJS_webgl_ArrayBuffer], not
    in these sources ("[allocate(kind, data, itemCount, componentsPerItem,
    usageHint) -> bufferHandle]", which can fail, "e.g., out-of-memory").
    Whether it throws may depend on the buffers that exist and on the data. *)
Variable alloc_throws : list Buffer -> list Q -> bool.

(** Modelled from the spec: [SceneJS._createKeyForMap(map, prefix)], not in
    these sources; "a fresh unique id is generated scoped to the current
    surface".  Its argument is the current morph map, or [null]. *)
Variable _createKeyForMap : option (obj (option nat)) -> string -> string.

(** [new SceneJS_webgl_ArrayBuffer(context, context.ARRAY_BUFFER, data,
    data.length, itemSize, usage)] *)
Definition new_ArrayBuffer (ctx : nat) (data : list Q) (itemSize : Z) : M nat :=
  fun s =>
    if alloc_throws (buffers s) data then (Throw BufferError, s)
    else (Ok (length (buffers s)),
          set_buffers (buffers s ++ [Build_Buffer ctx data itemSize true]) s).

(** One statement
      if (target.f && target.f.length > 0) newTarget.g = new SceneJS_webgl_ArrayBuffer(...);
    [nt] is [newTarget].  The result carries [newTarget] as the statement
    leaves it and the exception, if one was thrown. *)
Definition alloc_field (ctx : nat) (data : option (list Q)) (itemSize : Z)
    (setf : nat -> Target -> Target) (nt : Target) (s : State)
  : (Target * option exn) * State :=
  match data with
  | Some (x :: rest) =>
      match new_ArrayBuffer ctx (x :: rest) itemSize s with
      | (Ok b, s') => ((setf b nt, None), s')
      | (Throw e, s') => ((nt, Some e), s')
      end
  | _ => ((nt, None), s)
  end.

(** Sequencing of such statements: the next one runs unless the previous
    one threw. *)
Definition and_then (step : Target -> State -> (Target * option exn) * State)
    (r : (Target * option exn) * State) : (Target * option exn) * State :=
  match r with
  | ((nt, None), s) => step nt s
  | ((nt, Some e), s) => ((nt, Some e), s)
  end.

(** The body of the allocation loop for one target, from [newTarget = {}]. *)
Definition alloc_target (ctx : nat) (t : TargetData) (s : State)
  : (Target * option exn) * State :=
  and_then (alloc_field ctx (uv2 t) 2 set_uvBuf2)
    (and_then (alloc_field ctx (uv t) 2 set_uvBuf)
       (and_then (alloc_field ctx (normals t) 3 set_normalBuf)
          (alloc_field ctx (positions t) 3 set_vertexBuf
             (Build_Target None None None None) s))).

(** The allocation loop.  [acc] is [morph.targets]; [newTarget] is pushed
    onto it before its buffers are made, so it is part of the list whether
    or not the body throws. *)
Fixpoint alloc_targets (ctx : nat) (ts : list TargetData) (acc : list Target)
    (s : State) : (list Target * option exn) * State :=
  match ts with
  | [] => ((acc, None), s)
  | t :: rest =>
      match alloc_target ctx t s with
      | ((nt, Some e), s') => ((acc ++ [nt], Some e), s')
      | ((nt, None), s') => alloc_targets ctx rest (acc ++ [nt]) s'
      end
  end.

(** [currentMorphs[resource] = morph]: the morph object enters the store of
    shared objects at the moment the module state starts to refer to it. *)
Definition register_morph (mapref : nat) (morph : MorphObj) (s : State) : State :=
  set_maps (alter (obj_set (m_resource morph) (Some (length (morphs s)))) mapref (maps s))
    (set_morphs (morphs s ++ [morph]) s).

(** [_createMorph(resource, data, options)] *)
Definition _createMorph (resource : string) (data : MorphData) (options : bool)
  : M Handle :=
  s <- get ;;
  match canvas s with
  | None => throw TypeError                          (* [canvas.context] *)
  | Some cv =>
      fun s =>
        let '((targets, thrown), s1) :=
          alloc_targets (context cv) (d_targets data) [] s in
        let morph := {| m_canvas := cv; m_resource := resource;
                        m_keys := d_keys data; m_targets := targets;
                        m_factor := None |} in
        let tried : result Handle * State :=
          match thrown with
          | Some e => (Throw e, s1)
          | None =>
              match currentMorphs s1 with
              | None => (Throw TypeError, s1)        (* [currentMorphs[resource] = morph] *)
              | Some mapref =>
                  (Ok {| h_canvasId := canvasId cv; h_resource := resource |},
                   register_morph mapref morph s1)
              end
          end in
        match tried with
        | (Ok h, s2) => (Ok h, s2)
        | (Throw e, s2) =>                           (* catch (e) *)
            (for_each targets destroy_target ;;; throw e) s2
        end
  end.

(** [createMorphGeometry(resource, source, options, callback)].  For a
    stream the loader service calls back later, outside this call, which
    returns [undefined]. *)
Definition createMorphGeometry (resource : option string) (source : Source)
    (options : bool) : M (option Handle) :=
  s <- get ;;
  let resource :=
    match truthy resource with
    | Some r => r
    | None => _createKeyForMap (currentMorphs s ≫= (fun r => maps s !! r)) "m"
    end in
  match source with
  | Stream _ => ret None
  | Inline data =>
      h <- _createMorph resource (createTypedMorph data) options ;;
      ret (Some h)
  end.

End Create.

(** [destroyMorphGeometry(handle)] *)
Definition destroyMorphGeometry (handle : Handle) : M unit :=
  s <- get ;;
  match obj_get (h_canvasId handle) (canvasMorphs s) with
  | None => ret tt
  | Some mapref =>
      match entry mapref (h_resource handle) s with
      | None => throw (Fatal None ("morph not found: '" ++ h_resource handle ++ "'"))
      | Some r => destroyMorph (Some r)
      end
  end.

(** [pushMorphGeometry(id, handle, factor)] *)
Definition pushMorphGeometry (id : string) (handle : Handle) (factor : Q) : M unit :=
  s <- get ;;
  match currentMorphs s with
  | None => throw TypeError                            (* [currentMorphs[...]] on null *)
  | Some mapref =>
      match entry mapref (h_resource handle) s with
      | None => throw TypeError                        (* [morph.factor = factor] *)
      | Some r =>
          modify (fun s => set_morphs (alter (set_factor factor) r (morphs s)) s) ;;;
          modify (fun s => set_idStack (<[stackLen s := id]> (idStack s)) s) ;;;
          modify (fun s => set_morphStack (<[stackLen s := r]> (morphStack s)) s) ;;;
          modify (fun s => set_stackLen (stackLen s + 1) s) ;;;
          modify (set_dirty true)
      end
  end.

(** [popMorphGeometry()] *)
Definition popMorphGeometry : M unit :=
  modify (fun s => set_stackLen (stackLen s - 1) s) ;;;
  modify (set_dirty true).

(** *** The node type *)

(** What [_setMorph] reads of its argument: [params.targets], [params.keys]. *)
Record RawMorph := { r_targets : option (list TargetData); r_keys : option (list Q) }.

(** The constructor's parameters.  [p_create] is the factory function, given
    by the record it returns. *)
Record Params := {
  p_create : option RawMorph;
  p_stream : option string;
  p_targets : option (list TargetData);
  p_keys : option (list Q);
  p_factor : option Q;
  p_clamp : option bool
}.

(** A morphGeometry node: [this.attr.id], [this._resource], [this._create],
    [this._stream], [this._handle] and the attributes the node type sets. *)
Record Node := {
  attr_id : string;
  _resource : option string;
  _create : option RawMorph;
  _stream : option string;
  _handle : option Handle;
  attr_factor : Q;
  attr_clamp : bool;
  attr_keys : option (list Q);
  attr_targets : option (list TargetData)
}.

Definition with_create (v : option RawMorph) (n : Node) : Node :=
  {| attr_id := attr_id n; _resource := _resource n; _create := v; _stream := _stream n;
     _handle := _handle n; attr_factor := attr_factor n; attr_clamp := attr_clamp n;
     attr_keys := attr_keys n; attr_targets := attr_targets n |}.

Definition with_stream (v : option string) (n : Node) : Node :=
  {| attr_id := attr_id n; _resource := _resource n; _create := _create n; _stream := v;
     _handle := _handle n; attr_factor := attr_factor n; attr_clamp := attr_clamp n;
     attr_keys := attr_keys n; attr_targets := attr_targets n |}.

Definition with_handle (v : option Handle) (n : Node) : Node :=
  {| attr_id := attr_id n; _resource := _resource n; _create := _create n; _stream := _stream n;
     _handle := v; attr_factor := attr_factor n; attr_clamp := attr_clamp n;
     attr_keys := attr_keys n; attr_targets := attr_targets n |}.

Definition with_factor_clamp (f : Q) (c : bool) (n : Node) : Node :=
  {| attr_id := attr_id n; _resource := _resource n; _create := _create n; _stream := _stream n;
     _handle := _handle n; attr_factor := f; attr_clamp := c;
     attr_keys := attr_keys n; attr_targets := attr_targets n |}.

Definition with_morph (k : list Q) (t : list TargetData) (n : Node) : Node :=
  {| attr_id := attr_id n; _resource := _resource n; _create := _create n; _stream := _stream n;
     _handle := _handle n; attr_factor := attr_factor n; attr_clamp := attr_clamp n;
     attr_keys := Some k; attr_targets := Some t |}.

(** The first loop of [_setMorph]: for each kind of array, a copy of the
    first one that some target has. *)
Definition first_of (f : TargetData -> option (list Q)) (targets : list TargetData)
  : option (list Q) :=
  fold_left (fun found t => match found with Some a => Some a | None => f t end)
            targets None.

(** The body of the second loop: an array the target lacks is taken from
    the defaults. *)
Definition or_default (own dflt : option (list Q)) : option (list Q) :=
  match own with
  | Some a => Some a
  | None => dflt
  end.

Definition fill_target (targets : list TargetData) (t : TargetData) : TargetData :=
  {| positions := or_default (positions t) (first_of positions targets);
     normals := or_default (normals t) (first_of normals targets);
     uv := or_default (uv t) (first_of uv targets);
     uv2 := or_default (uv2 t) (first_of uv2 targets) |}.

(** [MorphGeometry.prototype._setMorph] *)
Definition _setMorph (params : RawMorph) (n : Node) : result Node :=
  let targets := default [] (r_targets params) in
  if (length targets <? 2)%nat then
    Throw (Fatal (Some ILLEGAL_NODE_CONFIG)
                 "morphGeometry node should have at least two targets")
  else
    let keys := default [] (r_keys params) in
    if negb (length keys =? length targets)%nat then
      Throw (Fatal (Some ILLEGAL_NODE_CONFIG)
                   "morphGeometry node mismatch in number of keys and targets")
    else
      Ok (with_morph keys (map (fill_target targets) targets) n).

(** [MorphGeometry.prototype._init] *)
Definition _init (params : Params) (n : Node) : M Node :=
  n1 <- match p_create params with
        | Some f => ret (with_create (Some f) n)
        | None =>
            match truthy (p_stream params) with
            | Some st => ret (with_stream (Some st) n)
            | None => lift (_setMorph {| r_targets := p_targets params;
                                         r_keys := p_keys params |} n)
            end
        end ;;
  ret (with_factor_clamp (default 0%Q (p_factor params))
         (match p_clamp params with Some false => false | _ => true end) n1).

(** [this.attr] handed to [createMorphGeometry] as the source; reading
    [data.targets.length] fails while the targets are not set. *)
Definition attr_source (n : Node) : M Source :=
  match attr_targets n with
  | Some t => ret (Inline {| d_keys := default [] (attr_keys n); d_targets := t |})
  | None => throw TypeError
  end.

Section Compile.

Variable alloc_throws : list Buffer -> list Q -> bool.
Variable _createKeyForMap : option (obj (option nat)) -> string -> string.

(** Modelled from the spec: [_compileNodes], the "generic tree-compile
    recursion" of the node base class, not in these sources; it compiles
    the node's children. *)
Variable _compileNodes : M unit.

(** [MorphGeometry.prototype._preCompile] *)
Definition _preCompile (n : Node) : M Node :=
  n1 <- match _handle n with
        | Some _ => ret n
        | None =>
            match _create n with
            | Some params =>
                n' <- lift (_setMorph params n) ;;
                src <- attr_source n' ;;
                h <- createMorphGeometry alloc_throws _createKeyForMap
                       (_resource n') src (attr_clamp n') ;;
                ret (with_handle h n')
            | None =>
                match truthy (_stream n) with
                | Some st =>
                    createMorphGeometry alloc_throws _createKeyForMap
                      (_resource n) (Stream st) (attr_clamp n) ;;;
                    ret n
                | None =>
                    src <- attr_source n ;;
                    h <- createMorphGeometry alloc_throws _createKeyForMap
                           (_resource n) src (attr_clamp n) ;;
                    ret (with_handle h n)
                end
            end
        end ;;
  match _handle n1 with
  | Some h => pushMorphGeometry (attr_id n1) h (attr_factor n1) ;;; ret n1
  | None => ret n1
  end.

(** [MorphGeometry.prototype._postCompile] *)
Definition _postCompile (n : Node) : M unit :=
  match _handle n with
  | Some _ => popMorphGeometry
  | None => ret tt
  end.

(** [MorphGeometry.prototype._compile] *)
Definition _compile (n : Node) : M Node :=
  n1 <- _preCompile n ;;
  _compileNodes ;;;
  _postCompile n1 ;;;
  ret n1.

End Compile.

(** [MorphGeometry.prototype._destroy] *)
Definition _destroy (n : Node) : M Node :=
  match _handle n with
  | Some h => destroyMorphGeometry h
  | None => ret tt
  end ;;;
  ret (with_handle None n).

(** *** Vocabulary for the properties *)

(** The buffers a target refers to, in the order the release loops visit
    its fields. *)
Definition refs_of (t : Target) : list nat :=
  omap id [vertexBuf t; normalBuf t; uvBuf t; uvBuf2 t].

Definition all_refs (ts : list Target) : list nat := concat (map refs_of ts).

(** [destroy()] called on each of [refs] in turn. *)
Definition kill_all (refs : list nat) (bs : list Buffer) : list Buffer :=
  fold_left (fun bs r => alter kill r bs) refs bs.

(** The two effects of [destroyMorph] on a morph [m]: its buffers are
    destroyed if the canvas element is still in the document, and its entry in
    the morph map of its canvas, if that map exists, is set to [null]. *)
Definition released (m : MorphObj) (s : State) : State :=
  if getElementById (canvasId (m_canvas m)) (document s)
  then set_buffers (kill_all (all_refs (m_targets m)) (buffers s)) s
  else s.

Definition nulled (m : MorphObj) (s : State) : State :=
  match obj_get (canvasId (m_canvas m)) (canvasMorphs s) with
  | Some mapref => set_maps (alter (obj_set (m_resource m) None) mapref (maps s)) s
  | None => s
  end.

(** The morph map [mapref] has the key [resource], bound to [null]. *)
Definition null_entry (mapref : nat) (resource : string) (s : State) : Prop :=
  exists o, maps s !! mapref = Some o /\
            resource ∈ obj_keys o /\
            obj_get resource o = Some None.

(** The state a successful [pushMorphGeometry(id, handle, factor)] leaves,
    [r] being the morph the handle stands for. *)
Definition pushed (id : string) (r : nat) (factor : Q) (s : State) : State :=
  set_dirty true
    (set_stackLen (stackLen s + 1)
       (set_morphStack (<[stackLen s := r]> (morphStack s))
          (set_idStack (<[stackLen s := id]> (idStack s))
             (set_morphs (alter (set_factor factor) r (morphs s)) s)))).

(** The number of buffers the allocation loop makes for one target: one for
    each array that is there and is not empty. *)
Definition wanted1 (a : option (list Q)) : nat :=
  match a with
  | Some (_ :: _) => 1
  | _ => 0
  end.

Definition wanted (t : TargetData) : nat :=
  (wanted1 (positions t) + wanted1 (normals t) + wanted1 (uv t) + wanted1 (uv2 t))%nat.

Definition wanted_total (ts : list TargetData) : nat :=
  fold_right (fun t n => (wanted t + n)%nat) 0%nat ts.


(** [cv] is the active canvas and [mapref] its morph map, which is also the
    current one: the situation the SCENE_COMPILING listener sets up. *)
Definition active (cv : Canvas) (mapref : nat) (s : State) : Prop :=
  canvas s = Some cv /\ currentMorphs s = Some mapref /\
  obj_get (canvasId cv) (canvasMorphs s) = Some mapref /\
  (mapref < length (maps s))%nat.

(** The buffer [b] is not alive. *)
Definition dead (b : nat) (s : State) : Prop :=
  buf_alive <$> buffers s !! b ≠ Some true.

(** The morph map [mr] files under the key [k] a morph that exists and is
    itself labelled with [k] and with the canvas that [mr] belongs to. *)
Definition live_entry (mr : nat) (k : string) (s : State) : Prop :=
  exists r m, entry mr k s = Some r /\ morphs s !! r = Some m /\
              m_resource m = k /\
              obj_get (canvasId (m_canvas m)) (canvasMorphs s) = Some mr.

(** Every entry of the morph map [mr] is such, and no key occurs twice. *)
Definition all_live (mr : nat) (s : State) : Prop :=
  NoDup (obj_keys (default [] (maps s !! mr))) /\
  forall k, k ∈ obj_keys (default [] (maps s !! mr)) -> live_entry mr k s.

(** What destroying morphs keeps. *)
Definition quiet (s s' : State) : Prop :=
  canvas s' = canvas s /\ canvasMorphs s' = canvasMorphs s /\
  currentMorphs s' = currentMorphs s /\ stackLen s' = stackLen s /\
  morphs s' = morphs s /\ document s' = document s /\ dirty s' = dirty s /\
  length (buffers s') = length (buffers s) /\
  forall b, dead b s -> dead b s'.


(** The message of the error raised for a resource that is not there. *)
Definition not_found (handle : Handle) : exn :=
  Fatal None ("morph not found: '" ++ h_resource handle ++ "'").

End Morph.

(** ** The camera node *)

Module Camera.
Import JS.
Local Open Scope js_scope.

(** The value of a property of an optics object: a number, or the type tag. *)
Inductive prim := PNum (q : Q) | PStr (s : string).

(** The objects the node creates and hands out: optics records and matrices
    (arrays of numbers).  They are referred to by their index in [heap], and
    a new object takes the next index. *)
Inductive cell := CObj (props : obj prim) | CArr (elems : list Q).

(** The [optics] argument of [setOptics]: each property is present or not. *)
Record OpticsParam := {
  o_type : option string;
  o_left : option Q; o_right : option Q;
  o_bottom : option Q; o_top : option Q;
  o_near : option Q; o_far : option Q;
  o_fovy : option Q; o_aspect : option Q
}.

(** [this._transform]: [{ type, optics : {...}, matrix }]; the matrix is an
    array object. *)
Record Transform := { t_type : string; t_optics : obj prim; t_matrix : nat }.

(** A call of one of the matrix constructors, with its arguments (numbers or
    [undefined]). *)
Inductive math_call :=
| OrthoMat4c (left right bottom top near far : option Q)
| FrustumMatrix4 (left right bottom top near far : option Q)
| PerspectiveMatrix4 (fovy aspect near far : option Q).

(** Calls made to [SceneJS_projectionModule]. *)
Inductive projection_call :=
| PushTransform (id : string) (t : option Transform)
| PopTransform.

(** The node ([attr_id], [attr_optics], [_transform], [_compileMemoLevel]),
    the objects, and the calls made to the math library and to the projection
    module, oldest first. *)
Record State := {
  attr_id : string;
  attr_optics : option nat;
  _transform : option Transform;
  _compileMemoLevel : nat;
  heap : list cell;
  math_calls : list math_call;
  projection_calls : list projection_call
}.

Definition set_attr_optics (v : option nat) (s : State) : State :=
  {| attr_id := attr_id s; attr_optics := v; _transform := _transform s;
     _compileMemoLevel := _compileMemoLevel s; heap := heap s;
     math_calls := math_calls s; projection_calls := projection_calls s |}.

Definition set_transform (v : option Transform) (s : State) : State :=
  {| attr_id := attr_id s; attr_optics := attr_optics s; _transform := v;
     _compileMemoLevel := _compileMemoLevel s; heap := heap s;
     math_calls := math_calls s; projection_calls := projection_calls s |}.

Definition set_compileMemoLevel (v : nat) (s : State) : State :=
  {| attr_id := attr_id s; attr_optics := attr_optics s; _transform := _transform s;
     _compileMemoLevel := v; heap := heap s;
     math_calls := math_calls s; projection_calls := projection_calls s |}.

Definition set_heap (v : list cell) (s : State) : State :=
  {| attr_id := attr_id s; attr_optics := attr_optics s; _transform := _transform s;
     _compileMemoLevel := _compileMemoLevel s; heap := v;
     math_calls := math_calls s; projection_calls := projection_calls s |}.

Definition set_math_calls (v : list math_call) (s : State) : State :=
  {| attr_id := attr_id s; attr_optics := attr_optics s; _transform := _transform s;
     _compileMemoLevel := _compileMemoLevel s; heap := heap s;
     math_calls := v; projection_calls := projection_calls s |}.

Definition set_projection_calls (v : list projection_call) (s : State) : State :=
  {| attr_id := attr_id s; attr_optics := attr_optics s; _transform := _transform s;
     _compileMemoLevel := _compileMemoLevel s; heap := heap s;
     math_calls := math_calls s; projection_calls := v |}.

Abbreviation M := (JS.M State).

(** A new object: it is stored at the next index, which is returned. *)
Definition alloc (c : cell) : M nat :=
  fun s => (Ok (length (heap s)), set_heap (heap s ++ [c]) s).

(** [x || d] for a property that is a number or absent: absent and zero are
    falsy. *)
Definition or_num (x : option Q) (d : Q) : Q :=
  match x with
  | Some q => if Qeq_bool q 0%Q then d else q
  | None => d
  end.

(** [o.k] read as a number ([None] for [undefined] or a string). *)
Definition num_prop (k : string) (o : obj prim) : option Q :=
  match obj_get k o with
  | Some (PNum q) => Some q
  | _ => None
  end.

(** [o.type == t] *)
Definition type_is (t : string) (o : obj prim) : bool :=
  match obj_get "type" o with
  | Some (PStr s) => String.eqb s t
  | _ => false
  end.

(** The six properties copied into [_transform.optics] for "ortho" and
    "frustum", and the four for "perspective"; a property read as
    [undefined] is written as such, i.e. left out of the record here. *)
Definition copy_props (ks : list string) (o : obj prim) : obj prim :=
  omap (fun k => match obj_get k o with Some v => Some (k, v) | None => None end) ks.

Section Node.

(** The matrix constructors and [Math.PI] come from outside these sources:
    each constructor returns the elements of a new array. *)
Variable SceneJS_math_orthoMat4c : option Q -> option Q -> option Q -> option Q -> option Q -> option Q -> list Q.
Variable SceneJS_math_frustumMatrix4 : option Q -> option Q -> option Q -> option Q -> option Q -> option Q -> list Q.
Variable SceneJS_math_perspectiveMatrix4 : option Q -> option Q -> option Q -> option Q -> list Q.
Variable Math_PI : Q.

Definition run_math (c : math_call) : list Q :=
  match c with
  | OrthoMat4c l r b t n f => SceneJS_math_orthoMat4c l r b t n f
  | FrustumMatrix4 l r b t n f => SceneJS_math_frustumMatrix4 l r b t n f
  | PerspectiveMatrix4 fv a n f => SceneJS_math_perspectiveMatrix4 fv a n f
  end.

(** A call of a matrix constructor: it is recorded, and its result is a
    new array. *)
Definition call_math (c : math_call) : M nat :=
  modify (fun s => set_math_calls (math_calls s ++ [c]) s) ;;;
  alloc (CArr (run_math c)).

(** Modelled from the spec: [_resetCompilationMemos], a method of the node
    base class that is not in these sources; "any configuration-mutating
    setter resets memo level to 0". *)
Definition _resetCompilationMemos : M unit :=
  modify (set_compileMemoLevel 0).

(** [optics.type == t] for the argument of [setOptics]. *)
Definition param_type_is (t : string) (o : OpticsParam) : bool :=
  match o_type o with
  | Some s => String.eqb s t
  | None => false
  end.

(** The object literals of [setOptics]; [type: optics.type] is the tag just
    compared with. *)
Definition box_optics (type : string) (o : OpticsParam) : obj prim :=
  [("type", PStr type);
   ("left", PNum (or_num (o_left o) (-1)));
   ("bottom", PNum (or_num (o_bottom o) (-1)));
   ("near", PNum (or_num (o_near o) (1 # 10)));
   ("right", PNum (or_num (o_right o) 1));
   ("top", PNum (or_num (o_top o) 1));
   ("far", PNum (or_num (o_far o) 5000))].

Definition perspective_optics (type : string) (o : OpticsParam) : obj prim :=
  [("type", PStr type);
   ("fovy", PNum (or_num (o_fovy o) 60));
   ("aspect", PNum (or_num (o_aspect o) 1));
   ("near", PNum (or_num (o_near o) (1 # 10)));
   ("far", PNum (or_num (o_far o) 5000))].

Definition default_optics : obj prim :=
  [("type", PStr "perspective"); ("fovy", PNum 60); ("aspect", PNum 1);
   ("near", PNum (1 # 10)); ("far", PNum 5000)].

(** [this.attr.optics = {...}] *)
Definition assign_optics (props : obj prim) : M unit :=
  r <- alloc (CObj props) ;;
  modify (set_attr_optics (Some r)).

(** [Camera.prototype.setOptics]; [None] is a missing ([undefined])
    argument. *)
Definition setOptics (optics : option OpticsParam) : M unit :=
  match optics with
  | None => assign_optics default_optics
  | Some o =>
      if param_type_is "ortho" o then assign_optics (box_optics "ortho" o)
      else if param_type_is "frustum" o then assign_optics (box_optics "frustum" o)
      else if param_type_is "perspective" o then
        assign_optics (perspective_optics "perspective" o)
      else
        match truthy (o_type o) with
        | None =>
            throw (Fatal (Some ILLEGAL_NODE_CONFIG)
              "Camera configuration invalid: optics type not specified - supported types are 'perspective', 'frustum' and 'ortho'")
        | Some _ =>
            throw (Fatal (Some ILLEGAL_NODE_CONFIG)
              "Camera configuration invalid: optics type not supported - supported types are 'perspective', 'frustum' and 'ortho'")
        end
  end ;;;
  _resetCompilationMemos.

(** [Camera.prototype._init] *)
Definition _init (params_optics : option OpticsParam) : M unit :=
  setOptics params_optics.

(** The object [this.attr.optics] refers to, if any. *)
Definition optics_of (s : State) : option (obj prim) :=
  match attr_optics s ≫= (fun r => heap s !! r) with
  | Some (CObj props) => Some props
  | _ => None
  end.

(** The loop of [getOptics]: [optics], empty at first, receives every own
    property of [src], each read when its turn comes. *)
Definition copy_own (src : obj prim) : obj prim :=
  fold_left (fun optics key =>
               match obj_get key src with
               | Some v => obj_set key v optics
               | None => optics
               end)
            (obj_keys src) [].

(** [Camera.prototype.getOptics]; [for ... in] over [undefined] visits
    nothing. *)
Definition getOptics : M nat :=
  s <- get ;;
  alloc (CObj (copy_own (default [] (optics_of s)))).

(** [Camera.prototype._rebuild] *)
Definition _rebuild : M unit :=
  s <- get ;;
  if (_compileMemoLevel s =? 0)%nat then
    match optics_of s with
    | None => throw TypeError                         (* [optics.type] of undefined *)
    | Some optics =>
        (if type_is "ortho" optics then
           m <- call_math (OrthoMat4c (num_prop "left" optics) (num_prop "right" optics)
                             (num_prop "bottom" optics) (num_prop "top" optics)
                             (num_prop "near" optics) (num_prop "far" optics)) ;;
           modify (set_transform (Some
             {| t_type := "ortho";
                t_optics := copy_props ["left"; "right"; "bottom"; "top"; "near"; "far"] optics;
                t_matrix := m |}))
         else if type_is "frustum" optics then
           m <- call_math (FrustumMatrix4 (num_prop "left" optics) (num_prop "right" optics)
                             (num_prop "bottom" optics) (num_prop "top" optics)
                             (num_prop "near" optics) (num_prop "far" optics)) ;;
           modify (set_transform (Some
             {| t_type := "frustum";
                t_optics := copy_props ["left"; "right"; "bottom"; "top"; "near"; "far"] optics;
                t_matrix := m |}))
         else if type_is "perspective" optics then
           m <- call_math (PerspectiveMatrix4
                             (option_map (fun fovy => fovy * Math_PI / 180)%Q
                                         (num_prop "fovy" optics))
                             (num_prop "aspect" optics)
                             (num_prop "near" optics) (num_prop "far" optics)) ;;
           modify (set_transform (Some
             {| t_type := "perspective";
                t_optics := copy_props ["fovy"; "aspect"; "near"; "far"] optics;
                t_matrix := m |}))
         else ret tt) ;;;
        modify (set_compileMemoLevel 1)
    end
  else ret tt.

(** [Camera.prototype.getMatrix]: [slice(0)] makes a new array with the
    same elements. *)
Definition getMatrix : M nat :=
  s <- get ;;
  (if (_compileMemoLevel s =? 0)%nat then _rebuild else ret tt) ;;;
  s <- get ;;
  match _transform s with
  | None => throw TypeError                           (* [this._transform.matrix] *)
  | Some t =>
      match heap s !! t_matrix t with
      | Some (CArr elems) => alloc (CArr elems)
      | _ => throw TypeError
      end
  end.

(** [Camera.prototype._preCompile] *)
Definition _preCompile : M unit :=
  s <- get ;;
  (if (_compileMemoLevel s =? 0)%nat then _rebuild else ret tt) ;;;
  modify (fun s => set_projection_calls
                     (projection_calls s ++ [PushTransform (attr_id s) (_transform s)]) s).

(** [Camera.prototype._postCompile] *)
Definition _postCompile : M unit :=
  modify (fun s => set_projection_calls (projection_calls s ++ [PopTransform]) s).

(** The state a recomputation leaves: one constructor call recorded, its
    result a new array, the transform replaced, the memo level 1. *)
Definition rebuilt (c : math_call) (t : Transform) (s : State) : State :=
  set_compileMemoLevel 1
    (set_transform (Some t)
       (set_heap (heap s ++ [CArr (run_math c)])
          (set_math_calls (math_calls s ++ [c]) s))).

End Node.

(** A node as the base class hands it to [_init]: no optics, no transform
    yet, and whatever memo level [level]. *)
Definition blank (id : string) (level : nat) : State :=
  {| attr_id := id; attr_optics := None; _transform := None;
     _compileMemoLevel := level; heap := []; math_calls := [];
     projection_calls := [] |}.

(** What a caller holding the reference [r] can do to the object it names:
    put any other content there. *)
Definition mutate (r : nat) (c : cell) (s : State) : State :=
  set_heap (<[r := c]> (heap s)) s.

(** The node as it can be observed: the content of its optics object, its
    transform with the content of the matrix, and the memo level. *)
Definition matrix_of (s : State) : option cell :=
  _transform s ≫= (fun t => heap s !! t_matrix t).

Definition view (s : State)
  : option cell * option Transform * option cell * nat :=
  (attr_optics s ≫= (fun r => heap s !! r), _transform s, matrix_of s,
   _compileMemoLevel s).

(** A sequence of such changes. *)
Definition mutations (r : nat) (cs : list cell) (s : State) : State :=
  fold_left (fun s c => mutate r c s) cs s.

(** An optics object whose tag is one of the three that [_rebuild] knows. *)
Definition valid_type (props : obj prim) : Prop :=
  type_is "ortho" props = true \/ type_is "frustum" props = true \/
  type_is "perspective" props = true.

(** The node's references name objects that exist. *)
Definition refs_ok (s : State) : Prop :=
  (forall r, attr_optics s = Some r -> (r < length (heap s))%nat) /\
  (forall t, _transform s = Some t -> (t_matrix t < length (heap s))%nat).

(** The optics argument names one of the three types the node knows. *)
Definition supported (o : OpticsParam) : Prop :=
  o_type o = Some "ortho" \/ o_type o = Some "frustum" \/ o_type o = Some "perspective".

(** The value [v] read back for a bound given as [x] with default [d]: a
    number other than zero is read back as given; zero and a missing bound are
    read back as the default. *)
Definition kept (x : option Q) (d : Q) (v : option Q) : Prop :=
  (forall q, x = Some q -> ~ (q == 0)%Q -> v = Some q) /\
  (forall q, x = Some q -> (q == 0)%Q -> v = Some d) /\
  (x = None -> v = Some d).

Section Compile.

Variable SceneJS_math_orthoMat4c : option Q -> option Q -> option Q -> option Q -> option Q -> option Q -> list Q.
Variable SceneJS_math_frustumMatrix4 : option Q -> option Q -> option Q -> option Q -> option Q -> option Q -> list Q.
Variable SceneJS_math_perspectiveMatrix4 : option Q -> option Q -> option Q -> option Q -> list Q.
Variable Math_PI : Q.

(** Modelled from the spec: [_compileNodes], the "generic tree-compile
    recursion" of the node base class, not in these sources; it compiles
    the node's children. *)
Variable _compileNodes : M unit.

(** [Camera.prototype._compile] *)
Definition _compile : M unit :=
  _preCompile SceneJS_math_orthoMat4c SceneJS_math_frustumMatrix4
              SceneJS_math_perspectiveMatrix4 Math_PI ;;;
  _compileNodes ;;;
  _postCompile.

End Compile.

End Camera.

(** * Properties *)

(** ** Lists *)

Module ListFacts.

Lemma filter_none {A} (P : A -> Prop) `{!forall x, Decision (P x)} (l : list A) :
  (forall y, y ∈ l -> ~ P y) -> filter P l = [].
Proof.
  induction l as [|x l IH]; intros Hno; [done|].
  rewrite filter_cons_False; [|apply Hno; left].
  apply IH. intros y Hy. apply Hno. by right.
Qed.

Lemma filter_ext_in {A} (P Q : A -> Prop) `{!forall x, Decision (P x)}
    `{!forall x, Decision (Q x)} (l : list A) :
  (forall y, y ∈ l -> (P y <-> Q y)) -> filter P l = filter Q l.
Proof.
  induction l as [|x l IH]; intros Hpq; [done|].
  rewrite !filter_cons. rewrite IH by (intros y Hy; apply Hpq; by right).
  destruct (decide (P x)) as [Hp|Hp], (decide (Q x)) as [Hq|Hq]; try done.
  - exfalso. apply Hq, (Hpq x); [left|done].
  - exfalso. apply Hp, (Hpq x); [left|done].
Qed.

End ListFacts.

(** ** Objects used as maps *)

Module ObjFacts.
Import JS.

Lemma obj_get_set_eq {V} k (v : V) o : obj_get k (obj_set k v o) = Some v.
Proof.
  induction o as [|[k' v'] o IH]; simpl.
  - by rewrite String.eqb_refl.
  - destruct (String.eqb k k') eqn:Hk; simpl; rewrite ?String.eqb_refl, ?Hk; done.
Qed.

Lemma obj_get_set_ne {V} k k' (v : V) o :
  k ≠ k' -> obj_get k' (obj_set k v o) = obj_get k' o.
Proof.
  intros Hne. induction o as [|[k0 v0] o IH]; simpl.
  - destruct (String.eqb_spec k' k); [congruence|done].
  - destruct (String.eqb_spec k k0) as [->|Hk]; simpl.
    + destruct (String.eqb_spec k' k0); [congruence|done].
    + destruct (String.eqb_spec k' k0); [done|apply IH].
Qed.

Lemma obj_keys_set_mono {V} k k' (v : V) o :
  k' ∈ obj_keys o -> k' ∈ obj_keys (obj_set k v o).
Proof.
  unfold obj_keys. induction o as [|[k0 v0] o IH]; simpl; [by intros ?%elem_of_nil|].
  intros [->|Hin]%elem_of_cons.
  - destruct (String.eqb_spec k k0) as [->|]; simpl; left.
  - destruct (String.eqb_spec k k0) as [->|]; simpl; right; [done|by apply IH].
Qed.

Lemma obj_get_keys {V} k (v : V) o : obj_get k o = Some v -> k ∈ obj_keys o.
Proof.
  unfold obj_keys. induction o as [|[k' v'] o IH]; simpl; [done|].
  destruct (String.eqb_spec k k') as [->|]; [left|right; by apply IH].
Qed.

Lemma obj_get_elem {V} k (v : V) o : obj_get k o = Some v -> (k, v) ∈ o.
Proof.
  induction o as [|[k' v'] o IH]; simpl; [done|].
  destruct (String.eqb_spec k k') as [->|].
  - intros [= ->]. left.
  - intros. right. by apply IH.
Qed.

Lemma obj_keys_get {V} k (o : obj V) : k ∈ obj_keys o -> is_Some (obj_get k o).
Proof.
  unfold obj_keys. induction o as [|[k' v'] o IH]; simpl; [by intros ?%elem_of_nil|].
  destruct (String.eqb_spec k k') as [->|Hne]; [by eexists|].
  intros [?|Hin]%elem_of_cons; [done|by apply IH].
Qed.

End ObjFacts.

(** ** The event module *)

Module EventsFacts.
Import Events ListFacts.


Lemma splice_in_perm h l : splice_in h l ≡ₚ l ++ [h].
Proof.
  induction l as [|x l IH]; simpl; [done|].
  destruct (priority x >? priority h).
  - by rewrite (Permutation_app_comm (x :: l) [h]).
  - by rewrite IH.
Qed.


Lemma splice_in_behind g pre post :
  Forall (fun x => priority x <= priority g) pre ->
  splice_in g (pre ++ post) = pre ++ splice_in g post.
Proof.
  induction 1 as [|x pre Hx _ IH]; simpl; [done|].
  destruct (Z.gtb_spec (priority x) (priority g)); [lia|]. by rewrite IH.
Qed.

Lemma elem_of_splice_in g l : g ∈ splice_in g l.
Proof. rewrite splice_in_perm. apply elem_of_app. right. left. Qed.

Lemma queue_addListener type c p ev :
  queue type (addListener type c p ev)
  = splice_in (mk_handler (queue type ev) c p) (queue type ev).
Proof. unfold addListener, queue. by rewrite lookup_insert_eq. Qed.

Lemma queue_addListener_ne t type c p ev :
  t ≠ type -> queue type (addListener t c p ev) = queue type ev.
Proof. intros. unfold addListener, queue. by rewrite lookup_insert_ne. Qed.


Section Dispatch.

Variable body : nat -> list registration.

Lemma register_all_inert type rs : forall ev,
  Forall (fun r => reg_type r ≠ type) rs ->
  queue type (fold_left register rs ev) = queue type ev.
Proof.
  induction rs as [|r rs IH]; intros ev Hrs; simpl; [done|].
  inversion Hrs; subst. rewrite IH by done.
  unfold register. by apply queue_addListener_ne.
Qed.

Lemma run_command_inert type c st :
  inert body type c ->
  queue type (fst (run_command body c st)) = queue type (fst st).
Proof. intros. unfold run_command; simpl. by apply register_all_inert. Qed.

(** When the listeners from position [i] on register nothing for the type,
    the loop calls exactly them, in the order of the queue, and stops. *)
Lemma dispatch_inert type l : forall n i st,
  queue type (fst st) = l ->
  Forall (fun h => inert body type (command h)) (drop i l) ->
  (length l - i < n)%nat ->
  exists ev',
    dispatch body n type i st = Some (ev', snd st ++ map command (drop i l)) /\
    queue type ev' = l.
Proof.
  induction n as [|n IH]; intros i st Hq Hin Hn; [lia|]. simpl.
  rewrite Hq. destruct (l !! i) as [h|] eqn:Hi.
  - rewrite (drop_S l h i Hi) in *. inversion Hin as [|? ? Hh Hrest]; subst.
    destruct (IH (S i) (run_command body (command h) st)) as (ev' & Hd & Hq').
    + by rewrite run_command_inert.
    + done.
    + apply lookup_lt_Some in Hi. lia.
    + exists ev'. split; [|done]. rewrite Hd. simpl.
      by rewrite <- app_assoc.
  - apply lookup_ge_None in Hi. rewrite drop_ge by done. simpl.
    rewrite app_nil_r. exists (fst st). by destruct st.
Qed.

Lemma dispatch_step type n i st h :
  queue type (fst st) !! i = Some h ->
  dispatch body (S n) type i st
  = dispatch body n type (S i) (run_command body (command h) st).
Proof. intros Hi. simpl. by rewrite Hi. Qed.

(** Walking over [k] listeners that register nothing for the type. *)
Lemma dispatch_prefix type l : forall k i st n,
  queue type (fst st) = l ->
  Forall (fun h => inert body type (command h)) (take k (drop i l)) ->
  (i + k <= length l)%nat ->
  exists ev1,
    dispatch body (k + n) type i st
    = dispatch body n type (i + k) (ev1, snd st ++ map command (take k (drop i l))) /\
    queue type ev1 = l.
Proof.
  induction k as [|k IH]; intros i st n Hq Hin Hk.
  - exists (fst st). rewrite Nat.add_0_r. simpl. rewrite app_nil_r.
    by destruct st.
  - destruct (l !! i) as [h|] eqn:Hi;
      [|apply lookup_ge_None in Hi; lia].
    rewrite (drop_S l h i Hi) in *. simpl in Hin.
    apply Forall_cons in Hin as [Hh Hrest].
    destruct (IH (S i) (run_command body (command h) st) n) as (ev1 & Hd & Hq1).
    + by rewrite run_command_inert.
    + done.
    + lia.
    + exists ev1. split; [|done]. simpl. rewrite Hq, Hi, Hd.
      replace (S i + k)%nat with (i + S k)%nat by lia.
      simpl. by rewrite <- app_assoc.
Qed.

Lemma fireEvent_inert type ev :
  Forall (fun h => inert body type (command h)) (queue type ev) ->
  exists ev',
    fireEvent body (S (length (queue type ev))) type (ev, [])
    = Some (ev', map command (queue type ev)) /\
    queue type ev' = queue type ev.
Proof.
  intros Hin. unfold fireEvent. simpl fst.
  destruct (ev !! type) as [l|] eqn:Hl.
  - destruct (dispatch_inert type (queue type ev) (S (length (queue type ev))) 0 (ev, []))
      as (ev' & Hd & Hq); [done|done|lia|].
    exists ev'. by rewrite Hd.
  - exists ev. unfold queue. by rewrite Hl.
Qed.

End Dispatch.



(** C5, as stated, fails: command 0 is the only listener of type 5 when the
    dispatch starts; it registers command 1 for the same type (no priority
    given), and command 1 is called in that same dispatch. *)
Lemma fireEvent_calls_listener_added_mid_dispatch :
  let body := fun c => match c with O => [Reg 5 1 None] | _ => [] end in
  let ev := addListener 5 0 None ∅ in
  map command (queue 5 ev) = [0%nat] /\
  snd <$> fireEvent body 3 5 (ev, []) = Some [0%nat; 1%nat].
Proof. split; reflexivity. Qed.

(** C5, amended.  [fireEvent] walks the live queue and reads its length at
    every step.  Let the queue be [pre ++ h :: post], where the command of [h]
    registers one listener [c] for the type being dispatched, every other
    command involved registers none for it, and the priority of the new handler
    is not below those of [h] and of the handlers before it.  Then the new
    handler lands behind [h], and [c] is called within the same dispatch: the
    commands called are those of [pre], of [h], and of [post] with the new
    handler spliced in. *)
Theorem fireEvent_calls_listener_added_behind (body : nat -> list registration)
    (type : nat) (ev : events) (pre post : list handler) (h : handler)
    (c : nat) (p : option Z) :
  ev !! type = Some (pre ++ h :: post) ->
  Forall (fun x => inert body type (command x)) (pre ++ post) ->
  inert body type c ->
  body (command h) = [Reg type c p] ->
  let g := mk_handler (pre ++ h :: post) c p in
  Forall (fun x => priority x <= priority g) (pre ++ [h]) ->
  exists ev',
    fireEvent body (S (S (length (pre ++ h :: post)))) type (ev, [])
    = Some (ev', map command pre ++ command h :: map command (splice_in g post)) /\
    c ∈ map command (splice_in g post).
Proof.
  intros Hev Hin Hc Hbody g Hg.
  apply Forall_app in Hin as [Hpre Hpost].
  assert (Hq : queue type ev = pre ++ h :: post) by (unfold queue; by rewrite Hev).
  unfold fireEvent. simpl fst. rewrite Hev.
  (* the listeners before [h] *)
  destruct (dispatch_prefix body type (pre ++ h :: post) (length pre) 0 (ev, [])
              (S (S (S (length post))))) as (ev1 & Hwalk & Hq1).
  { done. }
  { by rewrite drop_0, take_app_length. }
  { rewrite length_app. simpl. lia. }
  replace (S (S (length (pre ++ h :: post))))
    with (length pre + S (S (S (length post))))%nat by (rewrite length_app; simpl; lia).
  rewrite Hwalk. rewrite drop_0, take_app_length. simpl app. simpl Nat.add.
  (* [h] itself: its command registers [c] *)
  rewrite (dispatch_step body type _ _ _ h)
    by (simpl; rewrite Hq1; by apply list_lookup_middle).
  set (st2 := run_command body (command h) (ev1, map command pre)).
  assert (Hq2 : queue type (fst st2) = pre ++ h :: splice_in g post).
  { unfold st2, run_command. simpl. rewrite Hbody. simpl. unfold register. simpl.
    rewrite queue_addListener, Hq1. fold g.
    rewrite (app_assoc pre [h] post : pre ++ h :: post = (pre ++ [h]) ++ post) at 1.
    rewrite splice_in_behind by done. by rewrite <- app_assoc. }
  (* the listeners behind [h], the new one among them *)
  assert (Hdrop : drop (S (length pre)) (pre ++ h :: splice_in g post) = splice_in g post).
  { rewrite (app_assoc pre [h] _ : pre ++ h :: splice_in g post = (pre ++ [h]) ++ _).
    rewrite drop_app_length'; [done|]. rewrite length_app. simpl. lia. }
  destruct (dispatch_inert body type (pre ++ h :: splice_in g post)
              (S (length post + 1)) (S (length pre)) st2) as (ev' & Hd & _).
  { done. }
  { rewrite Hdrop. rewrite splice_in_perm. apply Forall_app. split; [done|].
    by repeat constructor. }
  { rewrite length_app. simpl.
    assert (length (splice_in g post) = length post + 1)%nat
      by (rewrite splice_in_perm, length_app; simpl; lia).
    lia. }
  exists ev'. split.
  - replace (S (S (length post))) with (S (length post + 1))%nat by lia.
    rewrite Hd, Hdrop. unfold st2, run_command. simpl.
    by rewrite <- app_assoc.
  - apply list_elem_of_fmap. exists g. split; [done|]. apply elem_of_splice_in.
Qed.

(** The queue [[a@0; h@1; b@7]], where the command of [h] registers command 9
    with priority 3: the commands called are those of [a], [h], the new
    listener and [b]. *)
Lemma fireEvent_calls_listener_added_behind_witness :
  exists ev',
    fireEvent (fun c => match c with 1%nat => [Reg 4 9 (Some 3)] | _ => [] end) 5 4
      ({[ 4%nat := [Handler 0 0; Handler 1 1; Handler 2 7] ]}, [])
    = Some (ev', [0%nat; 1%nat; 9%nat; 2%nat]).
Proof.
  destruct (fireEvent_calls_listener_added_behind
              (fun c => match c with 1%nat => [Reg 4 9 (Some 3)] | _ => [] end) 4
              {[ 4%nat := [Handler 0 0; Handler 1 1; Handler 2 7] ]}
              [Handler 0 0] [Handler 2 7] (Handler 1 1) 9 (Some 3))
    as (ev' & Hf & _).
  - reflexivity.
  - repeat constructor.
  - constructor.
  - reflexivity.
  - simpl. repeat constructor; simpl; lia.
  - exists ev'. exact Hf.
Defined.

End EventsFacts.

(** ** The morph-geometry module *)

Module MorphFacts.
Import JS Morph ListFacts ObjFacts.
Local Open Scope js_scope.

(** *** Frame selection *)











(** The other half of that scenario: the factor 1.5 is clamped to 1; the pair
    is (1, 2) and the normalized factor is 1. *)
Example find_frame_clamped :
  find_frame [0; 1 # 2; 1]%Q 3 (Some (3 # 2)) = (Some 1%Q, Some 1, Some 2) /\
  exists q, normalize [0; 1 # 2; 1]%Q (Some 1%Q, Some 1, Some 2) = Num q /\ (q == 1)%Q.
Proof. split; [reflexivity|]. eexists. split; [reflexivity|]. reflexivity. Qed.

(** The listener hands the frame of [find_frame] and the quotient of
    [normalize], computed for the morph on top of the stack, to [setMorph];
    it does so only when the dirty flag is set, and clears the flag. *)
Lemma SCENE_RENDERING_blend s r morph :
  dirty s = true -> 0 < stackLen s ->
  morphStack s !! (stackLen s - 1) = Some r ->
  morphs s !! r = Some morph ->
  SCENE_RENDERING s
  = (Ok tt, set_dirty false
              (set_rendered (rendered s ++ [blend (idStack s !! (stackLen s - 1)) morph]) s)).
Proof.
  intros Hd Hlen Htop Hm. unfold SCENE_RENDERING, bind, get. simpl.
  rewrite Hd. destruct (Z.ltb_spec 0 (stackLen s)); [|lia].
  rewrite Htop. simpl. by rewrite Hm.
Qed.

Lemma SCENE_RENDERING_clean s : dirty s = false -> SCENE_RENDERING s = (Ok tt, s).
Proof. intros Hd. unfold SCENE_RENDERING, bind, get. simpl. by rewrite Hd. Qed.

(** *** Allocation and release of buffers *)

Lemma set_buffers_same s : set_buffers (buffers s) s = s.
Proof. by destruct s. Qed.

Lemma set_buffers_twice v w s : set_buffers v (set_buffers w s) = set_buffers v s.
Proof. done. Qed.

Lemma kill_all_app r1 r2 bs : kill_all (r1 ++ r2) bs = kill_all r2 (kill_all r1 bs).
Proof. unfold kill_all. by rewrite fold_left_app. Qed.

(** Destroying the buffers made last, all of them, leaves the older ones as
    they were. *)
Lemma kill_all_new new : forall old,
  kill_all (seq (length old) (length new)) (old ++ new) = old ++ map kill new.
Proof.
  induction new as [|b new IH]; intros old; simpl.
  - done.
  - unfold kill_all in *. simpl.
    replace (alter kill (length old) (old ++ b :: new))
      with ((old ++ [kill b]) ++ new).
    + specialize (IH (old ++ [kill b])). rewrite length_app in IH. simpl in IH.
      replace (length old + 1)%nat with (S (length old)) in IH by lia.
      rewrite IH. by rewrite <- app_assoc.
    + rewrite <- app_assoc. simpl.
      by rewrite (alter_app_r_alt kill old (b :: new) (length old)), Nat.sub_diag.
Qed.

Lemma destroy_target_kills t s :
  destroy_target t s = (Ok tt, set_buffers (kill_all (refs_of t) (buffers s)) s).
Proof.
  destruct t as [[?|] [?|] [?|] [?|]], s; reflexivity.
Qed.

Lemma release_targets_kills ts : forall s,
  for_each ts destroy_target s
  = (Ok tt, set_buffers (kill_all (all_refs ts) (buffers s)) s).
Proof.
  induction ts as [|t ts IH]; intros s; simpl.
  - unfold ret. by rewrite set_buffers_same.
  - unfold bind. rewrite destroy_target_kills, IH. simpl.
    unfold all_refs. simpl. by rewrite kill_all_app.
Qed.

(** Buffers that are created and destroyed do not show among the live ones. *)
Lemma live_app_dead bs dead :
  Forall (fun b => buf_alive b = false) dead -> live (bs ++ dead) = live bs.
Proof.
  intros Hdead. unfold live. rewrite length_app, seq_app, filter_app. simpl.
  rewrite (filter_none _ (seq (length bs) (length dead))).
  - rewrite app_nil_r. apply filter_ext_in. intros i Hi.
    apply elem_of_seq in Hi. by rewrite lookup_app_l by lia.
  - intros i Hi Hlive. apply elem_of_seq in Hi. apply bool_decide_unpack in Hlive.
    rewrite lookup_app_r in Hlive by lia.
    destruct (dead !! (i - length bs)%nat) as [b|] eqn:Hb; [|done].
    rewrite Forall_forall in Hdead. specialize (Hdead b (list_elem_of_lookup_2 _ _ _ Hb)).
    simpl in Hlive. congruence.
Qed.

Section Creation.

Variable alloc_throws : list Buffer -> list Q -> bool.
Variable _createKeyForMap : option (obj (option nat)) -> string -> string.

(** Whether or not it throws, the loop body for one target only adds
    buffers, all alive, and [newTarget] refers to exactly these. *)
Lemma alloc_target_spec ctx t s nt thrown s1 :
  alloc_target alloc_throws ctx t s = ((nt, thrown), s1) ->
  exists new,
    s1 = set_buffers (buffers s ++ new) s /\
    Forall (fun b => buf_alive b = true) new /\
    refs_of nt = seq (length (buffers s)) (length new).
Proof.
  intros H. destruct s as [cv cm cur ids ms sl d mp mo bs doc rd].
  destruct t as [[[|? ?]|] [[|? ?]|] [[|? ?]|] [[|? ?]|]];
    unfold alloc_target, and_then, alloc_field, new_ArrayBuffer in H; simpl in H;
    repeat match type of H with
           | context [alloc_throws ?a ?b] => destruct (alloc_throws a b) eqn:?; simpl in H
           end;
    injection H as <- <- <-;
    rewrite <- ?app_assoc; simpl;
    first [ exists []; split; [unfold set_buffers; simpl; by rewrite app_nil_r|]
          | eexists; split; [reflexivity|] ];
    (split; [repeat constructor|]);
    unfold refs_of; simpl; rewrite ?length_app; simpl;
    repeat (f_equal; try lia).
Qed.

Lemma all_refs_snoc acc nt : all_refs (acc ++ [nt]) = all_refs acc ++ refs_of nt.
Proof. unfold all_refs. rewrite map_app, concat_app. simpl. by rewrite app_nil_r. Qed.

(** The same for the whole loop: when it ends, normally or not,
    [morph.targets] refers to exactly the buffers made since it began. *)
Lemma alloc_targets_spec ctx ts : forall acc s targets thrown s1,
  alloc_targets alloc_throws ctx ts acc s = ((targets, thrown), s1) ->
  exists new,
    s1 = set_buffers (buffers s ++ new) s /\
    Forall (fun b => buf_alive b = true) new /\
    all_refs targets = all_refs acc ++ seq (length (buffers s)) (length new).
Proof.
  induction ts as [|t ts IH]; intros acc s targets thrown s1 H; simpl in H.
  - injection H as <- <- <-. exists []. simpl.
    by rewrite !app_nil_r, set_buffers_same.
  - destruct (alloc_target alloc_throws ctx t s) as [[nt [e|]] s'] eqn:Ht;
      destruct (alloc_target_spec _ _ _ _ _ _ Ht) as (new1 & -> & Hal1 & Hr1).
    + injection H as <- <- <-. exists new1. by rewrite all_refs_snoc, Hr1.
    + destruct (IH _ _ _ _ _ H) as (new2 & -> & Hal2 & Hr2). simpl in *.
      exists (new1 ++ new2). rewrite set_buffers_twice, app_assoc.
      split; [done|]. split; [by apply Forall_app|].
      rewrite Hr2, all_refs_snoc, Hr1, <- app_assoc, !length_app.
      by rewrite seq_app.
Qed.

Lemma Forall_dead new : Forall (fun b => buf_alive b = false) (map kill new).
Proof. apply Forall_forall. intros b Hb. apply list_elem_of_fmap in Hb as (? & -> & _). done. Qed.



End Creation.


(** *** Destroying morphs *)

Lemma destroyMorph_Some r m s :
  morphs s !! r = Some m ->
  destroyMorph (Some r) s = (Ok tt, nulled m (released m s)).
Proof.
  intros Hm. unfold destroyMorph, bind, get. simpl. rewrite Hm. simpl.
  unfold nulled, released.
  destruct (getElementById (canvasId (m_canvas m)) (document s)).
  - rewrite release_targets_kills. simpl.
    by destruct (obj_get (canvasId (m_canvas m)) (canvasMorphs s)).
  - simpl. by destruct (obj_get (canvasId (m_canvas m)) (canvasMorphs s)).
Qed.

Lemma destroyMorph_null s : destroyMorph None s = (Throw TypeError, s).
Proof. done. Qed.

(** After [destroy()] has been called on each of [refs], none of them is
    alive. *)
Lemma kill_all_lookup refs : forall bs i,
  kill_all refs bs !! i = (if bool_decide (i ∈ refs) then kill <$> bs !! i else bs !! i).
Proof.
  unfold kill_all. induction refs as [|r refs IH]; intros bs i; simpl; [done|].
  rewrite IH. destruct (decide (r = i)) as [->|Hne].
  - rewrite list_lookup_alter_eq. rewrite (bool_decide_eq_true_2 (i ∈ i :: refs)) by left.
    destruct (bool_decide (i ∈ refs)); destruct (bs !! i); done.
  - rewrite list_lookup_alter_ne by done.
    destruct (decide (i ∈ refs)) as [Hin|Hout].
    + rewrite !bool_decide_eq_true_2; [done|by right|done].
    + rewrite !bool_decide_eq_false_2; [done| |done].
      intros [?|?]%elem_of_cons; congruence.
Qed.

Lemma kill_all_dead refs bs b :
  b ∈ refs -> buf_alive <$> kill_all refs bs !! b ≠ Some true.
Proof.
  intros Hb. rewrite kill_all_lookup, bool_decide_eq_true_2 by done.
  by destruct (bs !! b).
Qed.

Lemma released_frame m s :
  canvasMorphs (released m s) = canvasMorphs s /\ maps (released m s) = maps s /\
  morphs (released m s) = morphs s /\ document (released m s) = document s.
Proof. unfold released. by destruct (getElementById _ _). Qed.

(** Destroying a morph that is there. *)
Lemma destroyMorphGeometry_live (handle : Handle) (s : State) mapref r m :
  obj_get (h_canvasId handle) (canvasMorphs s) = Some mapref ->
  entry mapref (h_resource handle) s = Some r ->
  morphs s !! r = Some m ->
  canvasId (m_canvas m) = h_canvasId handle ->
  m_resource m = h_resource handle ->
  exists s',
    destroyMorphGeometry handle s = (Ok tt, s') /\
    (getElementById (h_canvasId handle) (document s) = true ->
       Forall (fun b => buf_alive <$> buffers s' !! b ≠ Some true)
              (all_refs (m_targets m))) /\
    (getElementById (h_canvasId handle) (document s) = false ->
       buffers s' = buffers s) /\
    canvasMorphs s' = canvasMorphs s /\
    (exists o, maps s' !! mapref = Some o /\
               h_resource handle ∈ obj_keys o /\
               obj_get (h_resource handle) o = Some None) /\
    destroyMorphGeometry handle s' = (Throw (not_found handle), s').
Proof.
  intros Hc He Hm Hcv Hres.
  destruct (released_frame m s) as (Hrc & Hrm & _ & _).
  assert (Hmap : exists o0, maps s !! mapref = Some o0 /\
                            obj_get (h_resource handle) o0 = Some (Some r)).
  { unfold entry in He. destruct (maps s !! mapref) as [o0|]; [|done].
    exists o0. split; [done|]. simpl in He.
    destruct (obj_get (h_resource handle) o0) as [[?|]|]; simpl in He; by simplify_eq. }
  destruct Hmap as (o0 & Ho0 & Hget).
  set (s' := nulled m (released m s)).
  assert (Hs' : s' = set_maps (alter (obj_set (h_resource handle) None) mapref (maps s))
                       (released m s)).
  { unfold s', nulled. by rewrite Hrc, Hcv, Hc, Hrm, Hres. }
  exists s'. split.
  { unfold destroyMorphGeometry, bind, get. simpl. rewrite Hc, He.
    by apply destroyMorph_Some. }
  assert (Ho : maps s' !! mapref = Some (obj_set (h_resource handle) None o0)).
  { rewrite Hs'. simpl. by rewrite list_lookup_alter_eq, Ho0. }
  split; [|split; [|split; [|split]]].
  - intros Hdoc. rewrite Hs'. simpl. unfold released. rewrite Hcv, Hdoc. simpl.
    apply Forall_forall. intros b Hb. by apply kill_all_dead.
  - intros Hdoc. rewrite Hs'. simpl. unfold released. by rewrite Hcv, Hdoc.
  - rewrite Hs'. simpl. exact Hrc.
  - eexists. split; [exact Ho|]. split.
    + apply obj_keys_set_mono. by eapply obj_get_keys.
    + apply obj_get_set_eq.
  - unfold destroyMorphGeometry, bind, get. simpl.
    replace (canvasMorphs s') with (canvasMorphs s) by (rewrite Hs'; simpl; by rewrite Hrc).
    rewrite Hc. unfold entry. rewrite Ho. simpl. by rewrite obj_get_set_eq.
Qed.




(** *** RESET *)

(** [destroyMorph] throws nothing but a TypeError, and an entry that is
    [null] stays so. *)
Lemma destroyMorph_null_entry mapref resource morph s r s' :
  null_entry mapref resource s ->
  destroyMorph morph s = (r, s') ->
  null_entry mapref resource s' /\ (r = Ok tt \/ r = Throw TypeError).
Proof.
  intros Hnull Hd.
  destruct (morph ≫= (fun r => morphs s !! r)) as [m|] eqn:Hm.
  - destruct morph as [r0|]; [|done]. simpl in Hm.
    rewrite (destroyMorph_Some r0 m s Hm) in Hd. injection Hd as <- <-.
    split; [|by left].
    destruct (released_frame m s) as (Hrc & Hrm & _ & _).
    destruct Hnull as (o & Ho & Hk & Hg). unfold nulled, null_entry.
    destruct (obj_get (canvasId (m_canvas m)) (canvasMorphs (released m s))) as [mr|];
      simpl; rewrite Hrm; [|by exists o].
    destruct (decide (mr = mapref)) as [->|Hne].
    + rewrite list_lookup_alter_eq, Ho. simpl. eexists. split; [done|]. split.
      * by apply obj_keys_set_mono.
      * destruct (decide (m_resource m = resource)) as [->|Hkne].
        -- apply obj_get_set_eq.
        -- by rewrite obj_get_set_ne.
    + rewrite list_lookup_alter_ne by done. by exists o.
  - unfold destroyMorph, bind, get in Hd. simpl in Hd. rewrite Hm in Hd.
    injection Hd as <- <-. split; [done|by right].
Qed.

Section Loops.

Context {A : Type} (I : State -> Prop) (f : A -> M unit).

(** The body keeps [I] and throws nothing but a TypeError. *)
Hypothesis f_keeps : forall x s r s',
  I s -> f x s = (r, s') -> I s' /\ (r = Ok tt \/ r = Throw TypeError).

Lemma for_each_keeps xs : forall s r s',
  I s -> for_each xs f s = (r, s') -> I s' /\ (r = Ok tt \/ r = Throw TypeError).
Proof.
  induction xs as [|x xs IH]; intros s r s' HI Hrun; simpl in Hrun.
  - injection Hrun as <- <-. split; [done|by left].
  - unfold bind in Hrun. destruct (f x s) as [[[]|e] s1] eqn:Hx;
      destruct (f_keeps _ _ _ _ HI Hx) as [HI1 Hr].
    + by apply (IH s1).
    + injection Hrun as <- <-. split; [done|]. destruct Hr; [done|by right].
Qed.

(** If moreover the body throws for one of the elements whenever [I] holds,
    the loop throws. *)
Lemma for_each_throws xs x0 :
  x0 ∈ xs ->
  (forall s, I s -> fst (f x0 s) = Throw TypeError) ->
  forall s, I s -> fst (for_each xs f s) = Throw TypeError.
Proof.
  intros Hin Hx0. induction xs as [|x xs IH]; intros s HI; [by apply elem_of_nil in Hin|].
  simpl. unfold bind. destruct (f x s) as [[[]|e] s1] eqn:Hx;
    destruct (f_keeps _ _ _ _ HI Hx) as [HI1 Hr].
  - apply elem_of_cons in Hin as [->|Hin].
    + specialize (Hx0 s HI). rewrite Hx in Hx0. done.
    + by apply IH.
  - simpl. destruct Hr as [?|?]; congruence.
Qed.

End Loops.

(** RESET throws a TypeError when a morph map it visits has a key bound to
    [null]. *)
Lemma RESET_null_entry cid mapref resource s :
  obj_get cid (canvasMorphs s) = Some mapref ->
  null_entry mapref resource s ->
  fst (RESET s) = Throw TypeError.
Proof.
  intros Hc Hnull. unfold RESET.
  set (inner := fun (mr : nat) (res : string) =>
                  (s <- get ;; destroyMorph (entry mr res s)) : M unit).
  set (outer := fun '((_, mr) : string * nat) =>
                  (s <- get ;; for_each (obj_keys (default [] (maps s !! mr))) (inner mr)) : M unit).
  assert (Hinner : forall mr res s0 r s1,
            null_entry mapref resource s0 -> inner mr res s0 = (r, s1) ->
            null_entry mapref resource s1 /\ (r = Ok tt \/ r = Throw TypeError)).
  { intros mr res s0 r s1 HI Hrun. unfold inner, bind, get in Hrun. simpl in Hrun.
    by eapply destroyMorph_null_entry. }
  assert (Houter : forall x s0 r s1,
            null_entry mapref resource s0 -> outer x s0 = (r, s1) ->
            null_entry mapref resource s1 /\ (r = Ok tt \/ r = Throw TypeError)).
  { intros [c mr] s0 r s1 HI Hrun. unfold outer, bind, get in Hrun. simpl in Hrun.
    eapply (for_each_keeps (null_entry mapref resource) (inner mr)); [|done|done].
    intros. by eapply Hinner. }
  assert (Hthrow : fst (for_each (canvasMorphs s) outer s) = Throw TypeError).
  { apply (for_each_throws (null_entry mapref resource) outer Houter _ (cid, mapref));
      [by apply obj_get_elem| |done].
    intros s0 HI. unfold outer, bind, get. simpl.
    destruct HI as (o & Ho & Hk & Hg). rewrite Ho. simpl.
    apply (for_each_throws (null_entry mapref resource) (inner mapref)
             (fun x => Hinner mapref x) _ resource); [done| |by exists o].
    intros s1 (o1 & Ho1 & Hk1 & Hg1). unfold inner, bind, get, entry. simpl.
    rewrite Ho1. simpl. by rewrite Hg1. }
  unfold bind at 1. unfold get at 1. simpl. unfold bind at 1.
  match goal with
  | |- context [for_each (canvasMorphs s) ?g s] =>
      change (for_each (canvasMorphs s) g s) with (for_each (canvasMorphs s) outer s)
  end.
  destruct (for_each (canvasMorphs s) outer s) as [[[]|e] s1]; simpl in *; congruence.
Qed.

(** C9.  After [destroyMorphGeometry] has destroyed a morph, the morph map
    of its canvas still has the resource id as a key, bound to [null]; the
    canvas is still tracked, and the RESET listener, which calls [destroyMorph]
    on every entry of every morph map, then reads [morph.canvas] of [null]:
    it throws a TypeError instead of completing. *)
Theorem RESET_after_destroy (handle : Handle) (s : State) (mapref r : nat)
    (m : MorphObj) :
  obj_get (h_canvasId handle) (canvasMorphs s) = Some mapref ->
  entry mapref (h_resource handle) s = Some r ->
  morphs s !! r = Some m ->
  canvasId (m_canvas m) = h_canvasId handle ->
  m_resource m = h_resource handle ->
  exists s',
    destroyMorphGeometry handle s = (Ok tt, s') /\
    obj_get (h_canvasId handle) (canvasMorphs s') = Some mapref /\
    null_entry mapref (h_resource handle) s' /\
    fst (RESET s') = Throw TypeError.
Proof.
  intros Hc He Hm Hcv Hres.
  destruct (destroyMorphGeometry_live handle s mapref r m Hc He Hm Hcv Hres)
    as (s' & Hd & _ & _ & Hcm & Hnull & _).
  exists s'. split; [done|]. rewrite Hcm. split; [done|]. split; [done|].
  apply (RESET_null_entry (h_canvasId handle) mapref (h_resource handle));
    [by rewrite Hcm|done].
Qed.

(** A morph is created, then destroyed, then RESET fires. *)
Lemma RESET_after_destroy_witness :
  let cv := {| canvasId := "c"; context := 1 |} in
  let s0 := snd (SCENE_COMPILING cv (initial ["c"])) in
  let t := {| positions := Some [0; 1; 2]%Q; normals := None; uv := None; uv2 := None |} in
  let data := {| d_keys := [0; 1]%Q; d_targets := [t; t] |} in
  let s1 := snd (createMorphGeometry (fun _ _ => false) (fun _ p => p)
                   (Some "r") (Inline data) true s0) in
  let h := {| h_canvasId := "c"; h_resource := "r" |} in
  fst (RESET s1) = Ok tt /\
  exists s', destroyMorphGeometry h s1 = (Ok tt, s') /\ fst (RESET s') = Throw TypeError.
Proof.
  intros cv s0 t data s1 h. split; [reflexivity|].
  destruct (RESET_after_destroy h s1 0%nat 0%nat
              {| m_canvas := cv; m_resource := "r"; m_keys := [0; 1]%Q;
                 m_targets := [Build_Target (Some 0%nat) None None None;
                               Build_Target (Some 1%nat) None None None];
                 m_factor := None |})
    as (s' & Hd & _ & _ & Hreset).
  - reflexivity.
  - reflexivity.
  - reflexivity.
  - reflexivity.
  - reflexivity.
  - exists s'. split; [exact Hd|exact Hreset].
Defined.

(** *** Construction of a node *)

(** C7.  A node constructed from the targets themselves (neither a factory
    function nor a stream is given): [_init] raises an ILLEGAL_NODE_CONFIG
    error when there are fewer than two targets or when the number of keys
    differs from the number of targets, and the module state, morph maps
    included, is as before; with at least two targets and as many keys it
    returns normally, the node holding the keys and as many targets. *)
Theorem _init_inline_validates (params : Params) (n : Node) (s : State) :
  p_create params = None ->
  truthy (p_stream params) = None ->
  let targets := default [] (p_targets params) in
  let keys := default [] (p_keys params) in
  ((length targets < 2)%nat \/ length keys ≠ length targets ->
     exists msg,
       _init params n s = (Throw (Fatal (Some ILLEGAL_NODE_CONFIG) msg), s)) /\
  ((2 <= length targets)%nat -> length keys = length targets ->
     exists n',
       _init params n s = (Ok n', s) /\
       attr_keys n' = Some keys /\
       length <$> attr_targets n' = Some (length targets)).
Proof.
  intros Hcreate Hstream targets keys.
  unfold _init, bind, lift, _setMorph. rewrite Hcreate, Hstream. simpl.
  fold targets keys. split.
  - intros Hbad. destruct (Nat.ltb_spec (length targets) 2) as [Hlt|Hge].
    + by eexists.
    + destruct (Nat.eqb_spec (length keys) (length targets)) as [Heq|Hne]; simpl.
      * destruct Hbad; [lia|done].
      * by eexists.
  - intros Hge Heq. destruct (Nat.ltb_spec (length targets) 2) as [Hlt|_]; [lia|].
    rewrite (proj2 (Nat.eqb_eq _ _) Heq). simpl.
    eexists. split; [reflexivity|]. simpl. by rewrite length_map.
Qed.

(** One target: rejected.  Two targets and two keys: accepted. *)
Lemma _init_inline_validates_witness :
  let t := {| positions := Some [0; 1; 2]%Q; normals := None; uv := None; uv2 := None |} in
  let blank := {| attr_id := "n"; _resource := None; _create := None; _stream := None;
                  _handle := None; attr_factor := 0%Q; attr_clamp := true;
                  attr_keys := None; attr_targets := None |} in
  let params ts ks := {| p_create := None; p_stream := None; p_targets := Some ts;
                         p_keys := Some ks; p_factor := None; p_clamp := None |} in
  (exists msg, _init (params [t] [0%Q]) blank (initial [])
               = (Throw (Fatal (Some ILLEGAL_NODE_CONFIG) msg), initial [])) /\
  (exists n', _init (params [t; t] [0; 1]%Q) blank (initial []) = (Ok n', initial [])).
Proof.
  intros t blank params. split.
  - destruct (_init_inline_validates (params [t] [0%Q]) blank (initial []))
      as [Hbad _]; [reflexivity|reflexivity|].
    apply Hbad. left. simpl. lia.
  - destruct (_init_inline_validates (params [t; t] [0; 1]%Q) blank (initial []))
      as [_ Hgood]; [reflexivity|reflexivity|].
    destruct Hgood as (n' & Hn & _); [simpl; lia|reflexivity|].
    exists n'. exact Hn.
Defined.

(** *** The stack *)

Lemma popMorphGeometry_eq s :
  popMorphGeometry s = (Ok tt, set_dirty true (set_stackLen (stackLen s - 1) s)).
Proof. done. Qed.

Lemma pushMorphGeometry_stackLen id handle factor s s' :
  pushMorphGeometry id handle factor s = (Ok tt, s') ->
  stackLen s' = stackLen s + 1.
Proof.
  unfold pushMorphGeometry, bind, get. simpl.
  destruct (currentMorphs s) as [mapref|]; [|done].
  destruct (entry mapref (h_resource handle) s) as [r|]; [|done].
  by intros [= <-].
Qed.

Lemma SCENE_COMPILING_eq cv s :
  exists s', SCENE_COMPILING cv s = (Ok tt, s') /\ stackLen s' = 0 /\
             canvas s' = Some cv /\ currentMorphs s' = obj_get (canvasId cv) (canvasMorphs s') /\
             is_Some (currentMorphs s').
Proof.
  unfold SCENE_COMPILING, bind, get, modify. simpl.
  destruct (obj_get (canvasId cv) (canvasMorphs s)) as [mr|] eqn:Hc; simpl.
  - eexists. split; [reflexivity|]. simpl. rewrite Hc. by repeat split.
  - eexists. split; [reflexivity|]. simpl. rewrite obj_get_set_eq. by repeat split.
Qed.

Section Compilation.

Variable alloc_throws : list Buffer -> list Q -> bool.
Variable _createKeyForMap : option (obj (option nat)) -> string -> string.
Variable _compileNodes : M unit.

Lemma _createMorph_stackLen resource data options s r s' :
  _createMorph alloc_throws resource data options s = (r, s') ->
  stackLen s' = stackLen s.
Proof.
  unfold _createMorph, bind, get. simpl. destruct (canvas s) as [cv|].
  - destruct (alloc_targets alloc_throws (context cv) (d_targets data) [] s)
      as [[targets thrown] s1] eqn:Hal.
    destruct (alloc_targets_spec _ _ _ _ _ _ _ _ Hal) as (new & -> & _ & _).
    destruct thrown as [e0|]; simpl.
    + rewrite release_targets_kills. by intros [= <- <-].
    + destruct (currentMorphs s) as [mapref|].
      * by intros [= <- <-].
      * rewrite release_targets_kills. by intros [= <- <-].
  - by intros [= <- <-].
Qed.

Lemma createMorphGeometry_stackLen resource source options s r s' :
  createMorphGeometry alloc_throws _createKeyForMap resource source options s = (r, s') ->
  stackLen s' = stackLen s.
Proof.
  unfold createMorphGeometry, bind, get. simpl. destruct source as [st|data].
  - by intros [= <- <-].
  - match goal with
    | |- context [_createMorph _ ?res ?d ?o s] =>
        destruct (_createMorph alloc_throws res d o s) as [[h|e0] s0] eqn:Hc
    end; intros [= <- <-]; by eapply _createMorph_stackLen.
Qed.

(** [_preCompile] pushes once if the node has a handle when it returns. *)
Lemma _preCompile_stackLen n s n' s' :
  _preCompile alloc_throws _createKeyForMap n s = (Ok n', s') ->
  stackLen s' = stackLen s + match _handle n' with Some _ => 1 | None => 0 end.
Proof.
  unfold _preCompile. unfold bind at 1.
  match goal with
  | |- context [match ?m s with _ => _ end] => destruct (m s) as [[n1|e] s1] eqn:Hfirst
  end; [|done].
  assert (Hs1 : stackLen s1 = stackLen s).
  { destruct (_handle n) as [h|].
    - by injection Hfirst as <- <-.
    - destruct (_create n) as [raw|].
      + unfold bind, lift, attr_source in Hfirst.
        destruct (_setMorph raw n) as [n0|]; [|done].
        destruct (attr_targets n0); [|done]. simpl in Hfirst.
        match type of Hfirst with
        | context [createMorphGeometry _ _ ?r ?src ?o s] =>
            destruct (createMorphGeometry alloc_throws _createKeyForMap r src o s)
              as [[h|e0] s0] eqn:Hc
        end; [|done].
        injection Hfirst as <- <-. by eapply createMorphGeometry_stackLen.
      + destruct (truthy (_stream n)) as [st|].
        * unfold bind in Hfirst.
          match type of Hfirst with
          | context [createMorphGeometry _ _ ?r ?src ?o s] =>
              destruct (createMorphGeometry alloc_throws _createKeyForMap r src o s)
                as [[h|e0] s0] eqn:Hc
          end; [|done].
          injection Hfirst as <- <-. by eapply createMorphGeometry_stackLen.
        * unfold bind, attr_source in Hfirst.
          destruct (attr_targets n); [|done]. simpl in Hfirst.
          match type of Hfirst with
          | context [createMorphGeometry _ _ ?r ?src ?o s] =>
              destruct (createMorphGeometry alloc_throws _createKeyForMap r src o s)
                as [[h|e0] s0] eqn:Hc
          end; [|done].
          injection Hfirst as <- <-. by eapply createMorphGeometry_stackLen. }
  destruct (_handle n1) as [h|] eqn:Hh.
  - unfold bind. destruct (pushMorphGeometry (attr_id n1) h (attr_factor n1) s1)
      as [[[]|e] s2] eqn:Hp; [|done].
    intros [= <- <-]. rewrite Hh. apply pushMorphGeometry_stackLen in Hp. lia.
  - intros [= <- <-]. rewrite Hh. lia.
Qed.

(** A node that is compiled leaves the stack as deep as it found it, if
    its children do. *)
Lemma _compile_stackLen n s n' s' :
  (forall s0 s1, _compileNodes s0 = (Ok tt, s1) -> stackLen s1 = stackLen s0) ->
  _compile alloc_throws _createKeyForMap _compileNodes n s = (Ok n', s') ->
  stackLen s' = stackLen s.
Proof.
  intros Hchildren. unfold _compile. unfold bind at 1.
  destruct (_preCompile alloc_throws _createKeyForMap n s) as [[n1|e] s1] eqn:Hpre; [|done].
  apply _preCompile_stackLen in Hpre.
  unfold bind at 1. destruct (_compileNodes s1) as [[[]|e] s2] eqn:Hmid; [|done].
  apply Hchildren in Hmid.
  unfold bind, _postCompile. destruct (_handle n1) as [h|].
  - rewrite popMorphGeometry_eq. intros [= <- <-]. simpl. lia.
  - intros [= <- <-]. lia.
Qed.

End Compilation.

(** C8, as stated, fails: [popMorphGeometry] on the empty stack returns
    normally and leaves the depth at -1; nothing is reported. *)
Lemma popMorphGeometry_below_zero :
  stackLen (initial []) = 0 /\
  fst (popMorphGeometry (initial [])) = Ok tt /\
  stackLen (snd (popMorphGeometry (initial []))) = -1.
Proof. repeat split. Qed.

(** C8, amended.  [popMorphGeometry] makes no check: it always returns
    normally, with the depth decremented and the dirty flag set.  The
    SCENE_COMPILING listener sets the depth to zero, and the compilation of a
    morphGeometry node that returns normally leaves the depth as it found it,
    provided the compilation of its children does. *)
Theorem stack_depth_over_compile
    (alloc_throws : list Buffer -> list Q -> bool)
    (_createKeyForMap : option (obj (option nat)) -> string -> string)
    (_compileNodes : M unit) :
  (forall s, popMorphGeometry s
             = (Ok tt, set_dirty true (set_stackLen (stackLen s - 1) s))) /\
  (forall cv s, fst (SCENE_COMPILING cv s) = Ok tt /\
                stackLen (snd (SCENE_COMPILING cv s)) = 0) /\
  ((forall s0 s1, _compileNodes s0 = (Ok tt, s1) -> stackLen s1 = stackLen s0) ->
   forall n s n' s',
     _compile alloc_throws _createKeyForMap _compileNodes n s = (Ok n', s') ->
     stackLen s' = stackLen s).
Proof.
  split; [exact popMorphGeometry_eq|]. split.
  - intros cv s. destruct (SCENE_COMPILING_eq cv s) as (s' & -> & Hlen & _). done.
  - intros Hchildren n s n' s'. by apply _compile_stackLen.
Qed.

(** A node with two targets is compiled in a fresh pass: its morph is
    created and pushed, there are no children, the morph is popped, and the
    depth is zero again. *)
Lemma stack_depth_over_compile_witness :
  let cv := {| canvasId := "c"; context := 1 |} in
  let s0 := snd (SCENE_COMPILING cv (initial ["c"])) in
  let t := {| positions := Some [0; 1; 2]%Q; normals := None; uv := None; uv2 := None |} in
  let n := {| attr_id := "n"; _resource := Some "r"; _create := None; _stream := None;
              _handle := None; attr_factor := (1 # 2)%Q; attr_clamp := true;
              attr_keys := Some [0; 1]%Q; attr_targets := Some [t; t] |} in
  let r := _compile (fun _ _ => false) (fun _ p => p) (ret tt) n s0 in
  (exists n', fst r = Ok n' /\ _handle n' = Some {| h_canvasId := "c"; h_resource := "r" |}) /\
  stackLen s0 = 0 /\ stackLen (snd r) = 0.
Proof.
  intros cv s0 t n r. split; [eexists; split; reflexivity|]. split; [reflexivity|].
  destruct (stack_depth_over_compile (fun _ _ => false) (fun _ p => p) (ret tt))
    as (_ & _ & Hcompile).
  apply (Hcompile (fun s0 s1 (H : ret tt s0 = (Ok tt, s1)) =>
                     f_equal stackLen (eq_sym (f_equal snd H)))
                  n s0 (with_handle (Some {| h_canvasId := "c"; h_resource := "r" |}) n)).
  reflexivity.
Defined.

End MorphFacts.

(** ** The camera node *)

Module CameraFacts.
Import JS Camera ObjFacts.
Local Open Scope js_scope.

Local Arguments copy_props : simpl never.
Local Arguments num_prop : simpl never.

Lemma set_heap_same s : set_heap (heap s) s = s.
Proof. by destruct s. Qed.

(** A failing [setOptics] leaves the node as it was; a successful one makes
    a new optics object with one of the three known tags and resets the memo
    level. *)
Lemma setOptics_result optics s r s1 :
  setOptics optics s = (r, s1) ->
  (exists e, r = Throw e /\ s1 = s) \/
  (r = Ok tt /\ exists props,
     valid_type props /\
     s1 = set_compileMemoLevel 0
            (set_attr_optics (Some (length (heap s)))
               (set_heap (heap s ++ [CObj props]) s))).
Proof.
  unfold setOptics, bind, assign_optics, bind, alloc, modify, _resetCompilationMemos, modify.
  destruct optics as [o|].
  - destruct (param_type_is "ortho" o) eqn:H1; simpl.
    { intros [= <- <-]. right. split; [done|]. eexists. split; [|done]. by left. }
    destruct (param_type_is "frustum" o) eqn:H2; simpl.
    { intros [= <- <-]. right. split; [done|]. eexists. split; [|done]. right; by left. }
    destruct (param_type_is "perspective" o) eqn:H3; simpl.
    { intros [= <- <-]. right. split; [done|]. eexists. split; [|done]. right; by right. }
    destruct (truthy (o_type o)); simpl; intros [= <- <-]; left; by eexists.
  - simpl. intros [= <- <-]. right. split; [done|]. eexists. split; [|done].
    right; by right.
Qed.

Section Node.

Variable ortho frustum : option Q -> option Q -> option Q -> option Q -> option Q -> option Q -> list Q.
Variable perspective : option Q -> option Q -> option Q -> option Q -> list Q.
Variable PI : Q.

Local Abbreviation _rebuild := (_rebuild ortho frustum perspective PI).
Local Abbreviation getMatrix := (getMatrix ortho frustum perspective PI).
Local Abbreviation rebuilt := (rebuilt ortho frustum perspective).

Lemma _rebuild_valid s props :
  _compileMemoLevel s = 0%nat ->
  optics_of s = Some props ->
  valid_type props ->
  exists c t, _rebuild s = (Ok tt, rebuilt c t s) /\ t_matrix t = length (heap s).
Proof.
  intros Hmemo Hopt Hvalid.
  unfold Camera._rebuild, call_math, alloc, modify, bind, get. simpl.
  rewrite Hmemo, Hopt. simpl.
  destruct (type_is "ortho" props) eqn:H1.
  { exists (OrthoMat4c (num_prop "left" props) (num_prop "right" props)
              (num_prop "bottom" props) (num_prop "top" props)
              (num_prop "near" props) (num_prop "far" props)).
    eexists. split; [reflexivity|done]. }
  destruct (type_is "frustum" props) eqn:H2.
  { exists (FrustumMatrix4 (num_prop "left" props) (num_prop "right" props)
              (num_prop "bottom" props) (num_prop "top" props)
              (num_prop "near" props) (num_prop "far" props)).
    eexists. split; [reflexivity|done]. }
  destruct (type_is "perspective" props) eqn:H3.
  { exists (PerspectiveMatrix4
              (option_map (fun fovy => fovy * PI / 180)%Q (num_prop "fovy" props))
              (num_prop "aspect" props) (num_prop "near" props) (num_prop "far" props)).
    eexists. split; [reflexivity|done]. }
  destruct Hvalid as [?|[?|?]]; congruence.
Qed.

(** With a non-zero memo level nothing is recomputed. *)
Lemma _rebuild_memo s : _compileMemoLevel s ≠ 0%nat -> _rebuild s = (Ok tt, s).
Proof.
  intros Hmemo. unfold Camera._rebuild, bind, get. simpl.
  by destruct (Nat.eqb_spec (_compileMemoLevel s) 0).
Qed.

(** What [_rebuild] can do to the node in general. *)
Lemma _rebuild_cases s r s2 :
  _rebuild s = (r, s2) ->
  s2 = s \/ s2 = set_compileMemoLevel 1 s \/
  exists c t, s2 = rebuilt c t s /\ t_matrix t = length (heap s).
Proof.
  unfold Camera._rebuild, call_math, alloc, modify, bind, get. simpl.
  destruct (_compileMemoLevel s =? 0)%nat; [|intros [= <- <-]; by left].
  destruct (optics_of s) as [props|]; [|intros [= <- <-]; by left]. simpl.
  destruct (type_is "ortho" props).
  { intros [= <- <-]. right; right.
    exists (OrthoMat4c (num_prop "left" props) (num_prop "right" props)
              (num_prop "bottom" props) (num_prop "top" props)
              (num_prop "near" props) (num_prop "far" props)).
    by eexists. }
  destruct (type_is "frustum" props).
  { intros [= <- <-]. right; right.
    exists (FrustumMatrix4 (num_prop "left" props) (num_prop "right" props)
              (num_prop "bottom" props) (num_prop "top" props)
              (num_prop "near" props) (num_prop "far" props)).
    by eexists. }
  destruct (type_is "perspective" props).
  { intros [= <- <-]. right; right.
    exists (PerspectiveMatrix4
              (option_map (fun fovy => fovy * PI / 180)%Q (num_prop "fovy" props))
              (num_prop "aspect" props) (num_prop "near" props) (num_prop "far" props)).
    by eexists. }
  intros [= <- <-]. right; by left.
Qed.

Lemma _rebuild_refs_ok s r s2 :
  refs_ok s -> _rebuild s = (r, s2) ->
  refs_ok s2 /\ (length (heap s) <= length (heap s2))%nat /\
  attr_optics s2 = attr_optics s /\
  (forall i, (i < length (heap s))%nat -> heap s2 !! i = heap s !! i).
Proof.
  intros [Ho Ht] Hr. destruct (_rebuild_cases _ _ _ Hr) as [->|[->|(c & t & -> & Hm)]].
  - done.
  - done.
  - unfold refs_ok, Camera.rebuilt. simpl. rewrite length_app. simpl.
    split; [split|split; [|split]].
    + intros ro Hro. specialize (Ho ro Hro). lia.
    + intros t0 [= <-]. lia.
    + lia.
    + done.
    + intros i Hi. by rewrite lookup_app_l.
Qed.

(** [getMatrix] after its optional recomputation. *)
Lemma getMatrix_after s :
  getMatrix s
  = match _rebuild s with
    | (Ok _, s2) =>
        match _transform s2 with
        | None => (Throw TypeError, s2)
        | Some t =>
            match heap s2 !! t_matrix t with
            | Some (CArr elems) =>
                (Ok (length (heap s2)), set_heap (heap s2 ++ [CArr elems]) s2)
            | _ => (Throw TypeError, s2)
            end
        end
    | (Throw e, s2) => (Throw e, s2)
    end.
Proof.
  unfold Camera.getMatrix. unfold bind at 1. unfold get at 1. simpl.
  destruct (Nat.eqb_spec (_compileMemoLevel s) 0) as [Hz|Hnz].
  - unfold bind at 1. destruct (_rebuild s) as [[[]|e] s2]; [|done].
    unfold bind, get. simpl. destruct (_transform s2) as [t|]; [|done].
    by destruct (heap s2 !! t_matrix t) as [[|]|].
  - rewrite _rebuild_memo by done. unfold bind, get, ret. simpl.
    destruct (_transform s) as [t|]; [|done].
    by destruct (heap s !! t_matrix t) as [[|]|].
Qed.

(** [getMatrix] on a node whose memo level is not 0. *)
Lemma getMatrix_memo s r s' :
  _compileMemoLevel s ≠ 0%nat ->
  getMatrix s = (r, s') ->
  math_calls s' = math_calls s /\ _compileMemoLevel s' = _compileMemoLevel s /\
  _transform s' = _transform s.
Proof.
  intros Hmemo. rewrite getMatrix_after, _rebuild_memo by done.
  destruct (_transform s) as [t|] eqn:Ht; [|by intros [= <- <-]].
  destruct (heap s !! t_matrix t) as [[|]|]; by intros [= <- <-].
Qed.

(** [getMatrix] on a node whose memo level is 0 and whose optics object has
    a known tag: one recomputation, and the array returned is a copy of its
    result. *)
Lemma getMatrix_fresh s props :
  _compileMemoLevel s = 0%nat ->
  optics_of s = Some props ->
  valid_type props ->
  exists c t,
    t_matrix t = length (heap s) /\
    getMatrix s
    = (Ok (S (length (heap s))),
       set_heap ((heap s ++ [CArr (run_math ortho frustum perspective c)])
                 ++ [CArr (run_math ortho frustum perspective c)])
         (rebuilt c t s)).
Proof.
  intros Hmemo Hopt Hvalid.
  destruct (_rebuild_valid s props Hmemo Hopt Hvalid) as (c & t & Hr & Ht).
  exists c, t. split; [done|]. rewrite getMatrix_after, Hr. simpl.
  rewrite Ht, list_lookup_middle by done.
  rewrite length_app. simpl. by rewrite Nat.add_1_r.
Qed.

(** C6.  The memo level is 0 when the node has been constructed.  With a
    memo level other than 0, [getMatrix] calls no matrix constructor and leaves
    the memo level and the transform as they are.  After a call of [setOptics]
    that returns normally the memo level is 0; the next [getMatrix] then calls
    exactly one matrix constructor and sets the memo level to 1; a second
    [getMatrix] calls none, and the two arrays returned have the same elements,
    those the constructor produced. *)
Theorem getMatrix_memoized :
  (forall optics s s1, _init optics s = (Ok tt, s1) -> _compileMemoLevel s1 = 0%nat) /\
  (forall s r s',
     _compileMemoLevel s ≠ 0%nat -> getMatrix s = (r, s') ->
     math_calls s' = math_calls s /\ _compileMemoLevel s' = _compileMemoLevel s /\
     _transform s' = _transform s) /\
  (forall optics s s1,
     setOptics optics s = (Ok tt, s1) ->
     _compileMemoLevel s1 = 0%nat /\
     exists c m1 s2 m2 s3,
       getMatrix s1 = (Ok m1, s2) /\
       math_calls s2 = math_calls s1 ++ [c] /\ _compileMemoLevel s2 = 1%nat /\
       getMatrix s2 = (Ok m2, s3) /\
       math_calls s3 = math_calls s2 /\ _compileMemoLevel s3 = 1%nat /\
       heap s2 !! m1 = Some (CArr (run_math ortho frustum perspective c)) /\
       heap s3 !! m2 = Some (CArr (run_math ortho frustum perspective c))).
Proof.
  assert (Hset : forall optics s s1,
            setOptics optics s = (Ok tt, s1) ->
            _compileMemoLevel s1 = 0%nat /\
            exists props, optics_of s1 = Some props /\ valid_type props).
  { intros optics s s1 Hs.
    destruct (setOptics_result _ _ _ _ Hs) as [(e & ? & _)|(_ & props & Hv & ->)]; [done|].
    split; [done|]. exists props. split; [|done].
    unfold optics_of. simpl. by rewrite list_lookup_middle. }
  split; [|split].
  - intros optics s s1 Hi. by apply (Hset optics s).
  - exact getMatrix_memo.
  - intros optics s s1 Hs. destruct (Hset _ _ _ Hs) as (Hmemo & props & Hopt & Hv).
    split; [done|].
    destruct (getMatrix_fresh s1 props Hmemo Hopt Hv) as (c & t & Ht & Hg).
    set (m := CArr (run_math ortho frustum perspective c)) in *.
    set (s2 := set_heap ((heap s1 ++ [m]) ++ [m]) (rebuilt c t s1)) in *.
    assert (Hg2 : getMatrix s2
                  = (Ok (S (S (length (heap s1)))),
                     set_heap (((heap s1 ++ [m]) ++ [m]) ++ [m]) s2)).
    { rewrite getMatrix_after, _rebuild_memo by done. simpl. rewrite Ht.
      rewrite lookup_app_l by (rewrite length_app; simpl; lia).
      rewrite list_lookup_middle by done.
      rewrite !length_app. simpl. by rewrite !Nat.add_1_r. }
    exists c, (S (length (heap s1))), s2, (S (S (length (heap s1)))),
           (set_heap (((heap s1 ++ [m]) ++ [m]) ++ [m]) s2).
    repeat split; try done.
    + simpl. apply list_lookup_middle. rewrite length_app. simpl. lia.
    + simpl. apply list_lookup_middle. rewrite !length_app. simpl. lia.
Qed.

(** *** Copies handed out *)

(** The copy loop of [getOptics]. *)
Lemma copy_loop_other (src : obj prim) k ks : forall acc,
  k ∉ ks ->
  obj_get k (fold_left (fun optics key =>
                          match obj_get key src with
                          | Some v => obj_set key v optics
                          | None => optics
                          end) ks acc)
  = obj_get k acc.
Proof.
  induction ks as [|k0 ks IH]; intros acc Hk; simpl; [done|].
  apply not_elem_of_cons in Hk as [Hne Hk]. rewrite IH by done.
  destruct (obj_get k0 src); [|done]. by apply obj_get_set_ne.
Qed.

Lemma copy_loop_key (src : obj prim) k v ks : forall acc,
  k ∈ ks -> obj_get k src = Some v ->
  obj_get k (fold_left (fun optics key =>
                          match obj_get key src with
                          | Some v => obj_set key v optics
                          | None => optics
                          end) ks acc)
  = Some v.
Proof.
  induction ks as [|k0 ks IH]; intros acc Hk Hv; simpl; [by apply elem_of_nil in Hk|].
  destruct (decide (k ∈ ks)) as [Hin|Hout]; [by apply IH|].
  apply elem_of_cons in Hk as [<-|?]; [|done].
  rewrite copy_loop_other by done. rewrite Hv. apply obj_get_set_eq.
Qed.

(** [getOptics] never throws; the object it returns is new and has the
    properties of the node's optics object. *)
Lemma getOptics_copy s :
  exists copy,
    getOptics s = (Ok (length (heap s)), set_heap (heap s ++ [CObj copy]) s) /\
    forall props, optics_of s = Some props -> forall k, obj_get k copy = obj_get k props.
Proof.
  exists (copy_own (default [] (optics_of s))). split; [reflexivity|].
  intros props -> k. simpl. unfold copy_own.
  destruct (obj_get k props) as [v|] eqn:Hk.
  - apply copy_loop_key; [by eapply obj_get_keys|done].
  - rewrite copy_loop_other; [done|].
    intros Hin. apply obj_keys_get in Hin as [v Hv]. congruence.
Qed.

(** Changing an object the node does not refer to leaves the node as it can
    be observed. *)
Lemma mutate_frame r c s :
  attr_optics (mutate r c s) = attr_optics s /\
  _transform (mutate r c s) = _transform s /\
  length (heap (mutate r c s)) = length (heap s).
Proof. unfold mutate. simpl. by rewrite length_insert. Qed.

Lemma mutate_view r c s :
  (forall ro, attr_optics s = Some ro -> ro ≠ r) ->
  (forall t, _transform s = Some t -> t_matrix t ≠ r) ->
  view (mutate r c s) = view s.
Proof.
  intros Ho Ht. unfold view, matrix_of, mutate. simpl.
  destruct (attr_optics s) as [ro|]; destruct (_transform s) as [t|]; simpl;
    rewrite ?list_lookup_insert_ne; try done.
  - intros ->. by apply (Ht t).
  - intros ->. by apply (Ho ro).
  - intros ->. by apply (Ho ro).
  - intros ->. by apply (Ht t).
Qed.

Lemma mutations_view r cs : forall s,
  (forall ro, attr_optics s = Some ro -> ro ≠ r) ->
  (forall t, _transform s = Some t -> t_matrix t ≠ r) ->
  view (mutations r cs s) = view s.
Proof.
  induction cs as [|c cs IH]; intros s Ho Ht; simpl; [done|].
  destruct (mutate_frame r c s) as (Ha & Hb & _).
  fold (mutations r cs (mutate r c s)).
  rewrite IH; [by apply mutate_view| |]; by rewrite ?Ha, ?Hb.
Qed.

(** Adding an object leaves the node as it can be observed. *)
Lemma alloc_view c s : refs_ok s -> view (set_heap (heap s ++ [c]) s) = view s.
Proof.
  intros [Ho Ht]. unfold view, matrix_of. simpl.
  destruct (attr_optics s) as [ro|]; destruct (_transform s) as [t|]; simpl;
    rewrite ?lookup_app_l; try done; by (apply Ht || apply Ho).
Qed.

(** C10.  For a node whose references name existing objects:
    [getOptics] returns a new object with the properties of the node's optics
    object, and leaves the node as it was; [getMatrix], when it returns,
    returns a new array with the elements of the node's matrix.  Whatever is
    afterwards done to the object returned, the node's optics object, its
    transform and matrix, and its memo level stay as they are. *)
Theorem getters_return_copies (s : State) :
  refs_ok s ->
  (forall r s',
     Camera.getOptics s = (Ok r, s') ->
     (length (heap s) <= r)%nat /\
     view s' = view s /\
     (forall props, optics_of s = Some props ->
        exists copy, heap s' !! r = Some (CObj copy) /\
                     forall k, obj_get k copy = obj_get k props) /\
     forall cs, view (mutations r cs s') = view s') /\
  (forall r s',
     getMatrix s = (Ok r, s') ->
     (length (heap s) <= r)%nat /\
     (exists elems, matrix_of s' = Some (CArr elems) /\
                    heap s' !! r = Some (CArr elems)) /\
     forall cs, view (mutations r cs s') = view s').
Proof.
  intros Hok. split.
  - intros r s' Hg. destruct (getOptics_copy s) as (copy & Heq & Hcopy).
    rewrite Heq in Hg. injection Hg as <- <-.
    split; [done|]. split; [by apply alloc_view|]. split.
    + intros props Hp. exists copy. split; [|by apply Hcopy].
      simpl. by apply list_lookup_middle.
    + intros cs. destruct Hok as [Ho Ht]. apply mutations_view; simpl.
      * intros ro Hro. specialize (Ho ro Hro). lia.
      * intros t Ht0. specialize (Ht t Ht0). lia.
  - intros r s'. rewrite getMatrix_after.
    destruct (_rebuild s) as [[[]|e] s2] eqn:Hr; [|done].
    destruct (_rebuild_refs_ok s _ s2 Hok Hr) as ([Ho2 Ht2] & Hlen & _ & _).
    destruct (_transform s2) as [t|] eqn:Ht; [|done].
    destruct (heap s2 !! t_matrix t) as [[|elems]|] eqn:Hm; try done.
    intros [= <- <-]. split; [done|]. split.
    + exists elems. unfold matrix_of. simpl. rewrite Ht. simpl. split.
      * rewrite lookup_app_l; [done|by apply Ht2].
      * by apply list_lookup_middle.
    + intros cs. apply mutations_view; simpl.
      * intros ro Hro. specialize (Ho2 ro Hro). lia.
      * intros t0 Ht0. rewrite Ht in Ht0. injection Ht0 as <-.
        specialize (Ht2 t eq_refl). lia.
Qed.

End Node.

(** A camera constructed without optics: the first [getMatrix] calls the
    perspective constructor once, the second calls nothing, and both return
    arrays with the same elements. *)
Lemma getMatrix_memoized_witness :
  let ortho := fun _ _ _ _ _ _ : option Q => [1; 0; 0; 1]%Q in
  let frustum := fun _ _ _ _ _ _ : option Q => [2; 0; 0; 2]%Q in
  let perspective := fun _ _ _ _ : option Q => [3; 0; 0; 3]%Q in
  let s1 := snd (_init None (blank "camera" 7)) in
  exists c m1 s2 m2 s3,
    getMatrix ortho frustum perspective 3 s1 = (Ok m1, s2) /\
    math_calls s2 = [c] /\
    getMatrix ortho frustum perspective 3 s2 = (Ok m2, s3) /\
    math_calls s3 = [c] /\
    heap s2 !! m1 = Some (CArr [3; 0; 0; 3]%Q) /\
    heap s3 !! m2 = Some (CArr [3; 0; 0; 3]%Q).
Proof.
  intros ortho frustum perspective s1.
  destruct (getMatrix_memoized ortho frustum perspective 3) as (_ & _ & Hset).
  destruct (Hset None (blank "camera" 7) s1 eq_refl)
    as (_ & c & m1 & s2 & m2 & s3 & Hg1 & Hc1 & _ & Hg2 & Hc2 & _ & Hm1 & Hm2).
  exists c, m1, s2, m2, s3. split; [exact Hg1|]. split; [exact Hc1|].
  split; [exact Hg2|]. split; [by rewrite Hc2|].
  assert (Hc : c = PerspectiveMatrix4 (Some (60 * 3 / 180)%Q) (Some 1%Q)
                                      (Some (1 # 10)%Q) (Some 5000%Q)).
  { assert (Hcalls : math_calls s2 = math_calls (fst (snd (getMatrix ortho frustum perspective 3 s1), tt)))
      by (by rewrite Hg1).
    rewrite Hc1 in Hcalls. by injection Hcalls. }
  rewrite Hc in Hm1, Hm2. split; [exact Hm1|exact Hm2].
Defined.

(** The record returned by [getOptics] is overwritten, twice; the camera's
    optics, matrix and memo level are as before. *)
Lemma getters_return_copies_witness :
  let ortho := fun _ _ _ _ _ _ : option Q => [1; 0; 0; 1]%Q in
  let frustum := fun _ _ _ _ _ _ : option Q => [2; 0; 0; 2]%Q in
  let perspective := fun _ _ _ _ : option Q => [3; 0; 0; 3]%Q in
  let s := snd (getMatrix ortho frustum perspective 3 (snd (_init None (blank "camera" 7)))) in
  let r := 3%nat in
  let s' := snd (getOptics s) in
  getOptics s = (Ok r, s') /\
  view (mutations r [CObj [("type", PStr "ortho")]; CArr []] s') = view s.
Proof.
  intros ortho frustum perspective s r s'. split; [reflexivity|].
  assert (Hok : refs_ok s).
  { split.
    - intros ro [= <-]. simpl. lia.
    - intros t [= <-]. simpl. lia. }
  destruct (getters_return_copies ortho frustum perspective 3 s Hok) as [Hopt _].
  destruct (Hopt r s' eq_refl) as (_ & Hview & _ & Hmut).
  rewrite Hmut. exact Hview.
Defined.

End CameraFacts.

(** * Further properties *)

(** ** The event module *)

Module EventsMore.
Import Events Bind JS ListFacts EventsFacts.

Lemma splice_in_front g l :
  Forall (fun x => priority g < priority x) l -> splice_in g l = g :: l.
Proof.
  destruct 1 as [|x l Hx _]; simpl; [done|].
  destruct (Z.gtb_spec (priority x) (priority g)); [done|lia].
Qed.

Lemma splice_in_sublist g l : l `sublist_of` splice_in g l.
Proof.
  induction l as [|x l IH]; simpl; [apply sublist_nil_l|].
  destruct (priority x >? priority g).
  - by apply sublist_cons.
  - by apply sublist_skip.
Qed.

Lemma splice_in_length g l : length (splice_in g l) = S (length l).
Proof. rewrite splice_in_perm, length_app. simpl. lia. Qed.

(** X1.  Where [addListener] puts a listener: in front of the queue when
    its priority is below that of every listener queued, at the end when no
    listener queued has a higher priority (in particular when no priority is
    given and none queued exceeds the queue length). *)
Theorem addListener_first_or_last (type c : nat) (p : option Z) (ev : events) :
  let g := mk_handler (queue type ev) c p in
  (Forall (fun x => priority g < priority x) (queue type ev) ->
     queue type (addListener type c p ev) = g :: queue type ev) /\
  (Forall (fun x => priority x <= priority g) (queue type ev) ->
     queue type (addListener type c p ev) = queue type ev ++ [g]).
Proof.
  intros g. rewrite queue_addListener. fold g. split; intros Hall.
  - by apply splice_in_front.
  - rewrite <- (app_nil_r (queue type ev)) at 1.
    by rewrite splice_in_behind.
Qed.

Lemma addListener_first_or_last_witness :
  queue 3 (addListener 3 9 (Some (-1)) {[ 3%nat := [Handler 1 0; Handler 2 4] ]})
  = [Handler 9 (-1); Handler 1 0; Handler 2 4] /\
  queue 3 (addListener 3 9 (Some 4) {[ 3%nat := [Handler 1 0; Handler 2 4] ]})
  = [Handler 1 0; Handler 2 4; Handler 9 4].
Proof.
  split.
  - destruct (addListener_first_or_last 3 9 (Some (-1))
                {[ 3%nat := [Handler 1 0; Handler 2 4] ]}) as [Hfront _].
    apply Hfront. repeat constructor.
  - destruct (addListener_first_or_last 3 9 (Some 4)
                {[ 3%nat := [Handler 1 0; Handler 2 4] ]}) as [_ Hlast].
    apply Hlast. repeat constructor; simpl; lia.
Defined.

(** X2.  [addListener] only adds: the listeners already queued for the type
    stay, in the same order, the queue grows by one, the new handler is in it,
    and the queues of the other types are not touched. *)
Theorem addListener_only_adds (type c : nat) (p : option Z) (ev : events) :
  queue type ev `sublist_of` queue type (addListener type c p ev) /\
  length (queue type (addListener type c p ev)) = S (length (queue type ev)) /\
  mk_handler (queue type ev) c p ∈ queue type (addListener type c p ev) /\
  forall t, t ≠ type -> addListener type c p ev !! t = ev !! t.
Proof.
  rewrite queue_addListener. split; [apply splice_in_sublist|].
  split; [apply splice_in_length|]. split; [apply elem_of_splice_in|].
  intros t Ht. unfold addListener. by rewrite lookup_insert_ne.
Qed.

Lemma addListener_only_adds_witness :
  addListener 3 9 None {[ 3%nat := [Handler 1 0]; 4%nat := [Handler 2 0] ]} !! 4%nat
  = Some [Handler 2 0].
Proof.
  destruct (addListener_only_adds 3 9 None {[ 3%nat := [Handler 1 0]; 4%nat := [Handler 2 0] ]})
    as (_ & _ & _ & Hother).
  rewrite (Hother 4%nat); [reflexivity|lia].
Defined.

Section Hang.

Variable body : nat -> list registration.
Variables (type c : nat) (p : Z) (pre post : list handler) (h : handler).

Hypothesis body_h : body (command h) = [Reg type c (Some p)].
Hypothesis pre_inert : Forall (fun x => inert body type (command x)) pre.
Hypothesis p_lower : Forall (fun x => p < priority x) (pre ++ [h]).

(** A new handler of priority [p] goes behind those of priority at most [p]
    that head the queue, and in front of everything else. *)
Lemma splice_in_low gs :
  Forall (fun x => priority x <= p) gs ->
  splice_in (Handler c p) (gs ++ pre ++ h :: post)
  = (gs ++ [Handler c p]) ++ pre ++ h :: post.
Proof.
  intros Hgs. rewrite splice_in_behind by done. rewrite <- app_assoc. f_equal.
  destruct pre as [|x pre']; simpl in *; inversion p_lower as [|? ? Hx _]; subst.
  - by destruct (Z.gtb_spec (priority h) p); [|lia].
  - by destruct (Z.gtb_spec (priority x) p); [|lia].
Qed.

(** Once the loop is at [h], it is at [h] again one step later, the queue
    having grown by one in front of it. *)
Lemma dispatch_at_h fuel : forall gs st,
  Forall (fun x => priority x <= p) gs ->
  queue type (fst st) = gs ++ pre ++ h :: post ->
  dispatch body fuel type (length gs + length pre) st = None.
Proof.
  induction fuel as [|fuel IH]; intros gs st Hgs Hq; [done|].
  rewrite (dispatch_step body type fuel _ st h).
  - replace (S (length gs + length pre)) with (length (gs ++ [Handler c p]) + length pre)%nat
      by (rewrite length_app; simpl; lia).
    apply IH.
    + apply Forall_app. split; [done|]. repeat constructor. simpl. lia.
    + unfold run_command. simpl. rewrite body_h. simpl. unfold register. simpl.
      rewrite queue_addListener, Hq. by apply splice_in_low.
  - rewrite Hq, app_assoc. apply list_lookup_middle. by rewrite length_app.
Qed.

Lemma dispatch_before_h fuel : forall i st,
  (i <= length pre)%nat ->
  queue type (fst st) = pre ++ h :: post ->
  dispatch body fuel type i st = None.
Proof.
  induction fuel as [|fuel IH]; intros i st Hi Hq; [done|].
  destruct (decide (i = length pre)) as [->|Hne].
  - apply (dispatch_at_h (S fuel) [] st); [constructor|done].
  - assert (Hlt : (i < length pre)%nat) by lia.
    destruct (lookup_lt_is_Some_2 pre i Hlt) as [x Hx].
    rewrite (dispatch_step body type fuel i st x)
      by (rewrite Hq; by rewrite lookup_app_l).
    apply IH; [lia|]. rewrite run_command_inert; [done|].
    rewrite Forall_forall in pre_inert. apply pre_inert.
    by eapply list_elem_of_lookup_2.
Qed.

End Hang.

(** X3.  A listener that, each time it is called, registers for the type
    being dispatched a listener whose priority is below its own and below those
    of the listeners before it, is called again and again: the new listener
    lands in front of it, the queue shifts by one, and the loop of [fireEvent],
    which goes by index, never reaches the end of the queue.  Whatever the
    fuel, the dispatch does not return. *)
Theorem fireEvent_never_returns (body : nat -> list registration)
    (type c : nat) (p : Z) (ev : events) (pre post : list handler) (h : handler) :
  ev !! type = Some (pre ++ h :: post) ->
  body (command h) = [Reg type c (Some p)] ->
  Forall (fun x => inert body type (command x)) pre ->
  Forall (fun x => p < priority x) (pre ++ [h]) ->
  forall fuel, fireEvent body fuel type (ev, []) = None.
Proof.
  intros Hev Hbody Hpre Hlow fuel. unfold fireEvent. simpl. rewrite Hev.
  apply (dispatch_before_h body type c p pre post h Hbody Hpre Hlow); [lia|].
  unfold queue. simpl. by rewrite Hev.
Qed.

(** The only listener of type 4 registers, when called, a listener of
    priority -1. *)
Lemma fireEvent_never_returns_witness :
  fireEvent (fun c => match c with O => [Reg 4 1 (Some (-1))] | _ => [] end) 1000 4
    ({[ 4%nat := [Handler 0 0] ]}, []) = None.
Proof.
  apply (fireEvent_never_returns _ 4 1 (-1) _ [] [] (Handler 0 0)).
  - reflexivity.
  - reflexivity.
  - constructor.
  - repeat constructor.
Defined.

(** *** Binding by name *)

Lemma event_of_name_cases name type :
  event_of_name name = Some type ->
  type ∈ [ERROR; RESET; SCENE_CREATED; NODE_CREATED; NODE_UPDATED;
          NODE_DESTROYED; SCENE_COMPILING; SCENE_COMPILED; SCENE_DESTROYED].
Proof.
  unfold event_of_name.
  repeat match goal with
         | |- context [String.eqb name ?n] => destruct (String.eqb name n)
         end; intros [= <-]; set_solver.
Qed.

(** X4.  [SceneJS.bind] registers exactly one listener, for one of the nine
    event types that have a name, and touches the queue of no other type; it
    never registers for SCENE_RENDERING (the name "scene-rendering" stands for
    SCENE_COMPILING).  For any other name it throws and registers nothing. *)
Theorem SceneJS_bind_cases (name : string) (func : nat) (ev : events) :
  match SceneJS_bind name func ev with
  | Ok ev' =>
      exists type,
        event_of_name name = Some type /\
        type ∈ [ERROR; RESET; SCENE_CREATED; NODE_CREATED; NODE_UPDATED;
                NODE_DESTROYED; SCENE_COMPILING; SCENE_COMPILED; SCENE_DESTROYED] /\
        type ≠ SCENE_RENDERING /\
        func ∈ map command (queue type ev') /\
        length (queue type ev') = S (length (queue type ev)) /\
        forall t, t ≠ type -> ev' !! t = ev !! t
  | Throw e =>
      event_of_name name = None /\
      e = Fatal None ("SceneJS.bind - this event type not supported: '" ++ name ++ "'")
  end.
Proof.
  unfold SceneJS_bind. destruct (event_of_name name) as [type|] eqn:Hn; [|done].
  exists type. pose proof (event_of_name_cases name type Hn) as Hin.
  split; [done|]. split; [done|]. split.
  - intros ->. revert Hin. unfold SCENE_RENDERING.
    rewrite !elem_of_cons, elem_of_nil. unfold ERROR, RESET, SCENE_CREATED, NODE_CREATED,
      NODE_UPDATED, NODE_DESTROYED, SCENE_COMPILING, SCENE_COMPILED, SCENE_DESTROYED. lia.
  - rewrite queue_addListener. split; [|split].
    + apply list_elem_of_fmap. eexists. split; [|apply elem_of_splice_in]. done.
    + apply splice_in_length.
    + intros t Ht. unfold addListener. by rewrite lookup_insert_ne.
Qed.

(** Bound to "scene-rendering", a function is queued for SCENE_COMPILING,
    and the queue of SCENE_RENDERING stays as it was. *)
Lemma SceneJS_bind_cases_witness :
  exists ev',
    SceneJS_bind "scene-rendering" 7 ∅ = Ok ev' /\
    event_of_name "scene-rendering" = Some SCENE_COMPILING /\
    ev' !! SCENE_RENDERING = (∅ : events) !! SCENE_RENDERING.
Proof.
  pose proof (SceneJS_bind_cases "scene-rendering" 7 ∅) as H.
  destruct (SceneJS_bind "scene-rendering" 7 ∅) as [ev'|e] eqn:Hb.
  - destruct H as (type & Hn & _ & _ & _ & _ & Hother).
    exists ev'. split; [done|]. split; [reflexivity|].
    apply Hother. injection Hn as <-. unfold SCENE_RENDERING, SCENE_COMPILING. lia.
  - destruct H as [Hn _]. discriminate Hn.
Defined.

Lemma addListener_default_last type func ev :
  default_priorities ev ->
  queue type (addListener type func None ev)
  = queue type ev ++ [Handler func (Z.of_nat (length (queue type ev)))].
Proof.
  intros Hdef. rewrite queue_addListener.
  rewrite <- (app_nil_r (queue type ev)) at 2.
  rewrite splice_in_behind; [done|].
  eapply Forall_impl; [apply (Hdef type)|]. simpl. intros; lia.
Qed.

Lemma addListener_default_priorities type func ev :
  default_priorities ev -> default_priorities (addListener type func None ev).
Proof.
  intros Hdef t. destruct (decide (t = type)) as [->|Hne].
  - rewrite addListener_default_last by done. rewrite length_app. simpl.
    apply Forall_app. split.
    + eapply Forall_impl; [apply (Hdef type)|]. simpl. intros; lia.
    + repeat constructor. simpl. lia.
  - rewrite queue_addListener_ne by done. apply Hdef.
Qed.

Lemma bind_all_queues (calls : list (string * nat)) : forall (ev ev' : events),
  default_priorities ev ->
  bind_all calls ev = Ok ev' ->
  default_priorities ev' /\
  forall type,
    map command (queue type ev') = map command (queue type ev) ++ bound_to type calls.
Proof.
  induction calls as [|[name func] calls IH]; intros ev ev' Hdef Hrun; simpl in Hrun.
  - injection Hrun as <-. split; [done|]. intros type. unfold bound_to. simpl.
    by rewrite app_nil_r.
  - unfold SceneJS_bind in Hrun.
    destruct (event_of_name name) as [ty|] eqn:Hn; [|done].
    destruct (IH _ _ (addListener_default_priorities ty func ev Hdef) Hrun) as [Hdef' Hq].
    split; [done|]. intros type. rewrite Hq. unfold bound_to.
    rewrite filter_cons. simpl. rewrite Hn.
    destruct (decide (Some ty = Some type)) as [[= ->]|Hne].
    + rewrite addListener_default_last by done. rewrite map_app. simpl.
      by rewrite <- app_assoc.
    + rewrite queue_addListener_ne; [done|]. congruence.
Qed.

(** X5.  Listeners bound by name are queued in the order they were bound:
    starting from queues in which every priority is below the queue length (as
    in the empty store), a sequence of [SceneJS.bind] calls that returns
    normally appends to the queue of each event type the functions bound to its
    names, in the order of the calls, and the queues are again of that kind. *)
Theorem SceneJS_bind_order (calls : list (string * nat)) : forall (ev ev' : events),
  default_priorities ev ->
  bind_all calls ev = Ok ev' ->
  default_priorities ev' /\
  forall type,
    map command (queue type ev') = map command (queue type ev) ++ bound_to type calls.
Proof.
  induction calls as [|[name func] calls IH]; intros ev ev' Hdef Hrun; simpl in Hrun.
  - injection Hrun as <-. split; [done|]. intros type. unfold bound_to. simpl.
    by rewrite app_nil_r.
  - unfold SceneJS_bind in Hrun.
    destruct (event_of_name name) as [ty|] eqn:Hn; [|done].
    destruct (IH _ _ (addListener_default_priorities ty func ev Hdef) Hrun) as [Hdef' Hq].
    split; [done|]. intros type. rewrite Hq. unfold bound_to.
    rewrite filter_cons. simpl. rewrite Hn.
    destruct (decide (Some ty = Some type)) as [[= ->]|Hne].
    + rewrite addListener_default_last by done. rewrite map_app. simpl.
      by rewrite <- app_assoc.
    + rewrite queue_addListener_ne; [done|]. congruence.
Qed.

(** Three functions bound, two of them to "reset". *)
Lemma SceneJS_bind_order_witness :
  exists ev', bind_all [("reset", 7%nat); ("error", 8%nat); ("reset", 9%nat)] ∅ = Ok ev' /\
              map command (queue RESET ev') = [7%nat; 9%nat].
Proof.
  eexists. split; [reflexivity|].
  edestruct (SceneJS_bind_order [("reset", 7%nat); ("error", 8%nat); ("reset", 9%nat)] ∅)
    as [_ Horder].
  - intros type. unfold queue. rewrite lookup_empty. constructor.
  - reflexivity.
  - exact (Horder RESET).
Defined.

(** X21.  Listeners bound by name are called in the order they were bound.
    When functions are bound by name on the empty store and none of those
    bound to an event type registers a listener for that type when it runs,
    [fireEvent] for the type returns, with fuel for one step more than there
    are listeners, after calling exactly the functions bound to the type's
    names, each once, in the order of the [SceneJS.bind] calls. *)
Theorem bind_all_fireEvent (body : nat -> list registration)
    (calls : list (string * nat)) (ev' : events) (type : nat) :
  bind_all calls ∅ = Ok ev' ->
  Forall (inert body type) (bound_to type calls) ->
  exists ev'',
    fireEvent body (S (length (bound_to type calls))) type (ev', [])
    = Some (ev'', bound_to type calls).
Proof.
  intros Hrun Hinert.
  assert (Hdef : default_priorities ∅).
  { intros t. unfold queue. rewrite lookup_empty. constructor. }
  destruct (bind_all_queues calls ∅ ev' Hdef Hrun) as [_ Hq].
  specialize (Hq type). unfold queue at 2 in Hq. rewrite lookup_empty in Hq.
  simpl in Hq.
  destruct (fireEvent_inert body type ev') as (ev'' & Hfire & _).
  { rewrite <- Hq in Hinert.
    by apply (proj1 (Forall_map command (inert body type) (queue type ev'))) in Hinert. }
  exists ev''. rewrite <- Hq, length_map. exact Hfire.
Qed.

Lemma bind_all_fireEvent_witness :
  exists ev' ev'',
    bind_all [("reset", 7%nat); ("error", 8%nat); ("reset", 9%nat)] ∅ = Ok ev' /\
    fireEvent (fun _ => []) 3 RESET (ev', []) = Some (ev'', [7%nat; 9%nat]).
Proof.
  exists (addListener RESET 9 None (addListener ERROR 8 None (addListener RESET 7 None ∅))).
  destruct (bind_all_fireEvent (fun _ => [])
              [("reset", 7%nat); ("error", 8%nat); ("reset", 9%nat)]
              (addListener RESET 9 None (addListener ERROR 8 None (addListener RESET 7 None ∅)))
              RESET)
    as (ev'' & Hfire).
  - reflexivity.
  - repeat constructor.
  - exists ev''. split; [reflexivity|exact Hfire].
Defined.

End EventsMore.

(** ** The morph-geometry module *)

Module MorphMore.
Import JS Morph ListFacts ObjFacts MorphFacts.
Local Open Scope js_scope.

(** *** Rendering *)




(** X7.  The listener evaluates once per dirty flag.  When it returns it
    has cleared the flag, and calling it again changes nothing; with the flag
    clear it does nothing at all; with the flag set it makes exactly one
    [setMorph] call, the one without arguments when the stack depth is zero or
    less.  It throws only a TypeError, only with the flag set and a positive
    depth, and then leaves the state, the flag included, as it was. *)
Theorem SCENE_RENDERING_once (s : State) :
  match SCENE_RENDERING s with
  | (Ok _, s1) =>
      dirty s1 = false /\
      SCENE_RENDERING s1 = (Ok tt, s1) /\
      (dirty s = false -> s1 = s) /\
      (dirty s = true ->
         exists call, rendered s1 = rendered s ++ [call] /\
                      (stackLen s <= 0 -> call = SetNullMorph))
  | (Throw e, s1) =>
      e = TypeError /\ s1 = s /\ dirty s = true /\ 0 < stackLen s
  end.
Proof.
  destruct (SCENE_RENDERING s) as [[[]|e] s1] eqn:Hr;
    unfold SCENE_RENDERING, bind, get, setMorph, modify in Hr; simpl in Hr;
    destruct (dirty s) eqn:Hd; try discriminate Hr.
  - destruct (Z.ltb_spec 0 (stackLen s)) as [Hpos|Hneg].
    + destruct (morphStack s !! (stackLen s - 1) ≫= (fun r => morphs s !! r))
        as [morph|]; simpl in Hr; [|done].
      injection Hr as <-.
      split; [done|]. split; [by apply SCENE_RENDERING_clean|]. split; [done|].
      intros _. eexists. split; [done|]. lia.
    + simpl in Hr. injection Hr as <-.
      split; [done|]. split; [by apply SCENE_RENDERING_clean|]. split; [done|].
      intros _. by eexists.
  - injection Hr as <-.
    split; [done|]. split; [by apply SCENE_RENDERING_clean|]. split; done.
  - destruct (Z.ltb_spec 0 (stackLen s)) as [Hpos|Hneg]; [|done].
    destruct (morphStack s !! (stackLen s - 1) ≫= (fun r => morphs s !! r))
      as [morph|]; simpl in Hr; [done|].
    by injection Hr as <- <-.
Qed.

Lemma SCENE_RENDERING_once_witness :
  let s := snd (popMorphGeometry (initial [])) in
  rendered (snd (SCENE_RENDERING s)) = [SetNullMorph] /\
  SCENE_RENDERING (snd (SCENE_RENDERING s)) = (Ok tt, snd (SCENE_RENDERING s)).
Proof.
  intros s. pose proof (SCENE_RENDERING_once s) as H.
  destruct (SCENE_RENDERING s) as [[[]|e] s1] eqn:Hr; [|discriminate Hr].
  destruct H as (_ & Hagain & _ & Hcall). split; [|exact Hagain].
  destruct (Hcall eq_refl) as (call & Hrend & Hnull). simpl.
  rewrite Hrend, Hnull; [reflexivity|]. simpl. lia.
Defined.

(** *** The stack *)

Lemma pushMorphGeometry_Ok id handle factor s mapref r :
  currentMorphs s = Some mapref ->
  entry mapref (h_resource handle) s = Some r ->
  pushMorphGeometry id handle factor s = (Ok tt, pushed id r factor s).
Proof.
  intros Hc He. unfold pushMorphGeometry, bind, get. simpl. by rewrite Hc, He.
Qed.

(** [pushMorphGeometry] returns normally only in the way of the lemma
    above; otherwise it throws a TypeError and changes nothing. *)
Lemma pushMorphGeometry_cases id handle factor s :
  (exists mapref r, currentMorphs s = Some mapref /\
                    entry mapref (h_resource handle) s = Some r /\
                    pushMorphGeometry id handle factor s = (Ok tt, pushed id r factor s)) \/
  pushMorphGeometry id handle factor s = (Throw TypeError, s).
Proof.
  unfold pushMorphGeometry, bind, get. simpl.
  destruct (currentMorphs s) as [mapref|]; [|by right].
  destruct (entry mapref (h_resource handle) s) as [r|] eqn:He; [|by right].
  left. by exists mapref, r.
Qed.

(** X8.  A push followed by a pop restores the depth and leaves every slot
    of the two stack arrays other than the one at the old depth as it was; the
    dirty flag is set, and the morph maps, the buffers and the canvases are not
    touched.  (The factor written into the morph object stays.) *)
Theorem push_pop_restores (id : string) (handle : Handle) (factor : Q) (s s1 : State) :
  pushMorphGeometry id handle factor s = (Ok tt, s1) ->
  exists s2,
    popMorphGeometry s1 = (Ok tt, s2) /\
    stackLen s2 = stackLen s /\ dirty s2 = true /\
    (forall i, i ≠ stackLen s ->
       idStack s2 !! i = idStack s !! i /\ morphStack s2 !! i = morphStack s !! i) /\
    canvas s2 = canvas s /\ canvasMorphs s2 = canvasMorphs s /\
    currentMorphs s2 = currentMorphs s /\ maps s2 = maps s /\ buffers s2 = buffers s.
Proof.
  intros Hpush.
  destruct (pushMorphGeometry_cases id handle factor s) as [(mapref & r & _ & _ & Hp)|Hp];
    rewrite Hp in Hpush; [|done].
  injection Hpush as <-. eexists. split; [apply popMorphGeometry_eq|]. simpl.
  split; [lia|]. split; [done|]. split; [|done].
  intros i Hi. by rewrite !lookup_insert_ne.
Qed.

Lemma push_pop_restores_witness :
  let cv := {| canvasId := "c"; context := 1 |} in
  let s0 := snd (SCENE_COMPILING cv (initial ["c"])) in
  let t := {| positions := Some [0; 1; 2]%Q; normals := None; uv := None; uv2 := None |} in
  let data := {| d_keys := [0; 1]%Q; d_targets := [t; t] |} in
  let s := snd (createMorphGeometry (fun _ _ => false) (fun _ p => p)
                  (Some "r") (Inline data) true s0) in
  let h := {| h_canvasId := "c"; h_resource := "r" |} in
  exists s1 s2,
    pushMorphGeometry "n" h (1 # 2) s = (Ok tt, s1) /\
    popMorphGeometry s1 = (Ok tt, s2) /\ stackLen s2 = 0 /\ dirty s2 = true.
Proof.
  intros cv s0 t data s h.
  destruct (push_pop_restores "n" h (1 # 2) s (snd (pushMorphGeometry "n" h (1 # 2) s)))
    as (s2 & Hpop & Hlen & Hd & _); [reflexivity|].
  eexists _, s2. split; [reflexivity|]. split; [exact Hpop|]. split; [exact Hlen|exact Hd].
Defined.

(** X9.  The factor lives in the morph object, which every frame of the
    same resource shares, not in the stack.  When a resource is pushed with
    factor [f1], pushed again (by a nested node) with factor [f2], and popped
    once, the frame on top is the outer one, with its node id, but the
    listener blends it with [f2]. *)
Theorem nested_push_shares_factor (id1 id2 : string) (handle : Handle) (f1 f2 : Q)
    (s : State) (mapref r : nat) (m : MorphObj) :
  currentMorphs s = Some mapref ->
  entry mapref (h_resource handle) s = Some r ->
  morphs s !! r = Some m ->
  0 <= stackLen s ->
  exists s1 s2 s3 s4,
    pushMorphGeometry id1 handle f1 s = (Ok tt, s1) /\
    pushMorphGeometry id2 handle f2 s1 = (Ok tt, s2) /\
    popMorphGeometry s2 = (Ok tt, s3) /\
    SCENE_RENDERING s3 = (Ok tt, s4) /\
    rendered s4 = rendered s ++ [blend (Some id1) (set_factor f2 m)].
Proof.
  intros Hc He Hm Hlen.
  exists (pushed id1 r f1 s), (pushed id2 r f2 (pushed id1 r f1 s)).
  eexists _, _. split; [by eapply pushMorphGeometry_Ok|].
  split; [by eapply pushMorphGeometry_Ok|].
  split; [apply popMorphGeometry_eq|].
  split.
  - apply (SCENE_RENDERING_blend _ r (set_factor f2 m)); simpl.
    + done.
    + lia.
    + replace (stackLen s + 1 + 1 - 1 - 1) with (stackLen s) by lia.
      rewrite lookup_insert_ne by lia. by rewrite lookup_insert_eq.
    + rewrite !list_lookup_alter_eq, Hm. done.
  - simpl. replace (stackLen s + 1 + 1 - 1 - 1) with (stackLen s) by lia.
    rewrite lookup_insert_ne by lia. by rewrite lookup_insert_eq.
Qed.

Lemma nested_push_shares_factor_witness :
  let cv := {| canvasId := "c"; context := 1 |} in
  let s0 := snd (SCENE_COMPILING cv (initial ["c"])) in
  let t := {| positions := Some [0; 1; 2]%Q; normals := None; uv := None; uv2 := None |} in
  let data := {| d_keys := [0; 1]%Q; d_targets := [t; t] |} in
  let s := snd (createMorphGeometry (fun _ _ => false) (fun _ p => p)
                  (Some "r") (Inline data) true s0) in
  let h := {| h_canvasId := "c"; h_resource := "r" |} in
  let m := {| m_canvas := cv; m_resource := "r"; m_keys := [0; 1]%Q;
              m_targets := [Build_Target (Some 0%nat) None None None;
                            Build_Target (Some 1%nat) None None None];
              m_factor := None |} in
  exists s1 s2 s3 s4,
    pushMorphGeometry "outer" h (1 # 4) s = (Ok tt, s1) /\
    pushMorphGeometry "inner" h (3 # 4) s1 = (Ok tt, s2) /\
    popMorphGeometry s2 = (Ok tt, s3) /\
    SCENE_RENDERING s3 = (Ok tt, s4) /\
    rendered s4 = [blend (Some "outer") (set_factor (3 # 4) m)].
Proof.
  intros cv s0 t data s h m.
  apply (nested_push_shares_factor "outer" "inner" h (1 # 4) (3 # 4) s 0%nat 0%nat m);
    [reflexivity|reflexivity|reflexivity|simpl; lia].
Defined.

(** *** Creation *)

Section Creation.

Variable alloc_throws : list Buffer -> list Q -> bool.
Variable _createKeyForMap : option (obj (option nat)) -> string -> string.

(** The loop body, when it does not throw, makes one buffer for each array
    that is there and not empty. *)
Lemma alloc_target_count ctx t s nt s1 :
  alloc_target alloc_throws ctx t s = ((nt, None), s1) ->
  length (buffers s1) = (length (buffers s) + wanted t)%nat.
Proof.
  intros H. destruct s as [cv cm cur ids ms sl d mp mo bs doc rd].
  destruct t as [[[|? ?]|] [[|? ?]|] [[|? ?]|] [[|? ?]|]];
    unfold alloc_target, and_then, alloc_field, new_ArrayBuffer in H; simpl in H;
    repeat match type of H with
           | context [alloc_throws ?a ?b] => destruct (alloc_throws a b) eqn:?; simpl in H
           end;
    try discriminate H;
    injection H as <- <-; simpl; rewrite ?length_app; simpl; unfold wanted; simpl; lia.
Qed.

Lemma alloc_targets_count ctx ts : forall acc s targets s1,
  alloc_targets alloc_throws ctx ts acc s = ((targets, None), s1) ->
  length targets = (length acc + length ts)%nat /\
  length (buffers s1) = (length (buffers s) + wanted_total ts)%nat.
Proof.
  induction ts as [|t ts IH]; intros acc s targets s1 H; simpl in H.
  - injection H as <- <-. simpl. lia.
  - destruct (alloc_target alloc_throws ctx t s) as [[nt [e|]] s'] eqn:Ht; [done|].
    apply alloc_target_count in Ht. apply IH in H as [Hl Hb].
    rewrite length_app in Hl. simpl in *. lia.
Qed.

(** What a [_createMorph] that returns has done. *)
Lemma _createMorph_Ok resource data options s h s' :
  _createMorph alloc_throws resource data options s = (Ok h, s') ->
  exists cv mapref targets new,
    canvas s = Some cv /\ currentMorphs s = Some mapref /\
    h = {| h_canvasId := canvasId cv; h_resource := resource |} /\
    s' = register_morph mapref
           {| m_canvas := cv; m_resource := resource; m_keys := d_keys data;
              m_targets := targets; m_factor := None |}
           (set_buffers (buffers s ++ new) s) /\
    Forall (fun b => buf_alive b = true) new /\
    all_refs targets = seq (length (buffers s)) (length new) /\
    length targets = length (d_targets data) /\
    length new = wanted_total (d_targets data).
Proof.
  unfold _createMorph, bind, get. simpl. destruct (canvas s) as [cv|] eqn:Hcv; [|done].
  destruct (alloc_targets alloc_throws (context cv) (d_targets data) [] s)
    as [[targets thrown] s1] eqn:Hal.
  destruct (alloc_targets_spec _ _ _ _ _ _ _ _ Hal) as (new & -> & Halive & Hrefs).
  destruct thrown as [e|]; simpl.
  { rewrite release_targets_kills. done. }
  apply alloc_targets_count in Hal as [Hlen Hcount]. simpl in Hcount, Hrefs.
  rewrite length_app in Hcount.
  destruct (currentMorphs s) as [mapref|] eqn:Hcur.
  - intros [= <- <-]. exists cv, mapref, targets, new. repeat split; try done. lia.
  - rewrite release_targets_kills. done.
Qed.

Lemma wanted_total_typed ts : wanted_total (map createTypedArrays ts) = wanted_total ts.
Proof. induction ts as [|[? ? ? ?] ts IH]; simpl; [done|]. by rewrite IH. Qed.

(** X10.  What a successful [createMorphGeometry] from targets leaves.
    There is an active canvas and a current morph map; the handle names that
    canvas and the resource id (the one given, if any).  The map now files,
    under that id, a morph with the keys given, one target per source target
    and no factor yet; its other entries are as before.  One buffer was made
    for each array that is there and not empty, and no other: all of them are
    alive, the morph's targets refer to exactly these, and the buffers that
    existed are untouched.  (The map reference is taken to name a map.) *)
Theorem createMorphGeometry_registers (resource : option string) (data : MorphData)
    (options : bool) (s s' : State) (oh : option Handle) :
  (forall mapref, currentMorphs s = Some mapref -> (mapref < length (maps s))%nat) ->
  createMorphGeometry alloc_throws _createKeyForMap resource (Inline data) options s
  = (Ok oh, s') ->
  exists h cv mapref r m new,
    oh = Some h /\
    canvas s = Some cv /\ currentMorphs s = Some mapref /\
    h_canvasId h = canvasId cv /\
    (forall res, truthy resource = Some res -> h_resource h = res) /\
    entry mapref (h_resource h) s' = Some r /\
    (forall k, k ≠ h_resource h -> entry mapref k s' = entry mapref k s) /\
    morphs s' !! r = Some m /\
    m_canvas m = cv /\ m_resource m = h_resource h /\ m_keys m = d_keys data /\
    length (m_targets m) = length (d_targets data) /\ m_factor m = None /\
    buffers s' = buffers s ++ new /\
    Forall (fun b => buf_alive b = true) new /\
    length new = wanted_total (d_targets data) /\
    all_refs (m_targets m) = seq (length (buffers s)) (length new) /\
    canvas s' = canvas s /\ canvasMorphs s' = canvasMorphs s /\
    currentMorphs s' = currentMorphs s /\ stackLen s' = stackLen s.
Proof.
  intros Hvalid. unfold createMorphGeometry, bind, get. simpl.
  match goal with
  | |- context [_createMorph _ ?res ?d ?o s] =>
      set (rid := res);
      destruct (_createMorph alloc_throws rid d o s) as [[h|e0] s0] eqn:Hc
  end; [|done].
  intros [= <- <-].
  destruct (_createMorph_Ok _ _ _ _ _ _ Hc)
    as (cv & mapref & targets & new & Hcv & Hcur & -> & -> & Halive & Hrefs & Hlen & Hnew).
  simpl in Hlen, Hnew. rewrite length_map in Hlen. rewrite wanted_total_typed in Hnew.
  specialize (Hvalid mapref Hcur).
  destruct (lookup_lt_is_Some_2 (maps s) mapref Hvalid) as [o Ho].
  eexists _, cv, mapref, (length (morphs s)), _, new.
  split; [done|]. split; [done|]. split; [done|]. split; [done|]. split.
  { intros res Hres. simpl. unfold rid. by rewrite Hres. }
  split.
  { unfold entry, register_morph. simpl. rewrite list_lookup_alter_eq, Ho. simpl.
    by rewrite obj_get_set_eq. }
  split.
  { intros k Hk. unfold entry, register_morph. simpl.
    rewrite list_lookup_alter_eq, Ho. simpl. rewrite obj_get_set_ne; [done|].
    intros Heq. apply Hk. by rewrite <- Heq. }
  split.
  { unfold register_morph. simpl. by apply list_lookup_middle. }
  simpl. repeat split; done.
Qed.

End Creation.

Lemma createMorphGeometry_registers_witness :
  let cv := {| canvasId := "c"; context := 1 |} in
  let s0 := snd (SCENE_COMPILING cv (initial ["c"])) in
  let t := {| positions := Some [0; 1; 2]%Q; normals := Some []; uv := None; uv2 := None |} in
  let data := {| d_keys := [0; 1]%Q; d_targets := [t; t] |} in
  let r := createMorphGeometry (fun _ _ => false) (fun _ p => p)
             (Some "r") (Inline data) true s0 in
  fst r = Ok (Some {| h_canvasId := "c"; h_resource := "r" |}) /\
  exists new, buffers (snd r) = buffers s0 ++ new /\ length new = 2%nat.
Proof.
  intros cv s0 t data r. split; [reflexivity|].
  destruct (createMorphGeometry_registers (fun _ _ => false) (fun _ p => p)
              (Some "r") data true s0 (snd r)
              (Some {| h_canvasId := "c"; h_resource := "r" |}))
    as (h & cv' & mapref & r0 & m & new & _ & _ & _ & _ & _ & _ & _ & _ & _ & _ & _ & _ & _
        & Hb & _ & Hn & _).
  - intros mapref [= <-]. simpl. lia.
  - reflexivity.
  - exists new. split; [exact Hb|exact Hn].
Defined.

Section RoundTrip.

Variable alloc_throws : list Buffer -> list Q -> bool.
Variable _createKeyForMap : option (obj (option nat)) -> string -> string.

(** The state a successful [createMorphGeometry] from targets leaves. *)
Lemma createMorphGeometry_state resource data options s oh s' :
  createMorphGeometry alloc_throws _createKeyForMap resource (Inline data) options s
  = (Ok oh, s') ->
  exists cv mapref rid targets new,
    oh = Some {| h_canvasId := canvasId cv; h_resource := rid |} /\
    canvas s = Some cv /\ currentMorphs s = Some mapref /\
    s' = register_morph mapref
           {| m_canvas := cv; m_resource := rid; m_keys := d_keys data;
              m_targets := targets; m_factor := None |}
           (set_buffers (buffers s ++ new) s) /\
    all_refs targets = seq (length (buffers s)) (length new).
Proof.
  unfold createMorphGeometry, bind, get. simpl.
  match goal with
  | |- context [_createMorph _ ?res ?d ?o s] =>
      set (rid := res);
      destruct (_createMorph alloc_throws rid d o s) as [[h|e0] s0] eqn:Hc
  end; [|done].
  intros [= <- <-].
  destruct (_createMorph_Ok _ _ _ _ _ _ _ Hc)
    as (cv & mapref & targets & new & Hcv & Hcur & -> & -> & _ & Hrefs & _ & _).
  by exists cv, mapref, rid, targets, new.
Qed.

(** X11.  Create, then destroy.  On an active canvas whose element is in
    the document, a morph made by [createMorphGeometry] is destroyed by
    [destroyMorphGeometry] of its handle: the buffers alive afterwards are
    those that were alive before the creation, the entry of the morph map is
    [null], the other entries are as they were before the creation, and a
    second [destroyMorphGeometry] fails. *)
Theorem create_then_destroy (resource : option string) (data : MorphData)
    (options : bool) (s s' : State) (h : Handle) (cv : Canvas) (mapref : nat) :
  active cv mapref s ->
  getElementById (canvasId cv) (document s) = true ->
  createMorphGeometry alloc_throws _createKeyForMap resource (Inline data) options s
  = (Ok (Some h), s') ->
  exists s'',
    destroyMorphGeometry h s' = (Ok tt, s'') /\
    live (buffers s'') = live (buffers s) /\
    entry mapref (h_resource h) s'' = None /\
    (forall k, k ≠ h_resource h -> entry mapref k s'' = entry mapref k s) /\
    destroyMorphGeometry h s'' = (Throw (not_found h), s'').
Proof.
  intros (Hcv & Hcur & Hcm & Hlt) Hdoc Hcreate.
  destruct (createMorphGeometry_state _ _ _ _ _ _ Hcreate)
    as (cv' & mapref' & rid & targets & new & [= ->] & Hcv' & Hcur' & -> & Hrefs).
  rewrite Hcv in Hcv'. injection Hcv' as <-. rewrite Hcur in Hcur'. injection Hcur' as <-.
  destruct (lookup_lt_is_Some_2 (maps s) mapref Hlt) as [o Ho].
  set (m := {| m_canvas := cv; m_resource := rid; m_keys := d_keys data;
               m_targets := targets; m_factor := None |}).
  set (s1 := register_morph mapref m (set_buffers (buffers s ++ new) s)).
  assert (He : entry mapref rid s1 = Some (length (morphs s))).
  { unfold entry, s1, register_morph. simpl. rewrite list_lookup_alter_eq, Ho. simpl.
    by rewrite obj_get_set_eq. }
  assert (Hm : morphs s1 !! length (morphs s) = Some m).
  { unfold s1, register_morph. simpl. by apply list_lookup_middle. }
  assert (Hd : destroyMorphGeometry {| h_canvasId := canvasId cv; h_resource := rid |} s1
               = (Ok tt, nulled m (released m s1))).
  { unfold destroyMorphGeometry, bind, get. simpl. rewrite Hcm, He.
    by apply destroyMorph_Some. }
  assert (Hs2 : nulled m (released m s1)
                = set_maps (alter (obj_set rid None) mapref (maps s1))
                    (set_buffers (buffers s ++ map kill new) s1)).
  { unfold nulled, released. simpl. rewrite Hdoc. simpl. rewrite Hcm.
    by rewrite Hrefs, kill_all_new. }
  exists (nulled m (released m s1)). split; [exact Hd|]. rewrite Hs2. simpl.
  assert (Hnull : forall k,
            entry mapref k (set_maps (alter (obj_set rid None) mapref (maps s1))
                              (set_buffers (buffers s ++ map kill new) s1))
            = if decide (k = rid) then None else entry mapref k s).
  { intros k. unfold entry. simpl. rewrite !list_lookup_alter_eq, Ho. simpl.
    destruct (decide (k = rid)) as [->|Hk].
    - by rewrite obj_get_set_eq.
    - rewrite !obj_get_set_ne; [done| |]; intros ->; done. }
  split; [apply live_app_dead, Forall_dead|]. split.
  { rewrite Hnull. by rewrite decide_True. }
  split.
  { intros k Hk. rewrite Hnull. by rewrite decide_False. }
  unfold destroyMorphGeometry, bind, get. simpl. rewrite Hcm, Hnull.
  by rewrite decide_True.
Qed.

End RoundTrip.

Lemma create_then_destroy_witness :
  let cv := {| canvasId := "c"; context := 1 |} in
  let s0 := snd (SCENE_COMPILING cv (initial ["c"])) in
  let t := {| positions := Some [0; 1; 2]%Q; normals := None; uv := None; uv2 := None |} in
  let data := {| d_keys := [0; 1]%Q; d_targets := [t; t] |} in
  let r := createMorphGeometry (fun _ _ => false) (fun _ p => p)
             (Some "r") (Inline data) true s0 in
  let h := {| h_canvasId := "c"; h_resource := "r" |} in
  length (live (buffers (snd r))) = 2%nat /\
  exists s'', destroyMorphGeometry h (snd r) = (Ok tt, s'') /\ live (buffers s'') = [].
Proof.
  intros cv s0 t data r h. split; [reflexivity|].
  destruct (create_then_destroy (fun _ _ => false) (fun _ p => p)
              (Some "r") data true s0 (snd r) h cv 0%nat)
    as (s'' & Hd & Hlive & _).
  - repeat split. simpl. lia.
  - reflexivity.
  - reflexivity.
  - exists s''. split; [exact Hd|exact Hlive].
Defined.

(** *** RESET when nothing was destroyed *)

Lemma quiet_refl s : quiet s s.
Proof. by repeat split. Qed.

Lemma quiet_trans s1 s2 s3 : quiet s1 s2 -> quiet s2 s3 -> quiet s1 s3.
Proof.
  intros (A1 & A2 & A3 & A4 & A5 & A6 & A7 & A8 & A9)
         (B1 & B2 & B3 & B4 & B5 & B6 & B7 & B8 & B9).
  repeat split; try congruence. intros b Hb. by apply B9, A9.
Qed.

Lemma kill_all_length refs : forall bs, length (kill_all refs bs) = length bs.
Proof.
  unfold kill_all. induction refs as [|r refs IH]; intros bs; simpl; [done|].
  by rewrite IH, length_alter.
Qed.

Lemma kill_all_keeps_dead refs bs b :
  buf_alive <$> bs !! b ≠ Some true -> buf_alive <$> kill_all refs bs !! b ≠ Some true.
Proof.
  intros Hb. rewrite kill_all_lookup. destruct (bool_decide (b ∈ refs)); [|done].
  by destruct (bs !! b).
Qed.

(** Destroying the morph of a live entry: only that entry and the morph's
    buffers change. *)
Lemma destroy_live_entry mr k s :
  live_entry mr k s ->
  exists r m s',
    entry mr k s = Some r /\ morphs s !! r = Some m /\
    destroyMorph (entry mr k s) s = (Ok tt, s') /\
    quiet s s' /\
    maps s' = alter (obj_set k None) mr (maps s) /\
    (getElementById (canvasId (m_canvas m)) (document s) = true ->
       forall b, b ∈ all_refs (m_targets m) -> dead b s').
Proof.
  intros (r & m & He & Hm & Hk & Hc). exists r, m, (nulled m (released m s)).
  split; [done|]. split; [done|]. split; [rewrite He; by apply destroyMorph_Some|].
  destruct (released_frame m s) as (Hrc & Hrm & Hrmo & Hrd).
  unfold nulled. rewrite Hrc, Hc, Hk. simpl. rewrite Hrm.
  unfold released. destruct (getElementById (canvasId (m_canvas m)) (document s)); simpl.
  - split; [|split; [done|]].
    + repeat split; try done; [apply kill_all_length|].
      intros b Hb. by apply kill_all_keeps_dead.
    + intros _ b Hb. by apply kill_all_dead.
  - split; [by repeat split|]. split; [done|done].
Qed.

Lemma entry_other_key mr mr' k k0 v s s' :
  maps s' = alter (obj_set k0 v) mr' (maps s) ->
  k ≠ k0 -> entry mr k s' = entry mr k s.
Proof.
  intros Hmaps Hk. unfold entry. rewrite Hmaps.
  destruct (decide (mr' = mr)) as [->|Hne].
  - rewrite list_lookup_alter_eq. destruct (maps s !! mr) as [o|]; simpl; [|done].
    rewrite obj_get_set_ne; [done|]. intros ->. done.
  - by rewrite list_lookup_alter_ne.
Qed.

Lemma entry_same_map mr k s s' :
  maps s' !! mr = maps s !! mr -> entry mr k s' = entry mr k s.
Proof. intros Hm. unfold entry. by rewrite Hm. Qed.

Lemma entry_key mr k r s : entry mr k s = Some r -> k ∈ obj_keys (default [] (maps s !! mr)).
Proof.
  unfold entry. intros He.
  destruct (obj_get k (default [] (maps s !! mr))) as [v|] eqn:Hg; [|done].
  by eapply obj_get_keys.
Qed.

(** The inner loop of RESET over a morph map whose entries are live. *)
Lemma reset_inner mr ks :
  NoDup ks -> forall s,
  (forall k, k ∈ ks -> live_entry mr k s) ->
  exists s',
    for_each ks (fun resource => s <- get ;; destroyMorph (entry mr resource s)) s
    = (Ok tt, s') /\
    quiet s s' /\
    (forall mr', mr' ≠ mr -> maps s' !! mr' = maps s !! mr') /\
    (forall k r m,
       k ∈ ks -> entry mr k s = Some r -> morphs s !! r = Some m ->
       getElementById (canvasId (m_canvas m)) (document s) = true ->
       forall b, b ∈ all_refs (m_targets m) -> dead b s').
Proof.
  induction 1 as [|k0 ks Hk0 Hks IH]; intros s Hlive.
  - exists s. split; [done|]. split; [apply quiet_refl|]. split; [done|].
    intros k r m Hk. by apply elem_of_nil in Hk.
  - destruct (destroy_live_entry mr k0 s (Hlive k0 ltac:(left)))
      as (r0 & m0 & s1 & He0 & Hm0 & Hd & Hq & Hmaps & Hdead).
    assert (Hother : forall k, k ∈ ks -> entry mr k s1 = entry mr k s).
    { intros k Hk. apply (entry_other_key mr mr k k0 None s s1 Hmaps).
      intros ->. done. }
    destruct Hq as (Q1 & Q2 & Q3 & Q4 & Q5 & Q6 & Q7 & Q8 & Q9).
    destruct (IH s1) as (s' & Hrun & Hq' & Hmaps' & Hdead').
    { intros k Hk. destruct (Hlive k ltac:(by right)) as (r & m & He & Hm & Hres & Hc).
      exists r, m. rewrite (Hother k Hk), Q5, Q2. done. }
    exists s'. split.
    { simpl. unfold bind at 1. unfold bind at 1. unfold get at 1. simpl. by rewrite Hd. }
    split; [by apply (quiet_trans s s1 s')|]. split.
    { intros mr' Hne. rewrite (Hmaps' mr' Hne), Hmaps. by rewrite list_lookup_alter_ne. }
    intros k r m Hk He Hm Hdoc b Hb.
    apply elem_of_cons in Hk as [->|Hk].
    + rewrite He0 in He. injection He as <-. rewrite Hm0 in Hm. injection Hm as <-.
      destruct Hq' as (_ & _ & _ & _ & _ & _ & _ & _ & Hmono).
      apply Hmono. by apply Hdead.
    + apply (Hdead' k r m); try done.
      * by rewrite (Hother k Hk).
      * by rewrite Q5.
      * by rewrite Q6.
Qed.

Lemma all_live_frame mr s s' :
  quiet s s' -> maps s' !! mr = maps s !! mr -> all_live mr s -> all_live mr s'.
Proof.
  intros (Q1 & Q2 & Q3 & Q4 & Q5 & Q6 & Q7 & Q8 & Q9) Hm [Hnd Hl].
  unfold all_live. rewrite Hm. split; [done|].
  intros k Hk. destruct (Hl k Hk) as (r & m & He & Hr & Hres & Hc).
  exists r, m. by rewrite (entry_same_map mr k s s' Hm), Q5, Q2.
Qed.

(** The outer loop of RESET over canvases that have a morph map each. *)
Lemma reset_outer (cs : list (string * nat)) :
  NoDup cs.*2 -> forall s,
  (forall cid mr, (cid, mr) ∈ cs -> all_live mr s) ->
  exists s',
    for_each cs (fun '(_, mapref) =>
      s <- get ;;
      for_each (obj_keys (default [] (maps s !! mapref))) (fun resource =>
        s <- get ;;
        destroyMorph (entry mapref resource s))) s = (Ok tt, s') /\
    quiet s s' /\
    (forall cid mr k r m,
       (cid, mr) ∈ cs -> entry mr k s = Some r -> morphs s !! r = Some m ->
       getElementById (canvasId (m_canvas m)) (document s) = true ->
       forall b, b ∈ all_refs (m_targets m) -> dead b s').
Proof.
  induction cs as [|[cid0 mr0] cs IH]; intros Hnd s Hlive.
  - exists s. split; [done|]. split; [apply quiet_refl|].
    intros cid mr k r m Hin. by apply elem_of_nil in Hin.
  - simpl in Hnd. apply NoDup_cons in Hnd as [Hmr0 Hnd].
    destruct (Hlive cid0 mr0 ltac:(left)) as [Hkeys Hentries].
    destruct (reset_inner mr0 _ Hkeys s Hentries) as (s1 & Hrun1 & Hq1 & Hmaps1 & Hdead1).
    assert (Hother : forall cid mr, (cid, mr) ∈ cs -> maps s1 !! mr = maps s !! mr).
    { intros cid mr Hin. apply Hmaps1. intros ->. apply Hmr0.
      apply list_elem_of_fmap. by exists (cid, mr0). }
    destruct (IH Hnd s1) as (s' & Hrun & Hq & Hdead).
    { intros cid mr Hin. apply (all_live_frame mr s s1 Hq1 (Hother cid mr Hin)).
      apply (Hlive cid mr). by right. }
    exists s'. split.
    { simpl. unfold bind at 1. unfold bind at 1. unfold get at 1. simpl.
      rewrite Hrun1. exact Hrun. }
    split; [by apply (quiet_trans s s1 s')|].
    intros cid mr k r m Hin He Hm Hdoc b Hb.
    pose proof Hq1 as (Q1 & Q2 & Q3 & Q4 & Q5 & Q6 & Q7 & Q8 & Q9).
    apply elem_of_cons in Hin as [[= -> ->]|Hin].
    + destruct Hq as (_ & _ & _ & _ & _ & _ & _ & _ & Hmono). apply Hmono.
      apply (Hdead1 k r m); try done. by eapply entry_key.
    + apply (Hdead cid mr k r m); try done.
      * by rewrite (entry_same_map mr k s s1 (Hother cid mr Hin)).
      * by rewrite Q5.
      * by rewrite Q6.
Qed.

(** X12. RESET returns normally when every entry of every canvas's morph map
    still holds its morph (nothing was destroyed since it was created): it
    then forgets the canvas, all morph maps and the stack, and every buffer
    of every tracked morph whose canvas element is still in the document has
    been destroyed; no buffer is allocated and the dirty flag is kept. *)
Theorem RESET_destroys_all s :
  NoDup (canvasMorphs s).*2 ->
  (forall cid mr, (cid, mr) ∈ canvasMorphs s -> all_live mr s) ->
  exists s',
    RESET s = (Ok tt, s') /\
    canvas s' = None /\ canvasMorphs s' = [] /\ currentMorphs s' = None /\
    stackLen s' = 0 /\ dirty s' = dirty s /\
    length (buffers s') = length (buffers s) /\
    (forall cid mr k r m,
       (cid, mr) ∈ canvasMorphs s -> entry mr k s = Some r -> morphs s !! r = Some m ->
       getElementById (canvasId (m_canvas m)) (document s) = true ->
       forall b, b ∈ all_refs (m_targets m) -> dead b s').
Proof.
  intros Hnd Hlive.
  destruct (reset_outer (canvasMorphs s) Hnd s Hlive) as (s1 & Hrun & Hq & Hdead).
  destruct Hq as (Q1 & Q2 & Q3 & Q4 & Q5 & Q6 & Q7 & Q8 & Q9).
  eexists. split.
  { unfold RESET. unfold bind at 1. unfold get at 1. cbv beta.
    unfold bind at 1. rewrite Hrun. reflexivity. }
  simpl. repeat split; done.
Qed.

Lemma RESET_destroys_all_witness :
  let cv := {| canvasId := "c"; context := 1 |} in
  let s0 := snd (SCENE_COMPILING cv (initial ["c"])) in
  let t := {| positions := Some [0; 1; 2]%Q; normals := None; uv := None; uv2 := None |} in
  let data := {| d_keys := [0; 1]%Q; d_targets := [t; t] |} in
  let s := snd (createMorphGeometry (fun _ _ => false) (fun _ p => p)
                  (Some "r") (Inline data) true s0) in
  length (live (buffers s)) = 2%nat /\
  exists s', RESET s = (Ok tt, s') /\ canvasMorphs s' = [] /\ live (buffers s') = [].
Proof.
  intros cv s0 t data s. split; [reflexivity|].
  destruct (RESET_destroys_all s) as (s' & Hr & _ & Hc & _).
  - exact (NoDup_singleton 0%nat).
  - intros cid mr Hin. change (canvasMorphs s) with [("c", 0%nat)] in Hin.
    apply elem_of_cons in Hin as [[= -> ->]|Hin]; [|by apply elem_of_nil in Hin].
    split.
    + exact (NoDup_singleton "r").
    + intros k Hk. change (obj_keys (default [] (maps s !! 0%nat))) with ["r"] in Hk.
      apply elem_of_cons in Hk as [->|Hk]; [|by apply elem_of_nil in Hk].
      eexists 0%nat, _. repeat split; reflexivity.
  - exists s'. split; [exact Hr|]. split; [exact Hc|].
    assert (Heq : s' = snd (RESET s)) by (by rewrite Hr).
    rewrite Heq. reflexivity.
Defined.

(** *** The node type *)

Lemma first_of_loop (f : TargetData -> option (list Q)) ts : forall acc,
  fold_left (fun found t => match found with Some a => Some a | None => f t end) ts acc
  = match acc with Some a => Some a | None => head (omap f ts) end.
Proof.
  induction ts as [|t ts IH]; intros acc; simpl.
  - by destruct acc.
  - rewrite IH. destruct acc; [done|]. by destruct (f t).
Qed.

Lemma first_of_head f ts : first_of f ts = head (omap f ts).
Proof. unfold first_of. by rewrite first_of_loop. Qed.

Lemma head_omap_Some (f : TargetData -> option (list Q)) ts :
  is_Some (head (omap f ts)) <-> exists t, t ∈ ts /\ is_Some (f t).
Proof.
  induction ts as [|t ts IH]; simpl.
  - split; [by intros [? ?]|]. intros (t & Ht & _). by apply elem_of_nil in Ht.
  - destruct (f t) as [a|] eqn:Hf; simpl.
    + split; [|by eexists]. intros _. exists t. split; [by left|]. by rewrite Hf.
    + rewrite IH. split.
      * intros (t0 & Hin & Hs). exists t0. split; [by right|done].
      * intros (t0 & Hin & Hs). apply elem_of_cons in Hin as [->|Hin].
        -- rewrite Hf in Hs. by destruct Hs.
        -- by exists t0.
Qed.

Lemma fill_target_field f ts t :
  f ∈ [positions; normals; uv; uv2] ->
  f (fill_target ts t) = or_default (f t) (first_of f ts).
Proof.
  rewrite !elem_of_cons, elem_of_nil. intros [->|[->|[->|[->|[]]]]]; done.
Qed.

(** X13.  What a [_setMorph] that returns has stored.  There were at least
    two targets and as many keys; the keys are stored as given and there is
    one stored target per given target.  For each of the four kinds of array,
    a target that has its own keeps it, a target that lacks it receives the
    array of the first target that has one, and so either every stored target
    has that kind of array or none has. *)
Theorem _setMorph_fills (params : RawMorph) (n n' : Node) :
  _setMorph params n = Ok n' ->
  exists targets keys filled,
    r_targets params = Some targets /\ r_keys params = Some keys /\
    (2 <= length targets)%nat /\ length keys = length targets /\
    attr_keys n' = Some keys /\ attr_targets n' = Some filled /\
    length filled = length targets /\
    _handle n' = _handle n /\
    forall f, f ∈ [positions; normals; uv; uv2] ->
      forall (i : nat) t t', targets !! i = Some t -> filled !! i = Some t' ->
        (forall a, f t = Some a -> f t' = Some a) /\
        (f t = None -> f t' = head (omap f targets)) /\
        (is_Some (f t') <-> exists t0, t0 ∈ targets /\ is_Some (f t0)).
Proof.
  unfold _setMorph.
  destruct (r_targets params) as [targets|]; simpl; [|done].
  destruct (length targets <? 2)%nat eqn:Hlen; [done|].
  apply Nat.ltb_ge in Hlen.
  destruct (r_keys params) as [keys|]; simpl.
  2:{ destruct targets; simpl in *; [lia|done]. }
  destruct (length keys =? length targets)%nat eqn:Hk; simpl; [|done].
  apply Nat.eqb_eq in Hk. intros [= <-].
  exists targets, keys, (map (fill_target targets) targets).
  do 6 (split; [done|]). split; [by rewrite length_map|]. split; [done|].
  intros f Hf i t t' Ht Ht'. rewrite list_lookup_fmap, Ht in Ht'. simpl in Ht'.
  injection Ht' as <-. rewrite fill_target_field by done. rewrite first_of_head.
  split; [|split].
  - intros a Ha. by rewrite Ha.
  - intros Hnone. by rewrite Hnone.
  - destruct (f t) as [a|] eqn:Hft; simpl; [|apply head_omap_Some].
    split; [|by eexists]. intros _. exists t.
    split; [by eapply list_elem_of_lookup_2|]. by rewrite Hft.
Qed.

(** Two targets, the second without positions, the first without normals:
    the second receives the positions of the first and the first the normals
    of the second. *)
Lemma _setMorph_fills_witness :
  let t1 := {| positions := Some [0; 1; 2]%Q; normals := None; uv := None; uv2 := None |} in
  let t2 := {| positions := None; normals := Some [0; 0; 1]%Q; uv := None; uv2 := None |} in
  let n := {| attr_id := "n"; _resource := None; _create := None; _stream := None;
              _handle := None; attr_factor := 0%Q; attr_clamp := true;
              attr_keys := None; attr_targets := None |} in
  let both := {| positions := Some [0; 1; 2]%Q; normals := Some [0; 0; 1]%Q;
                 uv := None; uv2 := None |} in
  _setMorph {| r_targets := Some [t1; t2]; r_keys := Some [0; 1]%Q |} n
  = Ok (with_morph [0; 1]%Q [both; both] n) /\
  exists filled,
    attr_targets (with_morph [0; 1]%Q [both; both] n) = Some filled /\
    length filled = 2%nat.
Proof.
  intros t1 t2 n both. split; [reflexivity|].
  destruct (_setMorph_fills {| r_targets := Some [t1; t2]; r_keys := Some [0; 1]%Q |} n
              (with_morph [0; 1]%Q [both; both] n))
    as (targets & keys & filled & Ht & _ & _ & _ & _ & Hf & Hl & _).
  - reflexivity.
  - exists filled. split; [exact Hf|]. injection Ht as <-. exact Hl.
Defined.


Section Lifecycle.

Variable alloc_throws : list Buffer -> list Q -> bool.
Variable _createKeyForMap : option (obj (option nat)) -> string -> string.

Local Abbreviation createMorphGeometry :=
  (createMorphGeometry alloc_throws _createKeyForMap).
Local Abbreviation _preCompile := (_preCompile alloc_throws _createKeyForMap).

(** A morph just created, pushed and then destroyed through its handle. *)
Lemma create_push_destroy resource data options s oh s' cv mapref id f :
  active cv mapref s ->
  getElementById (canvasId cv) (document s) = true ->
  createMorphGeometry resource (Inline data) options s = (Ok oh, s') ->
  exists h m s2,
    oh = Some h /\ h_canvasId h = canvasId cv /\
    pushMorphGeometry id h f s' = (Ok tt, pushed id (length (morphs s)) f s') /\
    morphs (pushed id (length (morphs s)) f s') !! length (morphs s) = Some m /\
    m_factor m = Some f /\ m_keys m = d_keys data /\
    destroyMorphGeometry h (pushed id (length (morphs s)) f s') = (Ok tt, s2) /\
    live (buffers s2) = live (buffers s) /\
    stackLen s' = stackLen s.
Proof.
  intros (Hcv & Hcur & Hcm & Hlt) Hdoc Hcreate.
  destruct (createMorphGeometry_state _ _ _ _ _ _ _ _ Hcreate)
    as (cv' & mapref' & rid & targets & new & -> & Hcv' & Hcur' & -> & Hrefs).
  rewrite Hcv in Hcv'. injection Hcv' as <-. rewrite Hcur in Hcur'. injection Hcur' as <-.
  destruct (lookup_lt_is_Some_2 (maps s) mapref Hlt) as [o Ho].
  set (m0 := {| m_canvas := cv; m_resource := rid; m_keys := d_keys data;
                m_targets := targets; m_factor := None |}).
  set (s1 := register_morph mapref m0 (set_buffers (buffers s ++ new) s)).
  set (h := {| h_canvasId := canvasId cv; h_resource := rid |}).
  set (r := length (morphs s)).
  assert (He : entry mapref rid s1 = Some r).
  { unfold entry, s1, register_morph. simpl. rewrite list_lookup_alter_eq, Ho. simpl.
    by rewrite obj_get_set_eq. }
  assert (Hm : morphs (pushed id r f s1) !! r = Some (set_factor f m0)).
  { unfold pushed, s1, register_morph. simpl. rewrite list_lookup_alter_eq.
    unfold r. by rewrite list_lookup_middle. }
  assert (Hd : destroyMorphGeometry h (pushed id r f s1)
               = (Ok tt, nulled (set_factor f m0) (released (set_factor f m0)
                                                     (pushed id r f s1)))).
  { unfold destroyMorphGeometry, bind, get. simpl. rewrite Hcm.
    change (entry mapref rid (pushed id r f s1)) with (entry mapref rid s1).
    rewrite He. by apply destroyMorph_Some. }
  exists h, (set_factor f m0). eexists.
  split; [done|]. split; [done|]. split.
  { apply (pushMorphGeometry_Ok id h f s1 mapref r); [done|exact He]. }
  split; [exact Hm|]. split; [done|]. split; [done|]. split; [exact Hd|].
  unfold nulled, released. simpl. rewrite Hdoc. simpl. rewrite Hcm. simpl.
  rewrite Hrefs, kill_all_new. split; [|done].
  apply live_app_dead, Forall_dead.
Qed.

(** X14.  The life of a node whose targets are given or made by its factory
    function.  On an active canvas whose element is in the document, the
    first [_preCompile] creates the morph, keeps the handle and pushes the
    morph with the node's id and factor; from then on [_preCompile] makes no
    buffer; and [_destroy] releases every buffer the node made, so that the
    buffers alive are those alive before the node was compiled, and clears
    the handle. *)
Theorem _preCompile_then_destroy (n n1 : Node) (s s1 : State) (h : Handle)
    (cv : Canvas) (mapref : nat) :
  active cv mapref s ->
  getElementById (canvasId cv) (document s) = true ->
  _handle n = None ->
  _preCompile n s = (Ok n1, s1) ->
  _handle n1 = Some h ->
  exists r m s2,
    h_canvasId h = canvasId cv /\
    stackLen s1 = stackLen s + 1 /\
    idStack s1 !! stackLen s = Some (attr_id n) /\
    morphStack s1 !! stackLen s = Some r /\
    morphs s1 !! r = Some m /\ m_factor m = Some (attr_factor n) /\
    dirty s1 = true /\
    (forall s', buffers (snd (_preCompile n1 s')) = buffers s') /\
    _destroy n1 s1 = (Ok (with_handle None n1), s2) /\
    live (buffers s2) = live (buffers s) /\
    _destroy (with_handle None n1) s2 = (Ok (with_handle None n1), s2).
Proof.
  intros Hact Hdoc Hnone Hpre Hh.
  assert (Hlater : forall s', buffers (snd (_preCompile n1 s')) = buffers s').
  { intros s'. unfold Morph._preCompile, bind, ret. rewrite Hh. simpl. rewrite Hh.
    destruct (pushMorphGeometry_cases (attr_id n1) h (attr_factor n1) s')
      as [(mr & r & _ & _ & ->)| ->]; done. }
  assert (Hcore : forall n' src oh s',
            attr_id n' = attr_id n -> attr_factor n' = attr_factor n ->
            createMorphGeometry (_resource n') (Inline src) (attr_clamp n') s = (Ok oh, s') ->
            n1 = with_handle oh n' ->
            (match oh with
             | Some h0 => (pushMorphGeometry (attr_id n') h0 (attr_factor n') ;;; ret (with_handle oh n')) s'
             | None => (Ok (with_handle oh n'), s')
             end) = (Ok n1, s1) ->
            exists r m s2,
              h_canvasId h = canvasId cv /\
              stackLen s1 = stackLen s + 1 /\
              idStack s1 !! stackLen s = Some (attr_id n) /\
              morphStack s1 !! stackLen s = Some r /\
              morphs s1 !! r = Some m /\ m_factor m = Some (attr_factor n) /\
              dirty s1 = true /\
              _destroy n1 s1 = (Ok (with_handle None n1), s2) /\
              live (buffers s2) = live (buffers s)).
  { intros n' src oh s' Hid Hf Hcreate Hn1 Hrun.
    destruct (create_push_destroy _ _ _ _ _ _ cv mapref (attr_id n) (attr_factor n)
                Hact Hdoc Hcreate)
      as (h0 & m & s2 & -> & Hcid & Hpush & Hm & Hfac & _ & Hd & Hlive & Hsl).
    rewrite Hid, Hf in Hrun. unfold bind in Hrun. rewrite Hpush in Hrun.
    injection Hrun as _ <-.
    assert (h = h0) as -> by (rewrite Hn1 in Hh; simpl in Hh; congruence).
    exists (length (morphs s)), m, s2.
    split; [done|]. split; [simpl; lia|]. rewrite <- Hsl. split.
    { unfold pushed. simpl. by rewrite lookup_insert_eq. }
    split.
    { unfold pushed. simpl. by rewrite lookup_insert_eq. }
    split; [done|]. split; [done|]. split; [done|]. split; [|done].
    unfold _destroy, bind, ret. rewrite Hh. by rewrite Hd. }
  unfold Morph._preCompile in Hpre. rewrite Hnone in Hpre.
  unfold bind at 1 in Hpre.
  destruct (_create n) as [params|] eqn:Hcreate.
  - unfold bind at 1, lift in Hpre.
    destruct (_setMorph params n) as [n'|e] eqn:Hset; [|done].
    assert (Hn' : exists k t, n' = with_morph k t n).
    { unfold _setMorph in Hset.
      destruct (length (default [] (r_targets params)) <? 2)%nat; [done|].
      destruct (negb _); [done|]. injection Hset as <-. by eexists _, _. }
    destruct Hn' as (k & t & ->). unfold attr_source in Hpre. simpl in Hpre.
    unfold bind at 1, ret at 1 in Hpre.
    unfold bind at 1 in Hpre.
    match type of Hpre with
    | context [Morph.createMorphGeometry _ _ ?a ?b ?c s] =>
        destruct (createMorphGeometry a b c s) as [[oh|e] s'] eqn:Hc; [|done]
    end.
    unfold ret at 1 in Hpre. simpl in Hpre.
    destruct (Hcore (with_morph k t n) _ oh s' eq_refl eq_refl Hc) as (r & m & s2 & H).
    + destruct oh as [h0|]; simpl in Hpre.
      * unfold bind, ret in Hpre.
        destruct (pushMorphGeometry _ h0 _ s') as [[[]|e] sp]; [|done].
        by injection Hpre as <- _.
      * by injection Hpre as <- _.
    + by destruct oh.
    + exists r, m, s2. destruct H as (A1 & A2 & A3 & A4 & A5 & A6 & A7 & A8 & A9).
      do 7 (split; [done|]). split; [exact Hlater|]. do 2 (split; [done|]). reflexivity.
  - destruct (truthy (_stream n)) as [st|] eqn:Hst.
    + unfold Morph.createMorphGeometry, bind, get, ret in Hpre. simpl in Hpre.
      rewrite Hnone in Hpre. injection Hpre as <- _. congruence.
    + unfold attr_source in Hpre.
      destruct (attr_targets n) as [t|] eqn:Ht; [|done].
      unfold bind at 1, ret at 1 in Hpre.
      unfold bind at 1 in Hpre.
      match type of Hpre with
      | context [Morph.createMorphGeometry _ _ ?a ?b ?c s] =>
          destruct (createMorphGeometry a b c s) as [[oh|e] s'] eqn:Hc; [|done]
      end.
      unfold ret at 1 in Hpre. simpl in Hpre.
      destruct (Hcore n _ oh s' eq_refl eq_refl Hc) as (r & m & s2 & H).
      * destruct oh as [h0|]; simpl in Hpre.
        -- unfold bind, ret in Hpre.
           destruct (pushMorphGeometry _ h0 _ s') as [[[]|e] sp]; [|done].
           by injection Hpre as <- _.
        -- by injection Hpre as <- _.
      * by destruct oh.
      * exists r, m, s2. destruct H as (A1 & A2 & A3 & A4 & A5 & A6 & A7 & A8 & A9).
        do 7 (split; [done|]). split; [exact Hlater|]. do 2 (split; [done|]). reflexivity.
Qed.

End Lifecycle.

Lemma _preCompile_then_destroy_witness :
  let cv := {| canvasId := "c"; context := 1 |} in
  let s := snd (SCENE_COMPILING cv (initial ["c"])) in
  let t := {| positions := Some [0; 1; 2]%Q; normals := None; uv := None; uv2 := None |} in
  let n := {| attr_id := "n"; _resource := Some "r"; _create := None; _stream := None;
              _handle := None; attr_factor := (1 # 2)%Q; attr_clamp := true;
              attr_keys := Some [0; 1]%Q; attr_targets := Some [t; t] |} in
  let h := {| h_canvasId := "c"; h_resource := "r" |} in
  let n1 := with_handle (Some h) n in
  let s1 := snd (_preCompile (fun _ _ => false) (fun _ p => p) n s) in
  length (live (buffers s1)) = 2%nat /\
  exists s2, _destroy n1 s1 = (Ok (with_handle None n1), s2) /\ live (buffers s2) = [].
Proof.
  intros cv s t n h n1 s1. split; [reflexivity|].
  destruct (_preCompile_then_destroy (fun _ _ => false) (fun _ p => p) n n1 s s1 h cv 0%nat)
    as (r & m & s2 & _ & _ & _ & _ & _ & _ & _ & _ & Hd & Hlive & _).
  - repeat split. simpl. lia.
  - reflexivity.
  - reflexivity.
  - reflexivity.
  - reflexivity.
  - exists s2. split; [exact Hd|exact Hlive].
Defined.

(** *** One resource id used twice *)

(** Destroying, through its handle, the morph that was registered last. *)
Lemma destroy_registered cv mapref m new s :
  obj_get (canvasId cv) (canvasMorphs s) = Some mapref ->
  (mapref < length (maps s))%nat ->
  getElementById (canvasId cv) (document s) = true ->
  m_canvas m = cv ->
  all_refs (m_targets m) = seq (length (buffers s)) (length new) ->
  let s1 := register_morph mapref m (set_buffers (buffers s ++ new) s) in
  let h := {| h_canvasId := canvasId cv; h_resource := m_resource m |} in
  entry mapref (m_resource m) s1 = Some (length (morphs s)) /\
  exists s2,
    destroyMorphGeometry h s1 = (Ok tt, s2) /\
    live (buffers s2) = live (buffers s) /\
    entry mapref (m_resource m) s2 = None /\
    destroyMorphGeometry h s2 = (Throw (not_found h), s2).
Proof.
  intros Hcm Hlt Hdoc Hmc Hrefs s1 h.
  destruct (lookup_lt_is_Some_2 (maps s) mapref Hlt) as [o Ho].
  assert (He : entry mapref (m_resource m) s1 = Some (length (morphs s))).
  { unfold entry, s1, register_morph. simpl. rewrite list_lookup_alter_eq, Ho. simpl.
    by rewrite obj_get_set_eq. }
  split; [exact He|].
  assert (Hm : morphs s1 !! length (morphs s) = Some m).
  { unfold s1, register_morph. simpl. by apply list_lookup_middle. }
  exists (nulled m (released m s1)).
  assert (Hs2 : nulled m (released m s1)
                = set_maps (alter (obj_set (m_resource m) None) mapref (maps s1))
                    (set_buffers (buffers s ++ map kill new) s1)).
  { unfold nulled, released. simpl. rewrite Hmc, Hdoc. simpl. rewrite Hcm.
    by rewrite Hrefs, kill_all_new. }
  assert (Hnull : entry mapref (m_resource m) (nulled m (released m s1)) = None).
  { rewrite Hs2. unfold entry. simpl. rewrite !list_lookup_alter_eq, Ho. simpl.
    by rewrite obj_get_set_eq. }
  split.
  { unfold destroyMorphGeometry, bind, get. simpl. rewrite Hcm, He.
    by apply destroyMorph_Some. }
  split.
  { rewrite Hs2. simpl. apply live_app_dead, Forall_dead. }
  split; [exact Hnull|].
  assert (Hcm2 : obj_get (canvasId cv) (canvasMorphs (nulled m (released m s1)))
                 = Some mapref) by (by rewrite Hs2).
  unfold destroyMorphGeometry, bind, get, h. cbn [h_canvasId h_resource].
  by rewrite Hcm2, Hnull.
Qed.

Section Replace.

Variable alloc_throws : list Buffer -> list Q -> bool.
Variable _createKeyForMap : option (obj (option nat)) -> string -> string.

Local Abbreviation createMorphGeometry :=
  (createMorphGeometry alloc_throws _createKeyForMap).

Lemma createMorphGeometry_given rid data options s oh s' :
  rid ≠ EmptyString ->
  createMorphGeometry (Some rid) (Inline data) options s = (Ok oh, s') ->
  exists cv mapref targets new,
    oh = Some {| h_canvasId := canvasId cv; h_resource := rid |} /\
    canvas s = Some cv /\ currentMorphs s = Some mapref /\
    s' = register_morph mapref
           {| m_canvas := cv; m_resource := rid; m_keys := d_keys data;
              m_targets := targets; m_factor := None |}
           (set_buffers (buffers s ++ new) s) /\
    Forall (fun b => buf_alive b = true) new /\
    all_refs targets = seq (length (buffers s)) (length new) /\
    length new = wanted_total (d_targets data).
Proof.
  intros Hrid. unfold Morph.createMorphGeometry, bind, get.
  destruct rid as [|a rid]; [done|]. simpl.
  destruct (_createMorph alloc_throws (String a rid) (createTypedMorph data) options s)
    as [[h|e0] s0] eqn:Hc; [|done].
  intros [= <- <-].
  destruct (_createMorph_Ok _ _ _ _ _ _ _ Hc)
    as (cv & mapref & targets & new & Hcv & Hcur & -> & -> & Hal & Hrefs & _ & Hnew).
  simpl in Hnew. rewrite wanted_total_typed in Hnew.
  by exists cv, mapref, targets, new.
Qed.

(** X15.  A resource id used twice.  [createMorphGeometry] does not look
    for a morph already filed under the id it is given: the second morph
    takes the place of the first in the morph map and gets an equal handle.
    The buffers of the first morph stay alive, and destroying through the
    handle releases the buffers of the second morph only, after which the
    handle finds nothing: the buffers of the first morph can no longer be
    released through a handle. *)
Theorem createMorphGeometry_twice (rid : string) (data1 data2 : MorphData)
    (o1 o2 : bool) (s s1 s2 : State) (oh1 oh2 : option Handle)
    (cv : Canvas) (mapref : nat) :
  rid ≠ EmptyString ->
  active cv mapref s ->
  getElementById (canvasId cv) (document s) = true ->
  createMorphGeometry (Some rid) (Inline data1) o1 s = (Ok oh1, s1) ->
  createMorphGeometry (Some rid) (Inline data2) o2 s1 = (Ok oh2, s2) ->
  exists h new1 s3,
    oh1 = Some h /\ oh2 = Some h /\
    entry mapref rid s1 = Some (length (morphs s)) /\
    entry mapref rid s2 = Some (S (length (morphs s))) /\
    buffers s1 = buffers s ++ new1 /\
    Forall (fun b => buf_alive b = true) new1 /\
    length new1 = wanted_total (d_targets data1) /\
    destroyMorphGeometry h s2 = (Ok tt, s3) /\
    live (buffers s3) = live (buffers s1) /\
    destroyMorphGeometry h s3 = (Throw (not_found h), s3).
Proof.
  intros Hrid (Hcv & Hcur & Hcm & Hlt) Hdoc Hc1 Hc2.
  destruct (createMorphGeometry_given _ _ _ _ _ _ Hrid Hc1)
    as (cv1 & mr1 & ts1 & new1 & -> & Hcv1 & Hcur1 & -> & Hal1 & Hrefs1 & Hn1).
  rewrite Hcv in Hcv1. injection Hcv1 as <-. rewrite Hcur in Hcur1. injection Hcur1 as <-.
  set (m1 := {| m_canvas := cv; m_resource := rid; m_keys := d_keys data1;
                m_targets := ts1; m_factor := None |}) in *.
  set (s1 := register_morph mapref m1 (set_buffers (buffers s ++ new1) s)) in *.
  destruct (createMorphGeometry_given _ _ _ _ _ _ Hrid Hc2)
    as (cv2 & mr2 & ts2 & new2 & -> & Hcv2 & Hcur2 & -> & Hal2 & Hrefs2 & Hn2).
  change (canvas s1) with (canvas s) in Hcv2.
  change (currentMorphs s1) with (currentMorphs s) in Hcur2.
  rewrite Hcv in Hcv2. injection Hcv2 as <-. rewrite Hcur in Hcur2. injection Hcur2 as <-.
  set (m2 := {| m_canvas := cv; m_resource := rid; m_keys := d_keys data2;
                m_targets := ts2; m_factor := None |}) in *.
  destruct (destroy_registered cv mapref m1 new1 s Hcm Hlt Hdoc eq_refl Hrefs1)
    as (He1 & _).
  destruct (destroy_registered cv mapref m2 new2 s1) as (He2 & s3 & Hd & Hlive & _ & Hd2);
    try done.
  { unfold s1, register_morph. simpl. by rewrite length_alter. }
  exists {| h_canvasId := canvasId cv; h_resource := rid |}, new1, s3.
  split; [done|]. split; [done|]. split; [exact He1|]. split.
  { etrans; [exact He2|]. unfold s1, register_morph. simpl.
    rewrite length_app. simpl. f_equal. lia. }
  split; [done|]. split; [done|]. split; [done|]. done.
Qed.

End Replace.

Lemma createMorphGeometry_twice_witness :
  let cv := {| canvasId := "c"; context := 1 |} in
  let s := snd (SCENE_COMPILING cv (initial ["c"])) in
  let t := {| positions := Some [0; 1; 2]%Q; normals := None; uv := None; uv2 := None |} in
  let data := {| d_keys := [0; 1]%Q; d_targets := [t; t] |} in
  let create := createMorphGeometry (fun _ _ => false) (fun _ p => p)
                  (Some "r") (Inline data) true in
  let h := {| h_canvasId := "c"; h_resource := "r" |} in
  let s2 := snd (create (snd (create s))) in
  length (live (buffers s2)) = 4%nat /\
  exists s3, destroyMorphGeometry h s2 = (Ok tt, s3) /\
             length (live (buffers s3)) = 2%nat /\
             destroyMorphGeometry h s3 = (Throw (not_found h), s3).
Proof.
  intros cv s t data create h s2. split; [reflexivity|].
  destruct (createMorphGeometry_twice (fun _ _ => false) (fun _ p => p) "r" data data
              true true s (snd (create s)) s2 (Some h) (Some h) cv 0%nat)
    as (h' & new1 & s3 & Hh & _ & _ & _ & _ & _ & _ & Hd & Hlive & Hd2).
  - done.
  - repeat split. simpl. lia.
  - reflexivity.
  - reflexivity.
  - reflexivity.
  - injection Hh as <-. exists s3. split; [exact Hd|]. split; [|exact Hd2].
    rewrite Hlive. reflexivity.
Defined.

(** *** The start of a compile pass *)



(** *** Targets made by a factory function *)

Section Factory.

Variable alloc_throws : list Buffer -> list Q -> bool.
Variable _createKeyForMap : option (obj (option nat)) -> string -> string.

Local Abbreviation _preCompile := (_preCompile alloc_throws _createKeyForMap).

(** X22.  A node given a factory function is not validated when it is
    constructed.  Whatever the other parameters, [_init] returns, keeps the
    function, sets the factor (0 when none is given) and the clamp flag (true
    unless [false] is given) and stores no targets.  The targets the function
    makes are checked at the first [_preCompile]: with fewer than two targets,
    or with a number of keys other than the number of targets, it throws the
    error ILLEGAL_NODE_CONFIG and changes nothing, and it does so again at every
    later [_preCompile]. *)
Theorem _init_factory_defers (params : Params) (raw : RawMorph) (n : Node) (s : State) :
  p_create params = Some raw ->
  exists n',
    _init params n s = (Ok n', s) /\
    _create n' = Some raw /\ _handle n' = _handle n /\
    attr_targets n' = attr_targets n /\ attr_keys n' = attr_keys n /\
    attr_factor n' = default 0%Q (p_factor params) /\
    (attr_clamp n' = false <-> p_clamp params = Some false) /\
    (_handle n = None ->
     (length (default [] (r_targets raw)) < 2)%nat \/
     length (default [] (r_keys raw)) ≠ length (default [] (r_targets raw)) ->
     forall s', exists msg,
       _preCompile n' s' = (Throw (Fatal (Some ILLEGAL_NODE_CONFIG) msg), s')).
Proof.
  intros Hc. unfold _init, bind, ret. rewrite Hc. simpl.
  eexists. split; [reflexivity|]. simpl.
  do 5 (split; [done|]). split.
  { destruct (p_clamp params) as [[]|]; split; done. }
  intros Hh Hbad s'. unfold Morph._preCompile, bind, lift. simpl. rewrite Hh.
  unfold _setMorph.
  destruct (length (default [] (r_targets raw)) <? 2)%nat eqn:Hlen; [by eexists|].
  apply Nat.ltb_ge in Hlen.
  destruct (length (default [] (r_keys raw)) =? length (default [] (r_targets raw)))%nat
    eqn:Hk; simpl; [|by eexists].
  apply Nat.eqb_eq in Hk. destruct Hbad; [lia|done].
Qed.

End Factory.

(** A factory function that makes one target only. *)
Lemma _init_factory_defers_witness :
  let t := {| positions := Some [0; 1; 2]%Q; normals := None; uv := None; uv2 := None |} in
  let raw := {| r_targets := Some [t]; r_keys := Some [0]%Q |} in
  let params := {| p_create := Some raw; p_stream := None; p_targets := None;
                   p_keys := None; p_factor := None; p_clamp := None |} in
  let n := {| attr_id := "n"; _resource := None; _create := None; _stream := None;
              _handle := None; attr_factor := 0%Q; attr_clamp := true;
              attr_keys := None; attr_targets := None |} in
  let s := initial ["c"] in
  exists n' msg,
    _init params n s = (Ok n', s) /\
    _preCompile (fun _ _ => false) (fun _ p => p) n' s
    = (Throw (Fatal (Some ILLEGAL_NODE_CONFIG) msg), s).
Proof.
  intros t raw params n s.
  destruct (_init_factory_defers (fun _ _ => false) (fun _ p => p) params raw n s eq_refl)
    as (n' & Hi & _ & _ & _ & _ & _ & _ & Hpre).
  destruct (Hpre eq_refl) with (s' := s) as [msg Hmsg].
  - left. unfold raw. simpl. lia.
  - by exists n', msg.
Defined.

End MorphMore.

(** ** More on the camera node *)

Module CameraMore.
Import JS Camera ObjFacts CameraFacts.
Local Open Scope js_scope.

Lemma or_num_kept x d : kept x d (Some (or_num x d)).
Proof.
  unfold kept, or_num. split; [|split].
  - intros q -> Hq. destruct (Qeq_bool q 0) eqn:Hz; [|done].
    by apply Qeq_bool_iff in Hz.
  - intros q -> Hq. apply Qeq_bool_iff in Hq. by rewrite Hq.
  - by intros ->.
Qed.

Lemma param_type_is_true t o : param_type_is t o = true -> o_type o = Some t.
Proof.
  unfold param_type_is. destruct (o_type o) as [t'|]; [|done].
  intros H. apply String.eqb_eq in H. by subst.
Qed.

(** The optics object a successful [setOptics] has made. *)
Lemma setOptics_props optics s s1 :
  setOptics optics s = (Ok tt, s1) ->
  exists props,
    s1 = set_compileMemoLevel 0
           (set_attr_optics (Some (length (heap s)))
              (set_heap (heap s ++ [CObj props]) s)) /\
    optics_of s1 = Some props /\
    ((optics = None /\ props = default_optics) \/
     exists o, optics = Some o /\
       ((o_type o = Some "ortho" /\ props = box_optics "ortho" o) \/
        (o_type o = Some "frustum" /\ props = box_optics "frustum" o) \/
        (o_type o = Some "perspective" /\ props = perspective_optics "perspective" o))).
Proof.
  assert (Hopt : forall props,
            optics_of (set_compileMemoLevel 0
                         (set_attr_optics (Some (length (heap s)))
                            (set_heap (heap s ++ [CObj props]) s))) = Some props).
  { intros props. unfold optics_of. simpl. by rewrite list_lookup_middle. }
  unfold setOptics, bind, assign_optics, bind, alloc, modify, _resetCompilationMemos, modify.
  destruct optics as [o|].
  - destruct (param_type_is "ortho" o) eqn:H1; simpl.
    { intros [= <-]. eexists. split; [done|]. split; [apply Hopt|].
      right. exists o. split; [done|]. left. split; [by apply param_type_is_true|done]. }
    destruct (param_type_is "frustum" o) eqn:H2; simpl.
    { intros [= <-]. eexists. split; [done|]. split; [apply Hopt|].
      right. exists o. split; [done|]. right. left.
      split; [by apply param_type_is_true|done]. }
    destruct (param_type_is "perspective" o) eqn:H3; simpl.
    { intros [= <-]. eexists. split; [done|]. split; [apply Hopt|].
      right. exists o. split; [done|]. right. right.
      split; [by apply param_type_is_true|done]. }
    by destruct (truthy (o_type o)).
  - simpl. intros [= <-]. eexists. split; [done|]. split; [apply Hopt|]. by left.
Qed.

(** X17.  [setOptics], then [getOptics].  After a [setOptics] that returns,
    [getOptics] returns a new object, not the node's own, that has the type
    given and, for each bound of that type, the number given or, when the
    bound is missing or zero, its default: -1, 1, -1, 1 for left, right,
    bottom, top; 60 and 1 for fovy and aspect; 0.1 and 5000 for near and far.
    The bounds of the other types are not in the object.  Without an
    argument the optics are the perspective defaults. *)
Theorem setOptics_getOptics (optics : option OpticsParam) (s s1 : State) :
  setOptics optics s = (Ok tt, s1) ->
  exists r s2 copy,
    getOptics s1 = (Ok r, s2) /\ heap s2 !! r = Some (CObj copy) /\
    attr_optics s2 ≠ Some r /\
    match optics with
    | None =>
        obj_get "type" copy = Some (PStr "perspective") /\
        num_prop "fovy" copy = Some 60%Q /\ num_prop "aspect" copy = Some 1%Q /\
        num_prop "near" copy = Some (1 # 10)%Q /\ num_prop "far" copy = Some 5000%Q
    | Some o =>
        exists t,
          o_type o = Some t /\ obj_get "type" copy = Some (PStr t) /\
          kept (o_near o) (1 # 10) (num_prop "near" copy) /\
          kept (o_far o) 5000 (num_prop "far" copy) /\
          (((t = "ortho" \/ t = "frustum") /\
            kept (o_left o) (-1) (num_prop "left" copy) /\
            kept (o_right o) 1 (num_prop "right" copy) /\
            kept (o_bottom o) (-1) (num_prop "bottom" copy) /\
            kept (o_top o) 1 (num_prop "top" copy) /\
            obj_get "fovy" copy = None /\ obj_get "aspect" copy = None) \/
           (t = "perspective" /\
            kept (o_fovy o) 60 (num_prop "fovy" copy) /\
            kept (o_aspect o) 1 (num_prop "aspect" copy) /\
            obj_get "left" copy = None /\ obj_get "right" copy = None /\
            obj_get "bottom" copy = None /\ obj_get "top" copy = None))
    end.
Proof.
  intros Hs. destruct (setOptics_props _ _ _ Hs) as (props & Hs1 & Hopt & Hprops).
  destruct (getOptics_copy s1) as (copy & Hg & Hcopy). specialize (Hcopy props Hopt).
  assert (Hnum : forall k, num_prop k copy = num_prop k props).
  { intros k. unfold num_prop. by rewrite Hcopy. }
  exists (length (heap s1)), (set_heap (heap s1 ++ [CObj copy]) s1), copy.
  split; [exact Hg|]. split; [simpl; by apply list_lookup_middle|]. split.
  { rewrite Hs1. simpl. rewrite length_app. simpl. intros [= H]. lia. }
  rewrite !Hnum, !Hcopy.
  destruct Hprops as [[-> ->]|(o & -> & [[Ht ->]|[[Ht ->]|[Ht ->]]])].
  - done.
  - exists "ortho". split; [done|]. split; [done|].
    split; [apply or_num_kept|]. split; [apply or_num_kept|]. left.
    split; [by left|]. repeat (split; [apply or_num_kept|]). done.
  - exists "frustum". split; [done|]. split; [done|].
    split; [apply or_num_kept|]. split; [apply or_num_kept|]. left.
    split; [by right|]. repeat (split; [apply or_num_kept|]). done.
  - exists "perspective". split; [done|]. split; [done|].
    split; [apply or_num_kept|]. split; [apply or_num_kept|]. right.
    split; [done|]. repeat (split; [apply or_num_kept|]). done.
Qed.

(** An "ortho" camera given a left bound of zero and no far bound: the
    zero is read back as -1 and the far bound as 5000. *)
Lemma setOptics_getOptics_witness :
  let o := {| o_type := Some "ortho"; o_left := Some 0%Q; o_right := Some 2%Q;
              o_bottom := None; o_top := None; o_near := Some 1%Q; o_far := None;
              o_fovy := None; o_aspect := None |} in
  let s1 := snd (setOptics (Some o) (blank "camera" 0)) in
  exists r s2 copy,
    getOptics s1 = (Ok r, s2) /\ heap s2 !! r = Some (CObj copy) /\
    num_prop "left" copy = Some (-1)%Q /\ num_prop "right" copy = Some 2%Q /\
    num_prop "far" copy = Some 5000%Q.
Proof.
  intros o s1.
  destruct (setOptics_getOptics (Some o) (blank "camera" 0) s1 eq_refl)
    as (r & s2 & copy & Hg & Hr & _ & t & Ht & _ & _ & Hfar & Hb).
  exists r, s2, copy. split; [exact Hg|]. split; [exact Hr|].
  destruct Hb as [(_ & Hl & Hrt & _)|(Hp & _)].
  - split; [|split].
    + destruct Hl as (_ & Hz & _). by apply (Hz 0%Q).
    + destruct Hrt as (Hn & _ & _). by apply (Hn 2%Q).
    + destruct Hfar as (_ & _ & Hnone). by apply Hnone.
  - rewrite Hp in Ht. discriminate Ht.
Defined.

(** X18.  Which optics [setOptics] accepts.  With a type that is "ortho",
    "frustum" or "perspective" it returns, and the node has a new optics
    object; with any other type, or none, it throws the error
    ILLEGAL_NODE_CONFIG and leaves the node exactly as it was: the optics, the
    transform and the memo level are those of before. *)
Theorem setOptics_accepts (o : OpticsParam) (s : State) :
  (supported o /\
   exists s1, setOptics (Some o) s = (Ok tt, s1) /\
              attr_optics s1 = Some (length (heap s)) /\
              length (heap s1) = S (length (heap s))) \/
  (~ supported o /\
   exists msg, setOptics (Some o) s = (Throw (Fatal (Some ILLEGAL_NODE_CONFIG) msg), s)).
Proof.
  unfold supported, setOptics, bind, assign_optics, bind, alloc, modify,
    _resetCompilationMemos, modify, param_type_is.
  destruct (o_type o) as [t|]; simpl.
  2:{ right. split; [|by eexists]. intros [H|[H|H]]; discriminate H. }
  destruct (String.eqb t "ortho") eqn:H1; simpl.
  { apply String.eqb_eq in H1 as ->. left. split; [by left|].
    eexists; split; [reflexivity|]. simpl. rewrite length_app. simpl.
    split; [done|lia]. }
  destruct (String.eqb t "frustum") eqn:H2; simpl.
  { apply String.eqb_eq in H2 as ->. left. split; [right; by left|].
    eexists; split; [reflexivity|]. simpl. rewrite length_app. simpl.
    split; [done|lia]. }
  destruct (String.eqb t "perspective") eqn:H3; simpl.
  { apply String.eqb_eq in H3 as ->. left. split; [right; by right|].
    eexists; split; [reflexivity|]. simpl. rewrite length_app. simpl.
    split; [done|lia]. }
  right. split.
  - apply String.eqb_neq in H1, H2, H3. intros [[= H]|[[= H]|[= H]]]; done.
  - destruct t as [|a t]; simpl; by eexists.
Qed.

Section Matrix.

Variable ortho frustum : option Q -> option Q -> option Q -> option Q -> option Q -> option Q -> list Q.
Variable perspective : option Q -> option Q -> option Q -> option Q -> list Q.
Variable PI : Q.

Local Abbreviation _rebuild := (_rebuild ortho frustum perspective PI).
Local Abbreviation getMatrix := (getMatrix ortho frustum perspective PI).
Local Abbreviation _preCompile := (_preCompile ortho frustum perspective PI).
Local Abbreviation run_math := (run_math ortho frustum perspective).
Local Abbreviation rebuilt := (rebuilt ortho frustum perspective).

(** The constructor [_rebuild] calls, and its arguments. *)
Lemma _rebuild_call s props :
  _compileMemoLevel s = 0%nat ->
  optics_of s = Some props ->
  _rebuild s
  = if type_is "ortho" props then
      (Ok tt, rebuilt (OrthoMat4c (num_prop "left" props) (num_prop "right" props)
                         (num_prop "bottom" props) (num_prop "top" props)
                         (num_prop "near" props) (num_prop "far" props))
                {| t_type := "ortho";
                   t_optics := copy_props ["left"; "right"; "bottom"; "top"; "near"; "far"] props;
                   t_matrix := length (heap s) |} s)
    else if type_is "frustum" props then
      (Ok tt, rebuilt (FrustumMatrix4 (num_prop "left" props) (num_prop "right" props)
                         (num_prop "bottom" props) (num_prop "top" props)
                         (num_prop "near" props) (num_prop "far" props))
                {| t_type := "frustum";
                   t_optics := copy_props ["left"; "right"; "bottom"; "top"; "near"; "far"] props;
                   t_matrix := length (heap s) |} s)
    else if type_is "perspective" props then
      (Ok tt, rebuilt (PerspectiveMatrix4
                         (option_map (fun fovy => fovy * PI / 180)%Q (num_prop "fovy" props))
                         (num_prop "aspect" props)
                         (num_prop "near" props) (num_prop "far" props))
                {| t_type := "perspective";
                   t_optics := copy_props ["fovy"; "aspect"; "near"; "far"] props;
                   t_matrix := length (heap s) |} s)
    else (Ok tt, set_compileMemoLevel 1 s).
Proof.
  intros Hmemo Hopt.
  unfold Camera._rebuild, call_math, alloc, modify, bind, get. simpl.
  rewrite Hmemo, Hopt. simpl.
  destruct (type_is "ortho" props); [done|].
  destruct (type_is "frustum" props); [done|].
  by destruct (type_is "perspective" props).
Qed.

(** The first [getMatrix] after a recomputation with the call [c]. *)
Lemma getMatrix_rebuilt s c t :
  _rebuild s = (Ok tt, rebuilt c t s) -> t_matrix t = length (heap s) ->
  exists m s2,
    getMatrix s = (Ok m, s2) /\ math_calls s2 = math_calls s ++ [c] /\
    heap s2 !! m = Some (CArr (run_math c)) /\
    _compileMemoLevel s2 = 1%nat /\ _transform s2 = Some t /\ m ≠ t_matrix t.
Proof.
  intros Hr Ht. rewrite getMatrix_after, Hr. simpl. rewrite Ht, list_lookup_middle by done.
  eexists _, _. split; [reflexivity|]. simpl. split; [done|]. split.
  { rewrite length_app. simpl. rewrite lookup_app_r; rewrite length_app; simpl; [|lia].
    by replace (length (heap s) + 1 - (length (heap s) + 1))%nat with 0%nat by lia. }
  split; [done|]. split; [done|]. rewrite length_app. simpl. lia.
Qed.

(** X19.  The matrix a camera computes.  The first [getMatrix] after a
    [setOptics] that returns, the memo level being 0, calls one constructor
    once, the one of the optics type, and returns a copy of its result.  For "ortho" and "frustum"
    the arguments are left, right, bottom, top, near, far in this order; for
    "perspective" they are the field of view turned from degrees to radians
    (times pi, divided by 180), the aspect, near and far.  Each is the number
    given or, if missing or zero, its default. *)
Theorem setOptics_getMatrix (optics : option OpticsParam) (s s1 : State) :
  setOptics optics s = (Ok tt, s1) ->
  _compileMemoLevel s1 = 0%nat ->
  exists m s2 c,
    getMatrix s1 = (Ok m, s2) /\
    math_calls s2 = math_calls s ++ [c] /\
    heap s2 !! m = Some (CArr (run_math c)) /\
    _compileMemoLevel s2 = 1%nat /\
    c = match optics with
        | None =>
            PerspectiveMatrix4 (Some (60 * PI / 180)%Q) (Some 1%Q)
                               (Some (1 # 10)%Q) (Some 5000%Q)
        | Some o =>
            let near := Some (or_num (o_near o) (1 # 10)) in
            let far := Some (or_num (o_far o) 5000) in
            if param_type_is "ortho" o then
              OrthoMat4c (Some (or_num (o_left o) (-1))) (Some (or_num (o_right o) 1))
                         (Some (or_num (o_bottom o) (-1))) (Some (or_num (o_top o) 1))
                         near far
            else if param_type_is "frustum" o then
              FrustumMatrix4 (Some (or_num (o_left o) (-1))) (Some (or_num (o_right o) 1))
                             (Some (or_num (o_bottom o) (-1))) (Some (or_num (o_top o) 1))
                             near far
            else
              PerspectiveMatrix4 (Some (or_num (o_fovy o) 60 * PI / 180)%Q)
                                 (Some (or_num (o_aspect o) 1)) near far
        end.
Proof.
  intros Hs Hmemo.
  destruct (setOptics_props _ _ _ Hs) as (props & Hs1 & Hopt & Hprops).
  assert (Hcalls : math_calls s1 = math_calls s) by (by rewrite Hs1).
  pose proof (_rebuild_call s1 props Hmemo Hopt) as Hr.
  destruct Hprops as [[-> ->]|(o & -> & [[Ht ->]|[[Ht ->]|[Ht ->]]])];
    unfold param_type_is; try rewrite Ht; simpl in Hr;
    destruct (getMatrix_rebuilt _ _ _ Hr eq_refl) as (m & s2 & Hg & Hc & Hm & Hl & _);
    exists m, s2; eexists; (split; [exact Hg|]); rewrite Hcalls in Hc;
    (split; [exact Hc|]); (split; [exact Hm|]); (split; [exact Hl|]); reflexivity.
Qed.

End Matrix.

Lemma setOptics_getMatrix_witness :
  let ortho := fun l r b t n f : option Q => [default 0 l; default 0 r; default 0 b;
                                              default 0 t; default 0 n; default 0 f]%Q in
  let frustum := fun _ _ _ _ _ _ : option Q => [2; 0; 0; 2]%Q in
  let perspective := fun _ _ _ _ : option Q => [3; 0; 0; 3]%Q in
  let o := {| o_type := Some "ortho"; o_left := Some 0%Q; o_right := Some 2%Q;
              o_bottom := Some (-3)%Q; o_top := Some 4%Q; o_near := Some 1%Q;
              o_far := None; o_fovy := None; o_aspect := None |} in
  let s1 := snd (setOptics (Some o) (blank "camera" 0)) in
  exists m s2,
    getMatrix ortho frustum perspective 3 s1 = (Ok m, s2) /\
    heap s2 !! m = Some (CArr [-1; 2; -3; 4; 1; 5000]%Q).
Proof.
  intros ortho frustum perspective o s1.
  destruct (setOptics_getMatrix ortho frustum perspective 3 (Some o) (blank "camera" 0) s1
              eq_refl eq_refl)
    as (m & s2 & c & Hg & _ & Hm & _ & Hc).
  exists m, s2. split; [exact Hg|]. rewrite Hm, Hc. reflexivity.
Defined.

Section Compiling.

Variable ortho frustum : option Q -> option Q -> option Q -> option Q -> option Q -> option Q -> list Q.
Variable perspective : option Q -> option Q -> option Q -> option Q -> list Q.
Variable PI : Q.
Variable _compileNodes : M unit.

Local Abbreviation _rebuild := (_rebuild ortho frustum perspective PI).
Local Abbreviation _preCompile := (_preCompile ortho frustum perspective PI).
Local Abbreviation _compile := (_compile ortho frustum perspective PI _compileNodes).
Local Abbreviation run_math := (run_math ortho frustum perspective).
Local Abbreviation rebuilt := (rebuilt ortho frustum perspective).

Lemma _preCompile_after s :
  _preCompile s
  = match _rebuild s with
    | (Ok _, s2) =>
        (Ok tt, set_projection_calls
                  (projection_calls s2 ++ [PushTransform (attr_id s2) (_transform s2)]) s2)
    | (Throw e, s2) => (Throw e, s2)
    end.
Proof.
  unfold Camera._preCompile, bind, get, modify, ret. simpl.
  destruct (_compileMemoLevel s =? 0)%nat eqn:Hm.
  - by destruct (_rebuild s) as [[[]|e] s2].
  - apply Nat.eqb_neq in Hm. by rewrite (_rebuild_memo ortho frustum perspective PI s Hm).
Qed.

(** X20.  Compiling a camera.  After a [setOptics] that returns, the memo
    level being 0, [_compile] first computes the matrix, with one constructor call, and pushes onto the
    projection module the node's id with the node's own transform object, whose
    matrix is the constructor's result; a later [_preCompile] pushes the same
    transform again without computing anything.  Then the children are
    compiled.  If they return, the transform is popped; if they throw,
    [_compile] throws the same and nothing is popped. *)
Theorem _compile_brackets (optics : option OpticsParam) (s s1 s3 : State)
    (r : result unit) :
  setOptics optics s = (Ok tt, s1) ->
  _compileMemoLevel s1 = 0%nat ->
  _compile s1 = (r, s3) ->
  exists c t s2 rc s2',
    _preCompile s1 = (Ok tt, s2) /\
    math_calls s2 = math_calls s ++ [c] /\
    _transform s2 = Some t /\
    heap s2 !! t_matrix t = Some (CArr (run_math c)) /\
    projection_calls s2 = projection_calls s ++ [PushTransform (attr_id s) (Some t)] /\
    _preCompile s2
    = (Ok tt, set_projection_calls
                (projection_calls s2 ++ [PushTransform (attr_id s) (Some t)]) s2) /\
    _compileNodes s2 = (rc, s2') /\
    match rc with
    | Ok _ =>
        r = Ok tt /\
        s3 = set_projection_calls (projection_calls s2' ++ [PopTransform]) s2'
    | Throw e => r = Throw e /\ s3 = s2'
    end.
Proof.
  intros Hs Hmemo Hc.
  destruct (setOptics_result _ _ _ _ Hs) as [(e & ? & _)|(_ & props & Hv & Hs1)]; [done|].
  assert (Hopt : optics_of s1 = Some props).
  { rewrite Hs1. unfold optics_of. simpl. by rewrite list_lookup_middle. }
  destruct (_rebuild_valid ortho frustum perspective PI s1 props Hmemo Hopt Hv)
    as (c & t & Hr & Ht).
  set (s2 := set_projection_calls
               (projection_calls s1 ++ [PushTransform (attr_id s1) (Some t)])
               (rebuilt c t s1)).
  assert (Hpre : _preCompile s1 = (Ok tt, s2)).
  { rewrite _preCompile_after, Hr. done. }
  destruct (_compileNodes s2) as [rc s2'] eqn:Hn.
  exists c, t, s2, rc, s2'.
  split; [exact Hpre|]. split; [unfold s2; simpl; by rewrite Hs1|]. split; [done|]. split.
  { simpl. rewrite Ht. by apply list_lookup_middle. }
  split; [unfold s2; simpl; by rewrite Hs1|]. split.
  { rewrite _preCompile_after.
    rewrite (_rebuild_memo ortho frustum perspective PI s2) by done.
    unfold s2. simpl. by rewrite Hs1. }
  split; [done|].
  unfold Camera._compile, bind in Hc. fold _preCompile in Hc. rewrite Hpre, Hn in Hc.
  destruct rc as [[]|e]; by injection Hc as <- <-.
Qed.

End Compiling.

Lemma _compile_brackets_witness :
  let ortho := fun _ _ _ _ _ _ : option Q => [1; 0; 0; 1]%Q in
  let frustum := fun _ _ _ _ _ _ : option Q => [2; 0; 0; 2]%Q in
  let perspective := fun _ _ _ _ : option Q => [3; 0; 0; 3]%Q in
  let s1 := snd (setOptics None (blank "camera" 0)) in
  let children : M unit := throw TypeError in
  let res := _compile ortho frustum perspective 3 children s1 in
  fst res = Throw TypeError /\
  exists t, projection_calls (snd res) = [PushTransform "camera" (Some t)] /\
            heap (snd res) !! t_matrix t = Some (CArr [3; 0; 0; 3]%Q).
Proof.
  intros ortho frustum perspective s1 children res.
  destruct (_compile_brackets ortho frustum perspective 3 children None
              (blank "camera" 0) s1 (snd res) (fst res) eq_refl eq_refl eq_refl)
    as (c & t & s2 & rc & s2' & Hpre & _ & _ & _ & _ & _ & Hn & Hrc).
  split; [reflexivity|].
  eexists. split; reflexivity.
Defined.

End CameraMore.
